(** * meteole: coverage resolution and retrieval assembly

    A shallow embedding of [src/meteole/forecast.py] (class [Forecast]):
    the catalog of coverage identifiers, the coverage-id resolver, the
    single-coverage column naming, the Cartesian assembly of
    [get_coverage], the forecast-horizon helpers and the multi-indicator
    combiner [get_combined_coverage]; and of [src/meteole/clients.py]
    (class [MeteoFranceClient]): the credentials of the session, the loop
    of [get] over the responses of the service, and the refresh of an
    expired token.

    Conventions.
    - Python exceptions are values of [Exception]; a computation that may
      raise returns a [result].
    - [str] is [string], for ASCII text; [int] is [Z].
    - A model object is a record [Forecast]: its class constants, and its
      external collaborators (the service, the GRIB decoder and
      [datetime.strptime]) as fields; the methods take it as [self].
    - A pandas frame is a record of its column labels and of its rows with
      their index labels; a row maps a column label to a cell, and a label
      without a cell is a missing value. Cells are kept abstract: they are
      compared, and converted by [int].
    - The client runs in a [Client.World]: its state, the answers the
      token service will give, and what it did so far. [get] runs over
      the list of the responses the service gives to its requests; it
      returns, raises, or is pending when the list runs out. *)

From Stdlib Require Import ZArith Lia String Ascii List DecimalString.
From stdpp Require Import base list strings sorting.

Local Open Scope string_scope.
Local Open Scope Z_scope.

(** ** Exceptions and results *)

(** The [ValueError]s of [forecast.py], one constructor per [raise] site. *)
Inductive ValueErrorSite :=
  | UnknownIndicator          (* _get_coverage_id, line 247 *)
  | InvalidRunFormat          (* _get_coverage_id, line 256 *)
  | InvalidRun                (* _get_coverage_id, line 260 *)
  | UnexpectedInterval        (* _get_coverage_id, line 270 *)
  | InvalidInterval           (* _get_coverage_id, line 281 *)
  | InvalidAxisValue (param_name : string) (* _raise_if_invalid_or_fetch_default *)
  | IndicatorXorCoverageId    (* get_coverage, line 152 *)
  | DuplicateRun              (* get_combined_coverage, line 574 *)
  | HeightsLengthMismatch     (* get_combined_coverage, line 578 *)
  | PressuresLengthMismatch   (* get_combined_coverage, line 585 *)
  | IntervalsLengthMismatch   (* get_combined_coverage, line 592 *)
  | InvalidForecastHorizons (horizons : list Z) (coverage_ids : list string)
                              (* get_combined_coverage, line 615 *)
  | NoObjectsToConcatenate    (* pandas.concat of an empty sequence *)
  | ScalarValuesWithoutIndex  (* pandas.DataFrame of one mapping of scalars *)
  | IntConversion.            (* int() of NaN or of a cell that is not a number *)

Inductive Exception :=
  | ValueError (site : ValueErrorSite)
  | IndexError
  | KeyError
  | TypeError
  | MergeError
  | ServiceError (code : Z).  (* any failure of an external collaborator *)

Inductive result (A : Type) :=
  | Ok (a : A)
  | Raise (e : Exception).
Arguments Ok {A} a.
Arguments Raise {A} e.

Global Instance result_ret : MRet result := fun A a => Ok a.
Global Instance result_bind : MBind result := fun A B f m =>
  match m with Ok a => f a | Raise e => Raise e end.
Global Instance result_fmap : FMap result := fun A B f m =>
  match m with Ok a => Ok (f a) | Raise e => Raise e end.

Definition raises {A} (m : result A) : Prop := exists e, m = Raise e.

(** [l[i]] for a non-negative constant index. *)
Definition item {A} (l : list A) (i : nat) : result A :=
  match l !! i with Some x => Ok x | None => Raise IndexError end.

(** ** The [str] methods used by the code *)

Module PyStr.

Fixpoint drop (n : nat) (s : string) : string :=
  match n, s with
  | O, _ => s
  | S _, EmptyString => EmptyString
  | S n', String _ s' => drop n' s'
  end.

(** The first occurrence of [sep] in [s], cut out: what is before it and
    what is after it ([str.partition] without the separator). *)
Fixpoint break_on (sep s : string) : option (string * string) :=
  if String.prefix sep s then Some (EmptyString, drop (String.length sep) s)
  else match s with
       | EmptyString => None
       | String c s' =>
           match break_on sep s' with
           | Some (a, b) => Some (String c a, b)
           | None => None
           end
       end.

(** [s.split(sep)] for a non-empty [sep]: cut at the leftmost occurrence
    and go on with the rest. Every cut removes at least one character, so
    [length s] rounds are enough ([split_fuel_enough]). *)
Fixpoint split_fuel (n : nat) (sep s : string) : list string :=
  match n with
  | O => [s]
  | S n' =>
      match break_on sep s with
      | None => [s]
      | Some (a, b) => a :: split_fuel n' sep b
      end
  end.

Definition split (sep s : string) : list string :=
  split_fuel (String.length s) sep s.

Fixpoint char_in (c : ascii) (chars : string) : bool :=
  match chars with
  | EmptyString => false
  | String a chars' => Ascii.eqb c a || char_in c chars'
  end.

Fixpoint lstrip (chars s : string) : string :=
  match s with
  | EmptyString => EmptyString
  | String a s' => if char_in a chars then lstrip chars s' else s
  end.

Fixpoint rstrip (chars s : string) : string :=
  match s with
  | EmptyString => EmptyString
  | String a s' =>
      match rstrip chars s' with
      | EmptyString => if char_in a chars then EmptyString else String a EmptyString
      | r => String a r
      end
  end.

(** [s.strip(chars)] *)
Definition strip (chars s : string) : string := rstrip chars (lstrip chars s).

Definition is_upper (c : ascii) : bool :=
  let n := nat_of_ascii c in (Nat.leb 65 n && Nat.leb n 90)%bool.

Definition lower_char (c : ascii) : ascii :=
  if is_upper c then ascii_of_nat (nat_of_ascii c + 32) else c.

(** [s.lower()] on the ASCII range. *)
Fixpoint lower (s : string) : string :=
  match s with
  | EmptyString => EmptyString
  | String c s' => String (lower_char c) (lower s')
  end.

(** ["".join(l)] *)
Definition join (l : list string) : string := foldr String.append EmptyString l.

Definition is_digit (c : ascii) : bool :=
  let n := nat_of_ascii c in (Nat.leb 48 n && Nat.leb n 57)%bool.

Definition newline : ascii := ascii_of_nat 10.

(** [re.sub(r"\d.*", "", s)]: every match is removed. A match starts at a
    digit and runs to the end of the line, since [.] does not match a
    line feed; the scan then resumes after the match. [inside] tells that
    the scan is within a match. *)
Fixpoint re_sub_digit_rest (inside : bool) (s : string) : string :=
  match s with
  | EmptyString => EmptyString
  | String c s' =>
      if inside then
        if Ascii.eqb c newline then String c (re_sub_digit_rest false s')
        else re_sub_digit_rest true s'
      else
        if is_digit c then re_sub_digit_rest true s'
        else String c (re_sub_digit_rest false s')
  end.

(** [s] does not start with a character of [chars]. *)
Definition head_free (chars s : string) : Prop :=
  match s with
  | "" => True
  | String a _ => char_in a chars = false
  end.

(** [sep.join(l)] *)
Fixpoint intercalate (sep : string) (l : list string) : string :=
  match l with
  | [] => EmptyString
  | [x] => x
  | x :: l' => x +:+ sep +:+ intercalate sep l'
  end.

(** [a] is cut at its end by the first [sep] put after it. *)
Definition cut_before (sep a : string) : Prop :=
  forall x, break_on sep (a +:+ sep +:+ x) = Some (a, x).

(** [s] up to its first digit: [s] with the first digit and everything
    after it taken off. *)
Fixpoint before_first_digit (s : string) : string :=
  match s with
  | EmptyString => EmptyString
  | String c s' => if is_digit c then EmptyString else String c (before_first_digit s')
  end.

(** [s] holds a line feed. *)
Fixpoint has_line_feed (s : string) : bool :=
  match s with
  | EmptyString => false
  | String c s' => Ascii.eqb c newline || has_line_feed s'
  end.

(** The initial of a word, as a string. *)
Definition initial (word : string) : string :=
  match word with
  | EmptyString => EmptyString
  | String c _ => String c EmptyString
  end.

(** A token between underscores: not empty, and without underscore. *)
Definition plain_token (t : string) : Prop :=
  t <> EmptyString /\ break_on "_" t = None.

(** [s] starts with a character that is not an underscore. *)
Definition starts_plain (s : string) : Prop :=
  match s with
  | EmptyString => False
  | String c _ => c <> "_"%char
  end.

(** [str(n)] for an [int]. *)
Definition of_int (n : Z) : string := NilZero.string_of_int (Z.to_int n).

End PyStr.

(** ** The catalog of coverages *)

(** One row of the capabilities frame: the coverage id sent by the service
    and the three columns [_build_capabilities] derives from it. The
    [title] and [subtype] columns play no part in the resolution and are
    left out. *)
Record CatalogEntry := {
  cov_id : string;
  cov_indicator : string;
  cov_run : string;
  cov_interval : string
}.

Global Instance CatalogEntry_eq_dec : EqDecision CatalogEntry.
Proof. solve_decision. Defined.

(** [coverage_id.split("___")[0]] *)
Definition indicator_of_id (coverage_id : string) : result string :=
  item (PyStr.split "___" coverage_id) 0.

(** [coverage_id.split("___")[1].split("Z")[0] + "Z"] *)
Definition run_of_id (coverage_id : string) : result string :=
  seg ← item (PyStr.split "___" coverage_id) 1;
  stem ← item (PyStr.split "Z" seg) 0;
  Ok (stem +:+ "Z").

(** [coverage_id.split("___")[1].split("Z")[1].strip("_")] *)
Definition interval_of_id (coverage_id : string) : result string :=
  seg ← item (PyStr.split "___" coverage_id) 1;
  rest ← item (PyStr.split "Z" seg) 1;
  Ok (PyStr.strip "_" rest).

(** The identifier-splitting rule of the catalog, on one coverage id. *)
Definition split_coverage_id (coverage_id : string) : result (string * string * string) :=
  indicator ← indicator_of_id coverage_id;
  run ← run_of_id coverage_id;
  interval ← interval_of_id coverage_id;
  Ok (indicator, run, interval).

Fixpoint zip_catalog (ids indicators runs intervals : list string) : list CatalogEntry :=
  match ids, indicators, runs, intervals with
  | i :: ids', n :: indicators', r :: runs', v :: intervals' =>
      {| cov_id := i; cov_indicator := n; cov_run := r; cov_interval := v |}
        :: zip_catalog ids' indicators' runs' intervals'
  | _, _, _, _ => []
  end.

(** The three derived columns of [_build_capabilities] (lines 197 to
    204), computed one after the other, each by a comprehension over the
    ids. *)
Definition derived_columns (ids : list string) : result (list CatalogEntry) :=
  indicators ← mapM indicator_of_id ids;
  runs ← mapM run_of_id ids;
  intervals ← mapM interval_of_id ids;
  Ok (zip_catalog ids indicators runs intervals).

(** [_build_capabilities], from the [wcs:CoverageId]s of the coverage
    summaries of the fetched document, in order. The frame is made of the
    summaries. Without summary it has no column, and reading its [id]
    column raises [KeyError]. A single summary is parsed as one mapping
    of scalars and not as a list of mappings: no frame can be made of it,
    [ValueError]. *)
Definition _build_capabilities (ids : list string) : result (list CatalogEntry) :=
  match ids with
  | [] => Raise KeyError
  | [_] => Raise (ValueError ScalarValuesWithoutIndex)
  | _ => derived_columns ids
  end.

(** [Series.unique()]: the values in order of first appearance. *)
Fixpoint unique (l : list string) : list string :=
  match l with
  | [] => []
  | x :: l' => x :: filter (fun y => y ≠ x) (unique l')
  end.

(** The shape of an interval of the catalog: free of [Z] and of ["___"],
    and stripped of underscores. *)
Definition clean_interval (v : string) : Prop :=
  PyStr.break_on "Z" v = None /\ PyStr.break_on "___" v = None
  /\ PyStr.head_free "_" v /\ PyStr.strip "_" v = v.

(** The shape of an indicator and of a run of the catalog: the indicator
    ends where the first ["___"] starts; the run is a stem free of [Z]
    and of ["___"], followed by [Z]. *)
Definition catalog_shape (indicator run interval : string) : Prop :=
  PyStr.cut_before "___" indicator
  /\ (exists stem, run = stem +:+ "Z" /\ PyStr.cut_before "Z" stem
                   /\ PyStr.break_on "___" stem = None)
  /\ clean_interval interval.

(** ** Frames *)

(** Python's [int(x)] on a cell of a frame. *)
Class PyInt (Cell : Type) := cell_int : Cell -> result Z.

Section Frames.
Context {Cell : Type} `{EqDecision Cell}.

(** A row maps a column label to its cell; a label without a cell is a
    missing value (NaN). *)
Definition Row := list (string * Cell).

(** A frame: column labels, and the rows with their index labels. *)
Record DataFrame := {
  columns : list string;
  rows : list (Z * Row)
}.

Fixpoint cell (r : Row) (column : string) : option Cell :=
  match r with
  | [] => None
  | (c, v) :: r' => if decide (c = column) then Some v else cell r' column
  end.

(** [df.drop(columns=cols, errors="ignore")] *)
Definition drop_columns (cols : list string) (df : DataFrame) : DataFrame :=
  {| columns := filter (fun c => c ∉ cols) (columns df);
     rows := map (fun ir => (ir.1, filter (fun cv => cv.1 ∉ cols) ir.2)) (rows df) |}.

Fixpoint rename_label (mapping : list (string * string)) (c : string) : string :=
  match mapping with
  | [] => c
  | (old, new) :: mapping' => if decide (c = old) then new else rename_label mapping' c
  end.

(** [df.rename(columns=mapping)] *)
Definition rename_columns (mapping : list (string * string)) (df : DataFrame) : DataFrame :=
  {| columns := map (rename_label mapping) (columns df);
     rows := map (fun ir => (ir.1, map (fun cv => (rename_label mapping cv.1, cv.2)) ir.2))
                 (rows df) |}.

(** [df[column].iloc[0]], for a column of the frame; [None] is NaN. *)
Definition iloc0 (df : DataFrame) (column : string) : result (option Cell) :=
  match rows df with
  | [] => Raise IndexError
  | (_, r) :: _ => Ok (cell r column)
  end.

(** The union of the column labels, in order of first appearance. *)
Fixpoint union_columns (dfs : list DataFrame) : list string :=
  match dfs with
  | [] => []
  | df :: dfs' =>
      (columns df ++ filter (fun c => c ∉ columns df) (union_columns dfs'))%list
  end.

(** [pd.concat(dfs, axis=0)]: the rows of the frames one after the other,
    each keeping its index label. *)
Definition concat (dfs : list DataFrame) : result DataFrame :=
  match dfs with
  | [] => Raise (ValueError NoObjectsToConcatenate)
  | _ => Ok {| columns := union_columns dfs; rows := flat_map rows dfs |}
  end.

Definition range_index {A} (l : list A) : list (Z * A) :=
  imap (fun i x => (Z.of_nat i, x)) l.

(** [df.reset_index(drop=True)] *)
Definition reset_index (df : DataFrame) : DataFrame :=
  {| columns := columns df; rows := range_index (map snd (rows df)) |}.

(** The merge key of a row: its cells at the [on] columns. *)
Definition key_of (on : list string) (r : Row) : list (option Cell) :=
  map (cell r) on.

Definition keys (on : list string) (df : DataFrame) : list (list (option Cell)) :=
  map (fun ir => key_of on ir.2) (rows df).

Definition suffixed (on others : list string) (suffix c : string) : string :=
  if decide ((c ∉ on) ∧ (c ∈ others)) then c +:+ suffix else c.

(** One joined row: the cells of the left row, then the cells of the
    right row that are not key cells; a label found on both sides gets
    the suffix [_x] on the left and [_y] on the right. *)
Definition join_rows (on lcols rcols : list string) (l r : Row) : Row :=
  (map (fun cv => (suffixed on rcols "_x" cv.1, cv.2)) l
   ++ map (fun cv => (suffixed on lcols "_y" cv.1, cv.2))
          (filter (fun cv => cv.1 ∉ on) r))%list.

(** [Index.duplicated()]: for each label, whether it stands earlier in
    the list too. *)
Fixpoint duplicated_after (seen labels : list string) : list bool :=
  match labels with
  | [] => []
  | c :: labels' => bool_decide (c ∈ seen) :: duplicated_after (c :: seen) labels'
  end.

Definition duplicated (labels : list string) : list bool := duplicated_after [] labels.

(** [labels[labels.duplicated() & ~original.duplicated()]]: the labels
    the suffixes made duplicates of. *)
Definition suffix_duplicates (original labels : list string) : list string :=
  map fst
      (filter (fun flagged : string * (bool * bool) =>
                 flagged.2.1 = true ∧ flagged.2.2 = false)
              (zip labels (zip (duplicated labels) (duplicated original)))).

(** [pd.merge(left, right, on=on, how="inner", validate="one_to_one")].
    The key columns must exist on both sides; [validate] raises
    [MergeError] unless the keys are unique in the left frame and unique
    in the right frame; labels found on both sides get their suffix, and
    a suffix that makes a duplicate, on the left or on the right, of a
    label that was none raises [MergeError]; the inner join keeps, in the
    order of the left rows, every pair of rows with equal keys; the
    result is indexed 0, 1, 2, ... *)
Definition merge_one_to_one (on : list string) (left right : DataFrame)
  : result DataFrame :=
  if decide (Forall (fun c => c ∈ columns left ∧ c ∈ columns right) on) then
    if decide (NoDup (keys on left) ∧ NoDup (keys on right)) then
      let others := filter (fun c => c ∉ on) (columns right) in
      let llabels := map (suffixed on (columns right) "_x") (columns left) in
      let rlabels := map (suffixed on (columns left) "_y") others in
      if decide (suffix_duplicates (columns left) llabels = []
                 ∧ suffix_duplicates others rlabels = []) then
        Ok {| columns := (llabels ++ rlabels)%list;
              rows :=
                range_index
                  (flat_map
                     (fun l => map (join_rows on (columns left) (columns right) l)
                                   (filter (fun r => key_of on r = key_of on l)
                                           (map snd (rows right))))
                     (map snd (rows left))) |}
      else Raise MergeError
    else Raise MergeError
  else Raise KeyError.

(** [functools.reduce(f, l)] without an initial value. *)
Definition reduce {A} (f : A -> A -> result A) (l : list A) : result A :=
  match l with
  | [] => Raise TypeError
  | x :: l' => foldl (fun acc y => a ← acc; f a y) (Ok x) l'
  end.

End Frames.
Arguments DataFrame Cell : clear implicits.
Arguments Row Cell : clear implicits.

(** ** The forecast object *)

(** [get_coverage_description]: the admissible values of each axis. *)
Record AxisDescription := {
  axis_forecast_horizons : list Z;
  axis_heights : list Z;
  axis_pressures : list Z
}.

(** The class constants of a model and its external collaborators.
    - [strptime_run run] tells whether
      [datetime.strptime(run, "%Y-%m-%dT%H.%M.%SZ")] succeeds.
    - [_fetch_capabilities] is the list of the [wcs:CoverageId]s of the
      coverage summaries of the capabilities document, or the failure of
      the request.
    - [get_coverage_description] is the decoded description of a coverage.
    - [fetch_grib] stands for [_get_coverage_file] followed by
      [_transform_grib_to_df]: the decoded raster of one request.
    - [set_pop] is the element [set.pop()] takes out of a set of several
      column labels. *)
Record Forecast {Cell : Type} := {
  INDICATORS : list string;
  INSTANT_INDICATORS : list string;
  strptime_run : string -> bool;
  _fetch_capabilities : result (list string);
  get_coverage_description : string -> result AxisDescription;
  fetch_grib : string -> option Z -> option Z -> Z -> Cell * Cell -> Cell * Cell
               -> result (DataFrame Cell);
  set_pop : list string -> string
}.
Arguments Forecast Cell : clear implicits.

Section Methods.
Context {Cell : Type} `{EqDecision Cell} `{PyInt Cell}.
Implicit Type self : Forecast Cell.

(** The [capabilities] property. The frame is built on first access and
    kept; the service's answer being fixed, every access gives the same
    frame. *)
Definition capabilities self : result (list CatalogEntry) :=
  ids ← _fetch_capabilities self;
  _build_capabilities ids.

(** [_get_coverage_id], lines 244 to 260: the rows of the indicator and
    the run, given or defaulted, once checked. *)
Definition checked_run self (indicator : string) (run : option string)
  : result (list CatalogEntry * string) :=
  all_capabilities ← capabilities self;
  let capabilities := filter (fun e => cov_indicator e = indicator) all_capabilities in
  if decide (indicator ∉ INDICATORS self) then Raise (ValueError UnknownIndicator) else
  run ← match run with
        | Some r => Ok r
        | None => cov_run <$> item capabilities 0
        end;
  if negb (strptime_run self run) then Raise (ValueError InvalidRunFormat) else
  let valid_runs := unique (map cov_run capabilities) in
  if decide (run ∉ valid_runs) then Raise (ValueError InvalidRun) else
  Ok (capabilities, run).

(** [_get_coverage_id], lines 262 to 284: the interval, given or
    defaulted, once checked. *)
Definition checked_interval self (capabilities : list CatalogEntry)
    (indicator : string) (interval : option string) : result (option string) :=
  let valid_intervals := unique (map cov_interval capabilities) in
  if decide (indicator ∈ INSTANT_INDICATORS self) then
    match interval with
    | None => Ok None
    | Some _ => Raise (ValueError UnexpectedInterval)
    end
  else
    match interval with
    | None => Ok (Some "P1D")
    | Some i =>
        if decide (i ∉ valid_intervals) then Raise (ValueError InvalidInterval)
        else Ok (Some i)
    end.

(** [_get_coverage_id], lines 286 to 291 *)
Definition format_coverage_id (indicator run : string) (interval : option string) : string :=
  let coverage_id := indicator +:+ "___" +:+ run in
  match interval with
  | Some i => coverage_id +:+ "_" +:+ i
  | None => coverage_id
  end.

(** The interval [_get_coverage_id] puts into the id: the given one, or
    the default of the indicator's kind. *)
Definition effective_interval self (indicator : string) (interval : option string)
  : option string :=
  match interval with
  | Some i => Some i
  | None => if decide (indicator ∈ INSTANT_INDICATORS self) then None else Some "P1D"
  end.

Definition _get_coverage_id self (indicator : string) (run interval : option string)
  : result string :=
  '(capabilities, run) ← checked_run self indicator run;
  interval ← checked_interval self capabilities indicator interval;
  Ok (format_coverage_id indicator run interval).

Definition _raise_if_invalid_or_fetch_default (param_name : string)
    (inputs : option (list Z)) (availables : list Z) : result (list Z) :=
  match inputs with
  | Some (x :: l) =>
      if decide (Forall (fun input_value => input_value ∈ availables) (x :: l))
      then Ok (x :: l)
      else Raise (ValueError (InvalidAxisValue param_name))
  | _ => Ok (match take 1 availables with [] => [-1] | first => first end)
  end.

(** [(set(df.columns) - known_columns).pop()] *)
Definition pop_unknown_column self (known_columns cols : list string) : result string :=
  match remove_dups (filter (fun c => c ∉ known_columns) cols) with
  | [] => Raise KeyError
  | [c] => Ok c
  | several => Ok (set_pop self several)
  end.

(** [word[0]] *)
Definition first_char (word : string) : result string :=
  match word with
  | EmptyString => Raise IndexError
  | String c _ => Ok (String c EmptyString)
  end.

Definition base_name_of (coverage_id indicator_column : string) : result string :=
  if decide (indicator_column = "unknown") then
    head ← item (PyStr.split "__" coverage_id) 0;
    initials ← mapM first_char (PyStr.split "_" head);
    Ok (PyStr.lower (PyStr.join initials))
  else Ok (PyStr.re_sub_digit_rest false indicator_column).

(** [int(df[column].iloc[0])] *)
Definition level_of (df : DataFrame Cell) (column : string) : result Z :=
  v ← iloc0 df column;
  match v with
  | Some c => cell_int c
  | None => Raise (ValueError IntConversion)
  end.

Definition suffix_of (df : DataFrame Cell) : result string :=
  if decide ("heightAboveGround" ∈ columns df) then
    n ← level_of df "heightAboveGround";
    Ok ("_" +:+ PyStr.of_int n +:+ "m")
  else if decide ("isobaricInhPa" ∈ columns df) then
    n ← level_of df "isobaricInhPa";
    Ok ("_" +:+ PyStr.of_int n +:+ "hpa")
  else Ok "".

(** [_get_data_single_forecast], lines 433 to 445 *)
Definition new_indicator_column (coverage_id indicator_column : string)
    (df : DataFrame Cell) : result string :=
  base_name ← base_name_of coverage_id indicator_column;
  suffix ← suffix_of df;
  Ok (base_name +:+ suffix).

Definition known_columns : list string :=
  ["latitude"; "longitude"; "run"; "forecast_horizon"; "heightAboveGround"; "isobaricInhPa"].

Definition _get_data_single_forecast self (coverage_id : string) (forecast_horizon : Z)
    (pressure height : option Z) (lat long : Cell * Cell) : result (DataFrame Cell) :=
  df ← fetch_grib self coverage_id height pressure (forecast_horizon * 3600) lat long;
  let df := drop_columns ["surface"; "valid_time"] df in
  let df := rename_columns [("time", "run"); ("step", "forecast_horizon")] df in
  indicator_column ← pop_unknown_column self known_columns (columns df);
  new_indicator_column ← new_indicator_column coverage_id indicator_column df;
  let df := rename_columns [(indicator_column, new_indicator_column)] df in
  Ok (drop_columns ["isobaricInhPa"; "heightAboveGround"; "meanSea"; "potentialVorticity"] df).

(** [bool(s)] for [s : str | None] *)
Definition truthy (s : option string) : bool :=
  match s with
  | Some (String _ _) => true
  | _ => false
  end.

(** [v if v != -1 else None] *)
Definition unsentinel (v : Z) : option Z := if decide (v ≠ -1) then Some v else None.

(** The iteration of the comprehension of [get_coverage] (lines 176 to
    178): [for forecast_horizon ... for pressure ... for height ...]. *)
Definition combinations (forecast_horizons pressures heights : list Z)
  : list (Z * Z * Z) :=
  forecast_horizon ← forecast_horizons;
  pressure ← pressures;
  height ← heights;
  [(forecast_horizon, pressure, height)].

Definition get_coverage self (indicator : option string) (lat long : Cell * Cell)
    (heights pressures forecast_horizons : option (list Z)) (run interval : option string)
    (coverage_id : string) : result (DataFrame Cell) :=
  if negb (xorb (truthy indicator) (truthy (Some coverage_id)))
  then Raise (ValueError IndicatorXorCoverageId) else
  coverage_id ← match indicator with
                | Some (String c i) => _get_coverage_id self (String c i) run interval
                | _ => Ok coverage_id
                end;
  axis ← get_coverage_description self coverage_id;
  heights ← _raise_if_invalid_or_fetch_default "heights" heights (axis_heights axis);
  pressures ←
    _raise_if_invalid_or_fetch_default "pressures" pressures (axis_pressures axis);
  forecast_horizons ←
    _raise_if_invalid_or_fetch_default "forecast_horizons" forecast_horizons
      (axis_forecast_horizons axis);
  df_list ←
    mapM (fun '(forecast_horizon, pressure, height) =>
            _get_data_single_forecast self coverage_id forecast_horizon
              (unsentinel pressure) (unsentinel height) lat long)
         (combinations forecast_horizons pressures heights);
  reset_index <$> concat df_list.

Definition get_forecast_horizons self (coverage_ids : list string) : result (list (list Z)) :=
  mapM (fun coverage_id =>
          axis_forecast_horizons <$> get_coverage_description self coverage_id)
       coverage_ids.

(** [sorted(l)] for a list of [int]. *)
Definition sorted (l : list Z) : list Z := merge_sort Z.le l.

Definition find_common_forecast_horizons self (list_coverage_id : list string)
  : result (list Z) :=
  indicator_forecast_horizons ← get_forecast_horizons self list_coverage_id;
  first ← item indicator_forecast_horizons 0;
  let common_forecast_horizons :=
    foldl (fun common times => filter (fun time => time ∈ times) common)
          first (drop 1 indicator_forecast_horizons) in
  Ok (sorted common_forecast_horizons).

Definition validate_forecast_horizons self (coverage_ids : list string)
    (forecast_horizons : list Z) : result (list string) :=
  indicator_forecast_horizons ← get_forecast_horizons self coverage_ids;
  Ok (map fst
        (filter (fun ct => ¬ Forall (fun h => h ∈ ct.2) forecast_horizons)
                (zip coverage_ids indicator_forecast_horizons))).

(** The forecast horizons the description of a coverage lists (none when
    the description cannot be had). *)
Definition available_horizons self (coverage_id : string) : list Z :=
  match get_coverage_description self coverage_id with
  | Ok axis => axis_forecast_horizons axis
  | Raise _ => []
  end.

(** *** [get_combined_coverage] *)

(** A resolved coverage with its positional height and pressure. *)
Definition Target : Type := string * option Z * option Z.

(** [coverage_ids_by_run]: a [dict], iterated in insertion order. *)
Definition RunDict : Type := list (string * list Target).

Fixpoint dict_get {V} (d : list (string * V)) (k : string) : result V :=
  match d with
  | [] => Raise KeyError
  | (k', v) :: d' => if decide (k' = k) then Ok v else dict_get d' k
  end.

(** [if k not in d: d[k] = []] *)
Definition dict_setdefault (d : RunDict) (k : string) : RunDict :=
  match dict_get d k with
  | Ok _ => d
  | Raise _ => (d ++ [(k, [])])%list
  end.

(** [d[k].append(t)] *)
Fixpoint dict_append (d : RunDict) (k : string) (t : Target) : result RunDict :=
  match d with
  | [] => Raise KeyError
  | (k', v) :: d' =>
      if decide (k' = k) then Ok ((k', (v ++ [t])%list) :: d')
      else d'' ← dict_append d' k t; Ok ((k', v) :: d'')
  end.

Fixpoint foldlM {A B} (f : A -> B -> result A) (a : A) (l : list B) : result A :=
  match l with
  | [] => Ok a
  | x :: l' => a' ← f a x; foldlM f a' l'
  end.

(** [enumerate(l)] *)
Definition enumerate {A} (l : list A) : list (nat * A) := imap (fun i x => (i, x)) l.

(** [bool(l)] for [l : list | None] *)
Definition nonempty {A} (l : option (list A)) : bool :=
  match l with
  | Some (_ :: _) => true
  | _ => false
  end.

(** The body of the loop over [indicator_names] (lines 599 to 603). *)
Definition resolve_indicator self (heights pressures : list Z)
    (intervals : option (list string)) (run : string)
    (d : RunDict) (entry : nat * string) : result RunDict :=
  let '(i, indicator) := entry in
  height_value ← (if decide (heights ≠ []) then Some <$> item heights i else Ok None);
  pressure_value ← (if decide (pressures ≠ []) then Some <$> item pressures i else Ok None);
  interval ← (if nonempty intervals then Some <$> item (default [] intervals) i
              else Ok None);
  coverage_id ← _get_coverage_id self indicator (Some run) interval;
  dict_append d run (coverage_id, height_value, pressure_value).

(** The body of the loop over [runs] (lines 596 to 608); the state is
    [coverage_ids_by_run] and [forecast_horizons]. *)
Definition resolve_run self (indicator_names : list string) (heights pressures : list Z)
    (intervals : option (list string))
    (state : RunDict * option (list Z)) (run : string)
  : result (RunDict * option (list Z)) :=
  let '(coverage_ids_by_run, forecast_horizons) := state in
  let coverage_ids_by_run := dict_setdefault coverage_ids_by_run run in
  coverage_ids_by_run ←
    foldlM (resolve_indicator self heights pressures intervals run)
           coverage_ids_by_run (enumerate indicator_names);
  match forecast_horizons with
  | None =>
      targets ← dict_get coverage_ids_by_run run;
      let list_coverage_id := map (fun t => t.1.1) targets in
      common ← find_common_forecast_horizons self list_coverage_id;
      first ← item common 0;
      Ok (coverage_ids_by_run, Some [first])
  | Some _ => Ok (coverage_ids_by_run, forecast_horizons)
  end.

Definition join_keys : list string := ["latitude"; "longitude"; "run"; "forecast_horizon"].

Definition merge_on_keys (left right : DataFrame Cell) : result (DataFrame Cell) :=
  merge_one_to_one join_keys left right.

(** The call of [get_coverage] for one resolved coverage (lines 621 to
    628). *)
Definition fetch_target self (lat long : Cell * Cell) (forecast_horizons : option (list Z))
    (target : Target) : result (DataFrame Cell) :=
  let '(coverage_id, height, pressure) := target in
  get_coverage self None lat long
    (Some (match height with Some h => [h] | None => [] end))
    (Some (match pressure with Some p => [p] | None => [] end))
    forecast_horizons None None coverage_id.

(** The body of the loop over [coverage_ids_by_run.items()] (lines 619
    to 640). *)
Definition combine_run self (lat long : Cell * Cell) (forecast_horizons : option (list Z))
    (item : string * list Target) : result (string * DataFrame Cell) :=
  let '(run, coverage_ids) := item in
  coverages ← mapM (fetch_target self lat long forecast_horizons) coverage_ids;
  merged ← reduce merge_on_keys coverages;
  Ok (run, merged).

Definition get_combined_coverage self (indicator_names runs : list string)
    (heights pressures : option (list Z)) (intervals : option (list string))
    (lat long : Cell * Cell) (forecast_horizons : option (list Z))
  : result (DataFrame Cell) :=
  if decide (length runs ≠ length (remove_dups runs))
  then Raise (ValueError DuplicateRun) else
  heights ←
    match heights with
    | Some hs =>
        if decide (length hs ≠ length indicator_names)
        then Raise (ValueError HeightsLengthMismatch) else Ok hs
    | None => Ok []
    end;
  pressures ←
    match pressures with
    | Some ps =>
        if decide (length ps ≠ length indicator_names)
        then Raise (ValueError PressuresLengthMismatch) else Ok ps
    | None => Ok []
    end;
  if nonempty intervals
     && bool_decide (length (default [] intervals) ≠ length indicator_names)
  then Raise (ValueError IntervalsLengthMismatch) else
  '(coverage_ids_by_run, forecast_horizons) ←
    foldlM (resolve_run self indicator_names heights pressures intervals)
           ([], forecast_horizons) runs;
  _ ← match forecast_horizons with
      | Some horizons =>
          let coverage_ids :=
            run_coverage ← map snd coverage_ids_by_run;
            map (fun t => t.1.1) run_coverage in
          invalid_coverage_ids ← validate_forecast_horizons self coverage_ids horizons;
          match invalid_coverage_ids with
          | [] => Ok ()
          | _ => Raise (ValueError (InvalidForecastHorizons horizons invalid_coverage_ids))
          end
      | None => Ok ()
      end;
  coverages_by_run ← mapM (combine_run self lat long forecast_horizons) coverage_ids_by_run;
  final_df ← concat (map snd coverages_by_run);
  Ok (reset_index final_df).

End Methods.

(** ** A fake service *)

(** Cells for the examples: a decimal number [mantissa / 10 ^ decimals],
    or a text. *)
Inductive Scalar :=
  | Num (mantissa : Z) (decimals : nat)
  | Text (s : string).

Global Instance Scalar_eq_dec : EqDecision Scalar.
Proof. solve_decision. Defined.

(** [int(x)] truncates a number toward zero. *)
Global Instance Scalar_int : PyInt Scalar := fun c =>
  match c with
  | Num mantissa decimals => Ok (Z.quot mantissa (10 ^ Z.of_nat decimals))
  | Text _ => Raise (ValueError IntConversion)
  end.

Definition digit_value (c : ascii) : option nat :=
  if PyStr.is_digit c then Some (nat_of_ascii c - 48)%nat else None.

Definition number_of (digits : list ascii) : option nat :=
  foldl (fun acc c => n ← acc; d ← digit_value c; Some (10 * n + d)%nat) (Some 0%nat) digits.

Definition days_in_month (year month : nat) : nat :=
  match month with
  | 2%nat =>
      if ((year mod 4 =? 0) && negb (year mod 100 =? 0) || (year mod 400 =? 0))%nat
      then 29%nat else 28%nat
  | 4%nat | 6%nat | 9%nat | 11%nat => 30%nat
  | _ => 31%nat
  end.

(** The timestamps [YYYY-MM-DDTHH.MM.SSZ] written with all their digits
    and naming a date and a time that exist. [datetime.strptime] accepts
    every one of them for the format [%Y-%m-%dT%H.%M.%SZ]; it is the
    [strptime_run] of the fake service. *)
Definition canonical_run_format (run : string) : bool :=
  match list_ascii_of_string run with
  | [y1; y2; y3; y4; "-"; m1; m2; "-"; d1; d2; "T"; h1; h2; "."; n1; n2; "."; s1; s2; "Z"]%char =>
      match number_of [y1; y2; y3; y4], number_of [m1; m2], number_of [d1; d2],
            number_of [h1; h2], number_of [n1; n2], number_of [s1; s2] with
      | Some year, Some month, Some day, Some hour, Some minute, Some second =>
          ((1 <=? year) && (1 <=? month) && (month <=? 12)
           && (1 <=? day) && (day <=? days_in_month year month)
           && (hour <=? 23) && (minute <=? 59) && (second <=? 59))%nat
      | _, _, _, _, _, _ => false
      end
  | _ => false
  end.

Fixpoint assoc {V} (l : list (string * V)) (k : string) : option V :=
  match l with
  | [] => None
  | (k', v) :: l' => if decide (k' = k) then Some v else assoc l' k
  end.

(** The raster of the fake decoder: one grid cell, with the columns
    [cfgrib] gives and the measurement under the label [unknown]. *)
Definition fake_raster (coverage_id : string) (height pressure : option Z) (seconds : Z)
  : DataFrame Scalar :=
  let level :=
    match height, pressure with
    | Some h, _ => [("heightAboveGround", Num h 0)]
    | None, Some p => [("isobaricInhPa", Num p 0)]
    | None, None => []
    end in
  let row := ([("latitude", Num 450 1); ("longitude", Num 20 1);
               ("time", Text (match run_of_id coverage_id with
                              | Ok run => run
                              | Raise _ => coverage_id
                              end));
               ("step", Num (seconds / 3600) 0)]
              ++ level ++ [("valid_time", Text ""); ("unknown", Num 123 1)])%list in
  {| columns := map fst row; rows := [(0, row)] |}.

(** A model whose service knows the coverage ids [ids], describes the
    coverages listed in [axes] and decodes [fake_raster]s. *)
Definition fake_forecast (indicators instant_indicators ids : list string)
    (axes : list (string * AxisDescription)) : Forecast Scalar :=
  {| INDICATORS := indicators;
     INSTANT_INDICATORS := instant_indicators;
     strptime_run := canonical_run_format;
     _fetch_capabilities := Ok ids;
     get_coverage_description := fun coverage_id =>
       match assoc axes coverage_id with
       | Some axis => Ok axis
       | None => Raise (ServiceError 404)
       end;
     fetch_grib := fun coverage_id height pressure seconds _ _ =>
       Ok (fake_raster coverage_id height pressure seconds);
     set_pop := fun several => default "" (head several) |}.

Definition france : (Scalar * Scalar) * (Scalar * Scalar) :=
  ((Num 4133356 5, Num 510889 4), (Num (-51413) 4, Num 95602 4)).

Definition wind : string := "WIND_SPEED__SPECIFIC_HEIGHT_LEVEL_ABOVE_GROUND".
Definition day1 : string := "2024-01-01T00.00.00Z".
Definition day2 : string := "2024-01-02T00.00.00Z".
Definition temperature_day1 : string := "TEMPERATURE___2024-01-01T00.00.00Z_P1D".
Definition temperature_day2 : string := "TEMPERATURE___2024-01-02T00.00.00Z_P1D".
Definition wind_day1 : string :=
  "WIND_SPEED__SPECIFIC_HEIGHT_LEVEL_ABOVE_GROUND___2024-01-01T00.00.00Z".
Definition wind_day2 : string :=
  "WIND_SPEED__SPECIFIC_HEIGHT_LEVEL_ABOVE_GROUND___2024-01-02T00.00.00Z".

Definition temperature_axis : AxisDescription :=
  {| axis_forecast_horizons := [0; 1; 2; 3]; axis_heights := [2; 10]; axis_pressures := [] |}.
Definition wind_axis : AxisDescription :=
  {| axis_forecast_horizons := [1; 2; 4]; axis_heights := [10]; axis_pressures := [] |}.

(** A service with two indicators, the second one instant, and two runs;
    the catalog lists the older run first. *)
Definition demo : Forecast Scalar :=
  fake_forecast ["TEMPERATURE"; wind] [wind]
    [temperature_day1; temperature_day2; wind_day1; wind_day2]
    [(temperature_day1, temperature_axis); (temperature_day2, temperature_axis);
     (wind_day1, wind_axis); (wind_day2, wind_axis)].

(** Two tables over the same two grid cells, with one measurement each. *)
Definition grid_row (latitude : Z) (measure : string) (value : Z) : Z * Row Scalar :=
  (0, [("latitude", Num latitude 1); ("longitude", Num 20 1); ("run", Text day1);
       ("forecast_horizon", Num 1 0); (measure, Num value 1)]).

Definition grid_frame (measure : string) (rows : list (Z * Row Scalar)) : DataFrame Scalar :=
  {| columns := ["latitude"; "longitude"; "run"; "forecast_horizon"; measure];
     rows := rows |}.

Definition temperature_table : DataFrame Scalar :=
  grid_frame "t_2m" [grid_row 450 "t_2m" 123; grid_row 451 "t_2m" 124].
Definition wind_table : DataFrame Scalar :=
  grid_frame "ws_10m" [grid_row 451 "ws_10m" 31; grid_row 450 "ws_10m" 30].
Definition doubled_table : DataFrame Scalar :=
  grid_frame "ws_10m" [grid_row 450 "ws_10m" 31; grid_row 450 "ws_10m" 30].


(** ** Further definitions *)

(** A coverage id [_build_capabilities] can decode: it holds ["___"], and
    what stands between the first ["___"] and the next one holds a [Z]. *)
Definition well_formed_id (coverage_id : string) : bool :=
  match PyStr.break_on "___" coverage_id with
  | Some (_, after) =>
      let segment :=
        match PyStr.break_on "___" after with
        | Some (segment, _) => segment
        | None => after
        end in
      match PyStr.break_on "Z" segment with
      | Some _ => true
      | None => false
      end
  | None => false
  end.

(** The same service as [demo], with a catalog that cannot be fetched. *)
Definition demo_offline : Forecast Scalar :=
  {| INDICATORS := INDICATORS demo;
     INSTANT_INDICATORS := INSTANT_INDICATORS demo;
     strptime_run := strptime_run demo;
     _fetch_capabilities := Raise (ServiceError 503);
     get_coverage_description := get_coverage_description demo;
     fetch_grib := fetch_grib demo;
     set_pop := set_pop demo |}.

(** Two tables that share no column but key columns. *)
Definition disjoint_measures {Cell : Type} (t t' : DataFrame Cell) : Prop :=
  forall c, c ∈ columns t -> c ∈ columns t' -> c ∈ join_keys.

(** What the loop over the indicator names appends for one run. *)
Definition resolved {Cell : Type} (self : Forecast Cell) (heights pressures : list Z)
    (intervals : list string) (run : string) (entry : nat * string) (t : Target) : Prop :=
  _get_coverage_id self entry.2 (Some run) (intervals !! entry.1) = Ok t.1.1
  /\ t.1.2 = heights !! entry.1
  /\ t.2 = pressures !! entry.1.

(** What a combined coverage for the forecast horizons [horizons] is
    made of: the runs are distinct; every indicator is resolved for every
    run, with the interval, the height and the pressure at its position;
    the horizons are available for every coverage; every table is fetched
    for these horizons; the tables of a run are reduced by the join; the
    rows of the joined tables follow one another, indexed 0, 1, 2, ... *)
Definition made_of {Cell : Type} `{EqDecision Cell} `{PyInt Cell} (self : Forecast Cell)
    (indicator_names runs : list string) (heights pressures : option (list Z))
    (intervals : option (list string)) (lat long : Cell * Cell) (horizons : list Z)
    (df : DataFrame Cell) : Prop :=
  NoDup runs
  /\ exists (targets : list (list Target)) (tables : list (list (DataFrame Cell)))
            (merged : list (DataFrame Cell)),
       Forall2 (fun run run_targets =>
                  Forall2 (resolved self (default [] heights) (default [] pressures)
                                    (default [] intervals) run)
                          (enumerate indicator_names) run_targets)
               runs targets
       /\ Forall (Forall (fun t : Target =>
                            Forall (fun h => h ∈ available_horizons self t.1.1) horizons))
                 targets
       /\ Forall2 (fun run_targets run_tables =>
                     Forall2 (fun t table =>
                                fetch_target self lat long (Some horizons) t = Ok table)
                             run_targets run_tables)
                  targets tables
       /\ Forall2 (fun run_tables m => reduce merge_on_keys run_tables = Ok m) tables merged
       /\ columns df = union_columns merged
       /\ rows df = range_index (flat_map (fun m => map snd (rows m)) merged).

(** The table after the first two steps: [surface] and [valid_time]
    dropped, [time] and [step] renamed. *)
Definition prepared {Cell : Type} (raw : DataFrame Cell) : DataFrame Cell :=
  rename_columns [("time", "run"); ("step", "forecast_horizon")]
                 (drop_columns ["surface"; "valid_time"] raw).

(** The labels those two steps leave alone. *)
Definition untouched (c : string) : Prop :=
  c <> "time" /\ c <> "step" /\ c <> "run" /\ c <> "forecast_horizon"
  /\ (c ∉ ["surface"; "valid_time"]).

(** ** The description of a coverage ([get_coverage_description]) *)

Module Description.

(** One [gmlrgrid:GeneralGridAxis] of the parsed description. *)
Record GridAxis := {
  gridAxesSpanned : string;
  coefficients : string
}.

Section Parse.

(** [int] on a [str]; [int(time / 3600)] on an [int]; and the grid axes
    of the description the service gives for a coverage id
    ([_get_coverage_description] and the path to
    [gmlrgrid:generalGridAxis]). *)
Variable int : string -> result Z.
Variable hours : Z -> Z.
Variable grid_axis_of : string -> result (list GridAxis).

Definition _get_available_feature (grid_axis : list GridAxis) (feature_name : string)
  : result (list Z) :=
  let feature_grid_axis :=
    filter (fun ax => gridAxesSpanned ax = feature_name) grid_axis in
  match feature_grid_axis with
  | [] => Ok []
  | ax :: _ => mapM int (PyStr.split " " (coefficients ax))
  end.

Definition get_coverage_description (coverage_id : string) : result AxisDescription :=
  grid_axis ← grid_axis_of coverage_id;
  times ← _get_available_feature grid_axis "time";
  heights ← _get_available_feature grid_axis "height";
  pressures ← _get_available_feature grid_axis "pressure";
  Ok {| axis_forecast_horizons := map hours times;
        axis_heights := heights;
        axis_pressures := pressures |}.

End Parse.

(** [int(time / 3600)] is the quotient truncated toward zero as long as
    the float division stays on the same side of every whole number; it
    does below 2^50 seconds. *)
Definition truncates (hours : Z -> Z) : Prop :=
  forall time, Z.abs time < 2 ^ 50 -> hours time = Z.quot time 3600.

End Description.

(** ** The client ([clients.py]) *)

Module Client.

(** [HttpStatus] *)
Definition OK : Z := 200.
Definition BAD_REQUEST : Z := 400.
Definition UNAUTHORIZED : Z := 401.
Definition FORBIDDEN : Z := 403.
Definition NOT_FOUND : Z := 404.
Definition TOO_MANY_REQUESTS : Z := 429.
Definition INTERNAL_ERROR : Z := 500.
Definition BAD_GATEWAY : Z := 502.
Definition UNAVAILABLE : Z := 503.
Definition GATEWAY_TIMEOUT : Z := 504.

(** The class constants of [MeteoFranceClient]. *)
Definition API_BASE_URL : string := "https://public-api.meteofrance.fr/public/".
Definition TOKEN_URL : string := "https://portail-api.meteofrance.fr/token".
Definition INVALID_JWT_ERROR_CODE : string := "900901".
Definition RETRY_DELAY_SEC : Z := 5.

(** The exceptions of the client. *)
Inductive Error :=
| GenericMeteofranceApiError (message : string)
| MissingDataError (message : string)
| ValueError (message : string)
| KeyError (key : string)
| JSONDecodeError.

(** What the client reads of a [requests.Response]: the status, the
    body, the [Content-Type] header if there is one, and the body as
    JSON, an object with string members, if it is JSON. *)
Record Response := {
  status_code : Z;
  text : string;
  content_type : option string;
  json : option (list (string * string))
}.

(** The state of a [MeteoFranceClient]; [session_headers] are the headers
    the client puts on its session. *)
Record State := {
  _token : option string;
  _api_key : option string;
  _application_id : option string;
  _token_expired : bool;
  session_headers : list (string * string)
}.

(** What the client does to the outside: a GET with the headers of the
    session, a sleep, a POST to the token service. *)
Inductive Event :=
| Get (url : string) (headers : list (string * string))
| Sleep (seconds : Z)
| Post (url : string) (authorization : string).

(** The client and its surroundings: the responses the token service will
    give, and what the client did so far. *)
Record World := {
  client : State;
  token_responses : list Response;
  events : list Event
}.

(** A call returns, raises, or waits for a response that is not there. *)
Inductive Outcome (A : Type) :=
| Returned (a : A)
| Raised (e : Error)
| Pending.
Arguments Returned {A} a.
Arguments Raised {A} e.
Arguments Pending {A}.

Definition M (A : Type) : Type := World -> Outcome A * World.

Definition ret {A} (a : A) : M A := fun w => (Returned a, w).
Definition raise {A} (e : Error) : M A := fun w => (Raised e, w).
Definition bind {A B} (m : M A) (k : A -> M B) : M B :=
  fun w => match m w with
           | (Returned a, w') => k a w'
           | (Raised e, w') => (Raised e, w')
           | (Pending, w') => (Pending, w')
           end.

Notation "x <- m ; k" := (bind m (fun x => k))
  (at level 20, m at level 100, k at level 200, only parsing).

Definition read : M State := fun w => (Returned (client w), w).
Definition write (c : State) : M unit :=
  fun w => (Returned tt, {| client := c; token_responses := token_responses w;
                            events := events w |}).
Definition record (e : Event) : M unit :=
  fun w => (Returned tt, {| client := client w; token_responses := token_responses w;
                            events := (events w ++ [e])%list |}).
(** [requests.post(TOKEN_URL, ...)] *)
Definition post_token : M Response :=
  fun w => match token_responses w with
           | [] => (Pending, w)
           | resp :: rest =>
               (Returned resp, {| client := client w; token_responses := rest;
                                  events := events w |})
           end.

Fixpoint lookup (d : list (string * string)) (k : string) : option string :=
  match d with
  | [] => None
  | (k', v) :: d' => if decide (k' = k) then Some v else lookup d' k
  end.

(** [d.update({k: v})] *)
Fixpoint update (d : list (string * string)) (k v : string) : list (string * string) :=
  match d with
  | [] => [(k, v)]
  | (k', v') :: d' => if decide (k' = k) then (k, v) :: d' else (k', v') :: update d' k v
  end.

(** [sub in s] *)
Definition contains (sub s : string) : bool :=
  match PyStr.break_on sub s with Some _ => true | None => false end.

(** [str(x)] for [x : str | None] *)
Definition str (x : option string) : string := default "None" x.

(** [response.json()[key]] *)
Definition json_member (resp : Response) (key : string) : M string :=
  match json resp with
  | None => raise JSONDecodeError
  | Some members =>
      match lookup members key with
      | Some v => ret v
      | None => raise (KeyError key)
      end
  end.

Definition set_token (token : option string) (c : State) : State :=
  {| _token := token; _api_key := _api_key c; _application_id := _application_id c;
     _token_expired := _token_expired c; session_headers := session_headers c |}.

Definition set_token_expired (c : State) : State :=
  {| _token := _token c; _api_key := _api_key c; _application_id := _application_id c;
     _token_expired := true; session_headers := session_headers c |}.

Definition update_headers (k v : string) (c : State) : State :=
  {| _token := _token c; _api_key := _api_key c; _application_id := _application_id c;
     _token_expired := _token_expired c;
     session_headers := update (session_headers c) k v |}.

Definition _get_token : M string :=
  self <- read ;
  match _token_expired self, _token self with
  | false, Some token => ret token
  | _, _ =>
      if _token_expired self && bool_decide (_application_id self = None)
      then raise (ValueError "The 'application_id' is unknown, can't get a new token")
      else
        _ <- record (Post TOKEN_URL ("Basic " +:+ str (_application_id self))) ;
        resp <- post_token ;
        json_member resp "access_token"
  end.

Definition _connect : M unit :=
  self <- read ;
  _ <- (if bool_decide (_api_key self = None) && bool_decide (_token self = None)
        then
          if bool_decide (_application_id self = None)
          then raise (ValueError "api_key or token or application_id must be provided")
          else
            token <- _get_token ;
            self <- read ;
            write (set_token (Some token) self)
        else ret tt) ;
  self <- read ;
  match _api_key self with
  | Some api_key => write (update_headers "apikey" api_key self)
  | None => write (update_headers "Authorization" ("Bearer " +:+ str (_token self)) self)
  end.

Definition _is_token_expired (response : Response) : M bool :=
  if decide (status_code response = UNAUTHORIZED) then
    match content_type response with
    | None => raise (KeyError "content-type")
    | Some value =>
        if contains "application/json" value then
          error <- json_member response "code" ;
          if decide (error = INVALID_JWT_ERROR_CODE) then
            self <- read ;
            _ <- write (set_token_expired self) ;
            ret true
          else ret false
        else ret false
    end
  else ret false.

(** [__init__]: the fields, the session, and [_connect]. *)
Definition init (token api_key application_id : option string) : M unit :=
  _ <- write {| _token := token; _api_key := api_key; _application_id := application_id;
                _token_expired := false; session_headers := [] |} ;
  _connect.

Definition retries_message (attempt : Z) : string :=
  "Failed to get a successful response from API after " +:+ PyStr.of_int attempt
  +:+ " retries".

(** The loop of [get] (lines 110 to 150), over the responses the service
    gives to the successive requests. *)
Fixpoint get_loop (url : string) (max_retries attempt : Z) (responses : list Response)
  : M Response :=
  if decide (attempt < max_retries) then
    match responses with
    | [] => fun w => (Pending, w)
    | resp :: responses =>
        self <- read ;
        _ <- record (Get url (session_headers self)) ;
        if decide (status_code resp = OK) then ret resp
        else
          expired <- _is_token_expired resp ;
          if expired : bool then
            token <- _get_token ;
            self <- read ;
            _ <- write (set_token (Some token) self) ;
            _ <- _connect ;
            get_loop url max_retries attempt responses
          else if decide (status_code resp = FORBIDDEN)
          then raise (GenericMeteofranceApiError (text resp))
          else if decide (status_code resp = BAD_REQUEST)
          then raise (GenericMeteofranceApiError (text resp))
          else if decide (status_code resp = NOT_FOUND)
          then raise (MissingDataError (text resp))
          else if decide (status_code resp = BAD_GATEWAY \/ status_code resp = UNAVAILABLE
                          \/ status_code resp = GATEWAY_TIMEOUT)
          then
            _ <- record (Sleep RETRY_DELAY_SEC) ;
            get_loop url max_retries (attempt + 1) responses
          else get_loop url max_retries attempt responses
    end
  else raise (GenericMeteofranceApiError (retries_message attempt)).

Definition get (path : string) (max_retries : Z) (responses : list Response) : M Response :=
  get_loop (API_BASE_URL +:+ path) max_retries 0 responses.

(** The responses [get] sleeps on: the three statuses of the last branch
    of the loop. *)
Definition gateway_error (resp : Response) : Prop :=
  status_code resp = BAD_GATEWAY \/ status_code resp = UNAVAILABLE
  \/ status_code resp = GATEWAY_TIMEOUT.

(** The responses no branch of the loop is for. *)
Definition unhandled (resp : Response) : Prop :=
  status_code resp ∉ [OK; UNAUTHORIZED; FORBIDDEN; BAD_REQUEST; NOT_FOUND;
                      BAD_GATEWAY; UNAVAILABLE; GATEWAY_TIMEOUT].

Definition passed_over (resp : Response) : Prop := unhandled resp \/ gateway_error resp.

Definition gateway_errors (responses : list Response) : Z :=
  Z.of_nat (length (filter gateway_error responses)).

(** The response of an expired token, as [_is_token_expired] sees it. *)
Definition expired (resp : Response) : Prop :=
  status_code resp = UNAUTHORIZED
  /\ (exists value, content_type resp = Some value
                    /\ contains "application/json" value = true)
  /\ (exists members, json resp = Some members
                      /\ lookup members "code" = Some INVALID_JWT_ERROR_CODE).

(** The requests and the sleeps of the loop on responses it passes over. *)
Definition trace (url : string) (headers : list (string * string))
    (responses : list Response) : list Event :=
  flat_map (fun resp => if decide (gateway_error resp)
                        then [Get url headers; Sleep RETRY_DELAY_SEC]
                        else [Get url headers])
           responses.

Definition add_events (es : list Event) (w : World) : World :=
  {| client := client w; token_responses := token_responses w;
     events := (events w ++ es)%list |}.

(** The seconds slept. *)
Definition slept (es : list Event) : Z :=
  foldr (fun e total => match e with Sleep seconds => seconds + total | _ => total end) 0 es.

End Client.

(** ** More of the fake service *)

(** [int] on the strings of decimal digits. *)
Definition plain_int (s : string) : result Z :=
  match s, number_of (list_ascii_of_string s) with
  | String _ _, Some n => Ok (Z.of_nat n)
  | _, _ => Raise (ValueError IntConversion)
  end.

(** The grid axes of a description: the times twice, and the heights. *)
Definition demo_grid : list Description.GridAxis :=
  [ {| Description.gridAxesSpanned := "time"; Description.coefficients := "0 3600 7200" |};
    {| Description.gridAxesSpanned := "height"; Description.coefficients := "2 10" |};
    {| Description.gridAxesSpanned := "time"; Description.coefficients := "900" |} ].

(** A catalog without any coverage of the second indicator. *)
Definition demo_partial : Forecast Scalar :=
  fake_forecast ["TEMPERATURE"; wind] [wind] [temperature_day1; temperature_day2]
    [(temperature_day1, temperature_axis); (temperature_day2, temperature_axis)].

(** A decoder that gives a table with no row and no measurement. *)
Definition bare_table : DataFrame Scalar :=
  {| columns := ["latitude"; "longitude"; "time"; "step"; "heightAboveGround"];
     rows := [] |}.

Definition demo_bare : Forecast Scalar :=
  {| INDICATORS := INDICATORS demo;
     INSTANT_INDICATORS := INSTANT_INDICATORS demo;
     strptime_run := strptime_run demo;
     _fetch_capabilities := _fetch_capabilities demo;
     get_coverage_description := get_coverage_description demo;
     fetch_grib := fun _ _ _ _ _ _ => Ok bare_table;
     set_pop := set_pop demo |}.

(** A service that answers with a status and a body, the answer to an
    expired token, the answer of the token service, and two clients: one
    with an API key, one with an application id and a stale token. *)
Definition answer (status : Z) (body : string) : Client.Response :=
  {| Client.status_code := status; Client.text := body;
     Client.content_type := None; Client.json := None |}.

Definition expired_answer : Client.Response :=
  {| Client.status_code := 401; Client.text := "";
     Client.content_type := Some "application/json; charset=UTF-8";
     Client.json := Some [("code", "900901"); ("message", "Invalid JWT token")] |}.

Definition token_answer : Client.Response :=
  {| Client.status_code := 200; Client.text := "";
     Client.content_type := Some "application/json";
     Client.json := Some [("access_token", "fresh")] |}.

Definition key_client : Client.World :=
  {| Client.client :=
       {| Client._token := None; Client._api_key := Some "key";
          Client._application_id := None; Client._token_expired := false;
          Client.session_headers := [("apikey", "key")] |};
     Client.token_responses := [];
     Client.events := [] |}.

Definition id_client : Client.World :=
  {| Client.client :=
       {| Client._token := Some "stale"; Client._api_key := None;
          Client._application_id := Some "app"; Client._token_expired := false;
          Client.session_headers := [("Authorization", "Bearer stale")] |};
     Client.token_responses := [token_answer];
     Client.events := [] |}.

(** A service whose second run lacks, for the second indicator, the
    first common forecast horizon of the first run. *)
Definition demo_shifted : Forecast Scalar :=
  fake_forecast ["TEMPERATURE"; wind] [wind]
    [temperature_day1; temperature_day2; wind_day1; wind_day2]
    [(temperature_day1, temperature_axis); (temperature_day2, temperature_axis);
     (wind_day1, wind_axis);
     (wind_day2,
      {| axis_forecast_horizons := [2; 4]; axis_heights := [10]; axis_pressures := [] |})].

(** A service whose two indicators share no forecast horizon. *)
Definition demo_disjoint : Forecast Scalar :=
  fake_forecast ["TEMPERATURE"; wind] [wind] [temperature_day1; wind_day1]
    [(temperature_day1,
      {| axis_forecast_horizons := [0; 1]; axis_heights := [2]; axis_pressures := [] |});
     (wind_day1,
      {| axis_forecast_horizons := [2; 4]; axis_heights := [10]; axis_pressures := [] |})].

(** * Facts *)

(** ** Results *)

Lemma bind_Ok {A B} (m : result A) (f : A -> result B) (b : B) :
  m ≫= f = Ok b -> exists a, m = Ok a /\ f a = Ok b.
Proof. destruct m as [a|e]; simpl; [eauto | discriminate]. Qed.

Lemma Ok_bind {A B} (a : A) (f : A -> result B) : Ok a ≫= f = f a.
Proof. reflexivity. Qed.

Lemma fmap_Ok {A B} (m : result A) (f : A -> B) (b : B) :
  f <$> m = Ok b -> exists a, m = Ok a /\ b = f a.
Proof. destruct m as [a|e]; simpl; [intros [= <-]; eauto | discriminate]. Qed.

Lemma mapM_Ok_Forall2 {A B} (f : A -> result B) (l : list A) (k : list B) :
  mapM f l = Ok k -> Forall2 (fun x y => f x = Ok y) l k.
Proof.
  revert k. induction l as [|x l IH]; simpl; intros k Hk.
  - injection Hk as <-. constructor.
  - apply bind_Ok in Hk as (y & Hy & Hk).
    apply bind_Ok in Hk as (k' & Hk' & Hk).
    injection Hk as <-. constructor; auto.
Qed.

Lemma item_Ok {A} (l : list A) (i : nat) (x : A) : item l i = Ok x <-> l !! i = Some x.
Proof. unfold item. destruct (l !! i); split; congruence. Qed.

(** ** Strings *)

Module PyStrFacts.
Import PyStr.

(** stdpp keeps [append] folded under [simpl]; its two equations. *)
Lemma app_nil_l (b : string) : "" +:+ b = b.
Proof. reflexivity. Qed.

Lemma app_cons (c : ascii) (a b : string) : String c a +:+ b = String c (a +:+ b).
Proof. reflexivity. Qed.

Ltac app_simpl := rewrite ?app_cons, ?app_nil_l in *.

Lemma app_assoc (a b c : string) : (a +:+ b) +:+ c = a +:+ (b +:+ c).
Proof. induction a as [|x a IH]; app_simpl; [reflexivity | now rewrite IH]. Qed.

Lemma app_empty_r (a : string) : a +:+ "" = a.
Proof. induction a as [|x a IH]; app_simpl; [reflexivity | now rewrite IH]. Qed.

Lemma length_app (a b : string) :
  String.length (a +:+ b) = (String.length a + String.length b)%nat.
Proof. induction a as [|x a IH]; app_simpl; simpl; [reflexivity | now rewrite IH]. Qed.

Lemma prefix_app (t u x : string) :
  String.prefix t u = true -> String.prefix t (u +:+ x) = true.
Proof.
  revert u. induction t as [|c t IH]; intros [|d u]; app_simpl; simpl; try easy.
  - now destruct x.
  - destruct (ascii_dec c d); [apply IH | easy].
Qed.

(** A test for a prefix no longer than [u] does not look beyond [u]. *)
Lemma prefix_short (t u x : string) :
  (String.length t <= String.length u)%nat ->
  String.prefix t (u +:+ x) = String.prefix t u.
Proof.
  revert u. induction t as [|c t IH]; intros [|d u]; app_simpl; simpl; intros Hlen.
  - now destruct x.
  - reflexivity.
  - lia.
  - destruct (ascii_dec c d); [apply IH; lia | reflexivity].
Qed.

Lemma prefix_refl_app (t x : string) : String.prefix t (t +:+ x) = true.
Proof.
  induction t as [|c t IH]; app_simpl; simpl; [now destruct x|].
  destruct (ascii_dec c c); [exact IH | congruence].
Qed.

Lemma drop_app (t x : string) : drop (String.length t) (t +:+ x) = x.
Proof. induction t as [|c t IH]; app_simpl; simpl; [reflexivity | exact IH]. Qed.

Lemma prefix_drop (t s : string) :
  String.prefix t s = true -> s = t +:+ drop (String.length t) s.
Proof.
  revert s. induction t as [|c t IH]; intros [|d s]; app_simpl; simpl; try easy.
  destruct (ascii_dec c d) as [->|]; [|easy].
  intros Hp. now rewrite <- IH.
Qed.

Lemma prefix_empty (sep : string) : String.prefix sep "" = true -> sep = "".
Proof. destruct sep; [reflexivity | discriminate]. Qed.

Lemma break_on_eq (sep s : string) :
  break_on sep s =
    if String.prefix sep s then Some ("", drop (String.length sep) s)
    else match s with
         | "" => None
         | String c s' =>
             match break_on sep s' with
             | Some (a, b) => Some (String c a, b)
             | None => None
             end
         end.
Proof. destruct s; reflexivity. Qed.

(** [break_on] cuts [s] at an occurrence of [sep]. *)
Lemma break_on_Some (sep s a b : string) :
  break_on sep s = Some (a, b) -> s = a +:+ sep +:+ b.
Proof.
  revert a. induction s as [|c s IH]; intros a; rewrite break_on_eq.
  - destruct (String.prefix sep "") eqn:Hp; [|discriminate].
    intros [= <- <-]. now apply prefix_empty in Hp as ->.
  - destruct (String.prefix sep (String c s)) eqn:Hp.
    + intros [= <- <-]. app_simpl. now apply prefix_drop.
    + destruct (break_on sep s) as [[a' b']|]; [|discriminate].
      intros [= <- <-]. app_simpl. now rewrite <- (IH a').
Qed.

(** ... and that occurrence is the leftmost: whatever follows the
    separator, the cut falls at the same place. *)
Lemma break_on_first (sep s a b x : string) :
  break_on sep s = Some (a, b) -> break_on sep (a +:+ sep +:+ x) = Some (a, x).
Proof.
  revert a. induction s as [|c s IH]; intros a Hb.
  - rewrite break_on_eq in Hb. destruct (String.prefix sep "") eqn:Hp; [|discriminate].
    injection Hb as <- <-. apply prefix_empty in Hp as ->. app_simpl.
    now destruct x.
  - pose proof (break_on_Some _ _ _ _ Hb) as Hs.
    rewrite break_on_eq in Hb. destruct (String.prefix sep (String c s)) eqn:Hp.
    + injection Hb as <- <-. app_simpl.
      rewrite break_on_eq, prefix_refl_app. now rewrite drop_app.
    + destruct (break_on sep s) as [[a' b']|] eqn:Hbs; [|discriminate].
      injection Hb as <- <-.
      assert (Hnp : String.prefix sep (String c (a' +:+ sep +:+ x)) = false).
      { rewrite Hs in Hp. rewrite app_cons in Hp.
        rewrite <- (app_assoc a' sep b'), <- app_cons in Hp.
        rewrite <- (app_assoc a' sep x), <- app_cons.
        rewrite prefix_short in Hp |- *; try exact Hp;
          simpl; rewrite length_app; lia. }
      rewrite app_cons, break_on_eq, Hnp.
      now rewrite (IH a' eq_refl).
Qed.

Lemma break_on_None_app (sep x y : string) :
  break_on sep (x +:+ y) = None -> break_on sep x = None /\ break_on sep y = None.
Proof.
  induction x as [|c x IH]; app_simpl.
  - intros Hy. split; [|exact Hy]. rewrite break_on_eq.
    destruct (String.prefix sep "") eqn:Hp; [|reflexivity].
    apply prefix_empty in Hp as ->. now destruct y.
  - rewrite break_on_eq.
    destruct (String.prefix sep (String c (x +:+ y))) eqn:Hp; [discriminate|].
    destruct (break_on sep (x +:+ y)) as [[a b]|] eqn:Hb; [discriminate|].
    intros _. destruct (IH eq_refl) as [Hx Hy]. split; [|exact Hy].
    rewrite break_on_eq.
    destruct (String.prefix sep (String c x)) eqn:Hpx.
    + apply (prefix_app _ _ y) in Hpx. rewrite app_cons in Hpx. congruence.
    + now rewrite Hx.
Qed.

(** What is before the leftmost occurrence holds no occurrence. *)
Lemma break_on_fst_None (sep s a b : string) :
  sep <> "" -> break_on sep s = Some (a, b) -> break_on sep a = None.
Proof.
  intros Hsep. revert a. induction s as [|c s IH]; intros a; rewrite break_on_eq.
  - destruct sep; [congruence | discriminate].
  - destruct (String.prefix sep (String c s)) eqn:Hp.
    + intros [= <- <-]. destruct sep; [congruence | reflexivity].
    + destruct (break_on sep s) as [[a' b']|] eqn:Hb; [|discriminate].
      intros [= <- <-]. rewrite break_on_eq.
      destruct (String.prefix sep (String c a')) eqn:Hpa.
      * pose proof (break_on_Some _ _ _ _ Hb) as ->.
        apply (prefix_app _ _ (sep +:+ b')) in Hpa. rewrite app_cons in Hpa.
        congruence.
      * now rewrite (IH a' eq_refl).
Qed.

Lemma break_on_shorter (sep s a b : string) :
  sep <> "" -> break_on sep s = Some (a, b) ->
  (String.length b < String.length s)%nat.
Proof.
  intros Hsep Hb. apply break_on_Some in Hb as ->.
  rewrite !length_app. destruct sep; [congruence | simpl; lia].
Qed.

Lemma split_fuel_enough (sep s : string) (n m : nat) :
  sep <> "" -> (String.length s <= n)%nat -> (String.length s <= m)%nat ->
  split_fuel n sep s = split_fuel m sep s.
Proof.
  intros Hsep. revert s m. induction n as [|n IH]; intros s m Hn Hm.
  - destruct s; [|simpl in Hn; lia].
    destruct m; simpl; [reflexivity|].
    destruct sep; [congruence | reflexivity].
  - destruct m as [|m].
    + destruct s; [|simpl in Hm; lia]. simpl.
      destruct sep; [congruence | reflexivity].
    + simpl. destruct (break_on sep s) as [[a b]|] eqn:Hb; [|reflexivity].
      pose proof (break_on_shorter _ _ _ _ Hsep Hb).
      f_equal. apply IH; lia.
Qed.

(** The equation of [split]: the fuel does not show. *)
Lemma split_unfold (sep s : string) :
  sep <> "" ->
  split sep s = match break_on sep s with
                | None => [s]
                | Some (a, b) => a :: split sep b
                end.
Proof.
  intros Hsep. unfold split. destruct s as [|c s].
  - simpl. destruct sep; [congruence | reflexivity].
  - cbn [String.length split_fuel].
    destruct (break_on sep (String c s)) as [[a b]|] eqn:Hb; [|reflexivity].
    pose proof (break_on_shorter _ _ _ _ Hsep Hb) as Hlt. simpl in Hlt.
    f_equal. apply split_fuel_enough; [assumption | lia | lia].
Qed.

(** The first piece of a split holds no separator and starts the string. *)
Lemma split_head (sep s : string) :
  sep <> "" ->
  exists p rest tail,
    split sep s = p :: rest /\ break_on sep p = None /\ s = p +:+ tail.
Proof.
  intros Hsep. rewrite split_unfold by assumption.
  destruct (break_on sep s) as [[a b]|] eqn:Hb.
  - exists a, (split sep b), (sep +:+ b). repeat split.
    + eapply break_on_fst_None; eassumption.
    + now apply break_on_Some.
  - exists s, [], "". repeat split; [assumption | now rewrite app_empty_r].
Qed.

(** A second piece exists when the separator occurs; it is the first
    piece of what follows the leftmost occurrence. *)
Lemma split_second (sep s y : string) :
  sep <> "" -> split sep s !! 1%nat = Some y ->
  exists a b, break_on sep s = Some (a, b) /\ split sep s !! 0%nat = Some a
              /\ split sep b !! 0%nat = Some y.
Proof.
  intros Hsep. rewrite split_unfold by assumption.
  destruct (break_on sep s) as [[a b]|] eqn:Hb; [|discriminate].
  intros Hy. exists a, b. repeat split. exact Hy.
Qed.

(** *** [strip] *)

Lemma lstrip_suffix (chars s : string) : exists pad, s = pad +:+ lstrip chars s.
Proof.
  induction s as [|a s [pad IH]]; simpl.
  - now exists "".
  - destruct (char_in a chars).
    + exists (String a pad). rewrite app_cons. now rewrite <- IH.
    + now exists "".
Qed.

Lemma rstrip_prefix (chars s : string) : exists pad, s = rstrip chars s +:+ pad.
Proof.
  induction s as [|a s [pad IH]]; simpl.
  - now exists "".
  - destruct (rstrip chars s) as [|b r] eqn:Hr.
    + destruct (char_in a chars).
      * exists (String a s). reflexivity.
      * exists pad. rewrite app_cons. now rewrite <- IH.
    + exists pad. rewrite app_cons. now rewrite <- IH.
Qed.

Lemma lstrip_head_free (chars s : string) : head_free chars (lstrip chars s).
Proof.
  induction s as [|a s IH]; simpl; [exact I|].
  destruct (char_in a chars) eqn:Ha; [exact IH | exact Ha].
Qed.

Lemma lstrip_id (chars s : string) : head_free chars s -> lstrip chars s = s.
Proof. destruct s as [|a s]; simpl; [reflexivity | now intros ->]. Qed.

Lemma rstrip_head_free (chars s : string) :
  head_free chars s -> head_free chars (rstrip chars s).
Proof.
  destruct s as [|a s]; simpl; [easy|]. intros Ha.
  destruct (rstrip chars s); [now rewrite Ha | exact Ha].
Qed.

Lemma rstrip_cons (chars : string) (a : ascii) (s : string) :
  rstrip chars (String a s) =
    match rstrip chars s with
    | "" => if char_in a chars then "" else String a ""
    | r => String a r
    end.
Proof. reflexivity. Qed.

Lemma rstrip_idem (chars s : string) : rstrip chars (rstrip chars s) = rstrip chars s.
Proof.
  induction s as [|a s IH]; [reflexivity|]. rewrite rstrip_cons.
  destruct (rstrip chars s) as [|b r] eqn:Hr.
  - destruct (char_in a chars) eqn:Ha; simpl; [reflexivity | now rewrite Ha].
  - rewrite rstrip_cons, IH. reflexivity.
Qed.

Lemma strip_head_free (chars s : string) : head_free chars (strip chars s).
Proof. apply rstrip_head_free, lstrip_head_free. Qed.

Lemma strip_idem (chars s : string) : strip chars (strip chars s) = strip chars s.
Proof.
  unfold strip at 1. rewrite (lstrip_id _ _ (strip_head_free chars s)).
  apply rstrip_idem.
Qed.

(** A stripped string is a slice of the string. *)
Lemma strip_slice (chars s : string) :
  exists before after, s = before +:+ strip chars s +:+ after.
Proof.
  destruct (lstrip_suffix chars s) as [before Hl].
  destruct (rstrip_prefix chars (lstrip chars s)) as [after Hr].
  exists before, after. unfold strip. now rewrite <- Hr.
Qed.

Lemma break_on_None_slice (sep before s after : string) :
  break_on sep (before +:+ s +:+ after) = None -> break_on sep s = None.
Proof.
  intros Hb. apply break_on_None_app in Hb as [_ Hb].
  now apply break_on_None_app in Hb as [Hb _].
Qed.

(** *** The two separators of a coverage id *)

Lemma prefix_cons (c d : ascii) (t u : string) :
  String.prefix (String c t) (String d u)
  = if ascii_dec c d then String.prefix t u else false.
Proof. reflexivity. Qed.

Lemma prefix_nil (u : string) : String.prefix "" u = true.
Proof. now destruct u. Qed.

Ltac prefix_cases :=
  repeat (rewrite ?prefix_cons, ?prefix_nil in *;
          match goal with
          | |- context [ascii_dec ?x ?y] => destruct (ascii_dec x y); subst
          | H : context [ascii_dec ?x ?y] |- _ => destruct (ascii_dec x y); subst
          end);
  try reflexivity; try discriminate.

(** A letter [Z] between two strings free of ["___"] brings no ["___"]. *)
Lemma no_triple_app_Z (a b : string) :
  break_on "___" a = None -> break_on "___" b = None ->
  break_on "___" (a +:+ "Z" +:+ b) = None.
Proof.
  intros Ha Hb. induction a as [|c a IH]; app_simpl.
  - rewrite break_on_eq, Hb. prefix_cases.
  - rewrite break_on_eq in Ha.
    destruct (String.prefix "___" (String c a)) eqn:Hp; [discriminate|].
    destruct (break_on "___" a) as [[? ?]|] eqn:Ha'; [discriminate|].
    rewrite break_on_eq, (IH eq_refl).
    assert (String.prefix "___" (String c (a +:+ String "Z" b)) = false) as ->;
      [|reflexivity].
    destruct a as [|d [|e a]]; app_simpl; prefix_cases.
Qed.

(** An underscore before a string that is free of ["___"] and does not
    start with an underscore brings no ["___"]. *)
Lemma no_triple_underscore (v : string) :
  head_free "_" v -> break_on "___" v = None -> break_on "___" ("_" +:+ v) = None.
Proof.
  intros Hh Hv. app_simpl. rewrite break_on_eq, Hv.
  assert (String.prefix "___" (String "_" v) = false) as ->; [|reflexivity].
  destruct v as [|a v]; [reflexivity|]. unfold head_free in Hh.
  prefix_cases.
Qed.

Lemma no_Z_underscore (v : string) :
  break_on "Z" v = None -> break_on "Z" ("_" +:+ v) = None.
Proof. intros Hv. app_simpl. rewrite break_on_eq, Hv. prefix_cases. Qed.

Lemma strip_underscore (v : string) : strip "_" ("_" +:+ v) = strip "_" v.
Proof. reflexivity. Qed.

End PyStrFacts.

(** ** The catalog *)

Section Catalog.
Import PyStr PyStrFacts.

Lemma elem_of_map {A B} (f : A -> B) (l : list A) (y : B) :
  y ∈ map f l <-> exists x, y = f x /\ x ∈ l.
Proof.
  induction l as [|a l IH]; simpl.
  - split; [intros Hy; inversion Hy | intros (x & _ & Hx); inversion Hx].
  - rewrite elem_of_cons, IH. split.
    + intros [->|(x & -> & Hx)]; [exists a | exists x]; split; auto; constructor; auto.
    + intros (x & -> & Hx). apply elem_of_cons in Hx as [->|Hx]; eauto.
Qed.

Lemma elem_of_unique (l : list string) (x : string) : x ∈ unique l <-> x ∈ l.
Proof.
  induction l as [|a l IH]; simpl; [reflexivity|].
  rewrite !elem_of_cons, list_elem_of_filter, IH.
  destruct (decide (x = a)); intuition.
Qed.

(** Every row of the catalog holds the three parts its own id splits
    into. *)
Lemma build_capabilities_rows (ids : list string) (catalog : list CatalogEntry) :
  _build_capabilities ids = Ok catalog ->
  Forall (fun e => split_coverage_id (cov_id e)
                   = Ok (cov_indicator e, cov_run e, cov_interval e)) catalog.
Proof.
  intros Hb.
  assert (Hd : derived_columns ids = Ok catalog)
    by (destruct ids as [|i [|j ids]]; [discriminate | discriminate | exact Hb]).
  clear Hb. rename Hd into Hb. unfold derived_columns in Hb.
  apply bind_Ok in Hb as (indicators & Hi & Hb).
  apply bind_Ok in Hb as (runs & Hr & Hb).
  apply bind_Ok in Hb as (intervals & Hv & Hb).
  injection Hb as <-.
  apply mapM_Ok_Forall2 in Hi, Hr, Hv.
  revert runs intervals Hr Hv.
  induction Hi as [|i n ids indicators Hn Hi IH]; intros runs intervals Hr Hv.
  - constructor.
  - inversion Hr as [|? r ? runs' Hr1 Hr2]; subst.
    inversion Hv as [|? v ? intervals' Hv1 Hv2]; subst.
    simpl. constructor; [|now apply IH].
    unfold split_coverage_id. simpl. now rewrite Hn, Hr1, Hv1.
Qed.

Lemma clean_P1D : clean_interval "P1D".
Proof. repeat split. Qed.

Lemma split_coverage_id_shape (coverage_id indicator run interval : string) :
  split_coverage_id coverage_id = Ok (indicator, run, interval) ->
  catalog_shape indicator run interval.
Proof.
  unfold split_coverage_id, indicator_of_id, run_of_id, interval_of_id.
  intros Hs.
  apply bind_Ok in Hs as (n & Hn & Hs). apply item_Ok in Hn.
  apply bind_Ok in Hs as (r & Hr & Hs).
  apply bind_Ok in Hs as (v & Hv & Hs). injection Hs as -> -> ->.
  apply bind_Ok in Hr as (seg & Hseg & Hr). apply item_Ok in Hseg.
  apply bind_Ok in Hr as (stem & Hstem & Hr). apply item_Ok in Hstem.
  injection Hr as <-.
  apply bind_Ok in Hv as (seg' & Hseg' & Hv). apply item_Ok in Hseg'.
  assert (seg' = seg) as -> by congruence.
  apply bind_Ok in Hv as (rest & Hrest & Hv). apply item_Ok in Hrest.
  injection Hv as <-.
  assert (H3 : "___" <> "") by discriminate.
  assert (H1 : "Z" <> "") by discriminate.
  (* the indicator and the segment after it *)
  destruct (split_second _ _ _ H3 Hseg) as (a & b & Hab & Ha & Hb).
  assert (a = indicator) as -> by congruence.
  destruct (split_head "___" b H3) as (p & ps & tl & Hp & Hpn & _).
  rewrite Hp in Hb. injection Hb as ->.
  (* the stem of the run and what follows the first Z *)
  destruct (split_second _ _ _ H1 Hrest) as (q & c & Hqc & Hq & Hc).
  assert (q = stem) as -> by congruence.
  destruct (split_head "Z" c H1) as (p' & ps' & tl' & Hp' & Hpn' & Hctl).
  rewrite Hp' in Hc. injection Hc as ->.
  pose proof (break_on_Some _ _ _ _ Hqc) as Hsegeq.
  rewrite Hsegeq in Hpn.
  apply break_on_None_app in Hpn as [Hstem3 Hpn].
  apply break_on_None_app in Hpn as [_ Hc3].
  rewrite Hctl in Hc3. apply break_on_None_app in Hc3 as [Hrest3 _].
  destruct (strip_slice "_" rest) as (before & after & Hslice).
  repeat split.
  - intros x. eapply break_on_first; eassumption.
  - exists stem. repeat split; [|assumption].
    intros x. eapply break_on_first; eassumption.
  - rewrite Hslice in Hpn'. now apply break_on_None_slice in Hpn'.
  - rewrite Hslice in Hrest3. now apply break_on_None_slice in Hrest3.
  - apply strip_head_free.
  - apply strip_idem.
Qed.

(** A coverage id put together from parts of the catalog's shape splits
    back into these parts. *)
Lemma split_formatted (indicator stem suffix : string) :
  cut_before "___" indicator -> cut_before "Z" stem -> break_on "___" stem = None ->
  break_on "___" suffix = None -> break_on "Z" suffix = None ->
  split_coverage_id (indicator +:+ "___" +:+ stem +:+ "Z" +:+ suffix)
  = Ok (indicator, stem +:+ "Z", strip "_" suffix).
Proof.
  intros Hi Hs Hs3 Hx3 HxZ.
  assert (H3 : "___" <> "") by discriminate.
  assert (H1 : "Z" <> "") by discriminate.
  assert (Hsplit3 : split "___" (indicator +:+ "___" +:+ stem +:+ "Z" +:+ suffix)
                    = [indicator; stem +:+ "Z" +:+ suffix]).
  { rewrite (split_unfold _ _ H3), Hi, (split_unfold _ _ H3).
    now rewrite no_triple_app_Z. }
  assert (HsplitZ : split "Z" (stem +:+ "Z" +:+ suffix) = [stem; suffix]).
  { rewrite (split_unfold _ _ H1), Hs, (split_unfold _ _ H1). now rewrite HxZ. }
  unfold split_coverage_id, indicator_of_id, run_of_id, interval_of_id.
  rewrite Hsplit3. simpl. rewrite HsplitZ. reflexivity.
Qed.

End Catalog.

(** ** The coverage-id resolver *)

Section Resolver.
Import PyStr PyStrFacts.
Context {Cell : Type} (self : Forecast Cell).

(** What a checked run tells. *)
Lemma checked_run_Ok (indicator : string) (run : option string)
    (caps : list CatalogEntry) (r : string) :
  checked_run self indicator run = Ok (caps, r) ->
  exists catalog,
    capabilities self = Ok catalog
    /\ caps = filter (fun e => cov_indicator e = indicator) catalog
    /\ indicator ∈ INDICATORS self
    /\ match run with
       | Some r0 => r = r0
       | None => exists e, caps !! 0%nat = Some e /\ r = cov_run e
       end
    /\ strptime_run self r = true
    /\ exists e, e ∈ caps /\ cov_run e = r.
Proof.
  unfold checked_run. intros Hc.
  apply bind_Ok in Hc as (catalog & Hcat & Hc). exists catalog.
  destruct (decide (indicator ∉ INDICATORS self)) as [|Hin]; [discriminate|].
  apply bind_Ok in Hc as (r' & Hr' & Hc).
  destruct (strptime_run self r') eqn:Hfmt; [|discriminate]. simpl in Hc.
  destruct (decide (r' ∉ _)) as [|Hvalid]; [discriminate|].
  injection Hc as <- <-.
  repeat split; auto.
  - now apply dec_stable.
  - destruct run as [r0|]; [congruence|].
    apply fmap_Ok in Hr' as (e & He & ->). apply item_Ok in He. eauto.
  - apply dec_stable in Hvalid. apply elem_of_unique, elem_of_map in Hvalid.
    destruct Hvalid as (e & -> & He). eauto.
Qed.

(** With no run given, the resolver takes the run of the first row of
    the catalog that bears the indicator. *)
Lemma default_run_is_first_row (indicator : string) (interval : option string)
    (catalog : list CatalogEntry) (e : CatalogEntry) :
  capabilities self = Ok catalog ->
  filter (fun e => cov_indicator e = indicator) catalog !! 0%nat = Some e ->
  _get_coverage_id self indicator None interval
  = _get_coverage_id self indicator (Some (cov_run e)) interval.
Proof.
  intros Hcat He. unfold _get_coverage_id, checked_run. rewrite Hcat. simpl.
  destruct (decide (indicator ∉ INDICATORS self)); [reflexivity|].
  unfold item. rewrite He. reflexivity.
Qed.

Lemma get_coverage_id_eq (indicator : string) (run interval : option string) :
  _get_coverage_id self indicator run interval
  = cr ← checked_run self indicator run;
    v ← checked_interval self cr.1 indicator interval;
    Ok (format_coverage_id indicator cr.2 v).
Proof.
  unfold _get_coverage_id. now destruct (checked_run self indicator run) as [[? ?]|].
Qed.

(** C5. The interval policy of [_get_coverage_id]. For an instant
    indicator, a given interval always raises, and with no interval the
    coverage id is the indicator and the checked run, without a suffix.
    For any other indicator, no interval means ["P1D"]: the coverage id
    ends with [_P1D]; and an interval that no row of the catalog bears
    for this indicator raises. *)
Theorem interval_policy (indicator : string) (run : option string) :
  (indicator ∈ INSTANT_INDICATORS self ->
     (forall i, raises (_get_coverage_id self indicator run (Some i)))
     /\ _get_coverage_id self indicator run None
        = (cr ← checked_run self indicator run;
           Ok (indicator +:+ "___" +:+ cr.2)))
  /\ (indicator ∉ INSTANT_INDICATORS self ->
        _get_coverage_id self indicator run None
        = (cr ← checked_run self indicator run;
           Ok ((indicator +:+ "___" +:+ cr.2) +:+ "_P1D"))
        /\ forall i,
             (forall catalog e,
                capabilities self = Ok catalog -> e ∈ catalog ->
                cov_indicator e = indicator -> cov_interval e <> i) ->
             raises (_get_coverage_id self indicator run (Some i))).
Proof.
  split; intros Hinst.
  - split.
    + intros i. rewrite get_coverage_id_eq.
      destruct (checked_run self indicator run) as [[caps r]|e]; simpl;
        [|now exists e].
      unfold checked_interval. rewrite decide_True by assumption.
      now eexists.
    + rewrite get_coverage_id_eq.
      destruct (checked_run self indicator run) as [[caps r]|e]; simpl;
        [|reflexivity].
      unfold checked_interval. now rewrite decide_True by assumption.
  - split.
    + rewrite get_coverage_id_eq.
      destruct (checked_run self indicator run) as [[caps r]|e]; simpl;
        [|reflexivity].
      unfold checked_interval. now rewrite decide_False by assumption.
    + intros i Hfree. rewrite get_coverage_id_eq.
      destruct (checked_run self indicator run) as [[caps r]|e] eqn:Hrun; simpl;
        [|now exists e].
      apply checked_run_Ok in Hrun as (catalog & Hcat & -> & _).
      unfold checked_interval. rewrite decide_False by assumption.
      rewrite decide_True; [now eexists|].
      rewrite elem_of_unique, elem_of_map. intros (e & -> & He).
      apply list_elem_of_filter in He as [Hind He].
      now apply (Hfree catalog e).
Qed.

Lemma checked_interval_Ok (caps : list CatalogEntry) (indicator : string)
    (interval v : option string) :
  checked_interval self caps indicator interval = Ok v ->
  v = effective_interval self indicator interval
  /\ match v with
     | Some i => i = "P1D" \/ exists e, e ∈ caps /\ cov_interval e = i
     | None => True
     end.
Proof.
  unfold checked_interval, effective_interval.
  destruct (decide (indicator ∈ INSTANT_INDICATORS self)).
  - destruct interval; [discriminate|]. now intros [= <-].
  - destruct interval as [i|]; [|intros [= <-]; auto].
    destruct (decide (i ∉ _)) as [|Hin]; [discriminate|]. intros [= <-].
    split; [reflexivity|]. right.
    apply dec_stable in Hin. apply elem_of_unique, elem_of_map in Hin.
    destruct Hin as (e & -> & He). eauto.
Qed.

(** C4. Round trip. When [_get_coverage_id] returns a coverage id, the
    id is the indicator, ["___"], the checked run and, when there is an
    interval, ["_"] and the interval; and the splitting rule of the
    catalog takes this id apart into the same indicator, the same run
    and the same interval, the absence of an interval being the empty
    string of the catalog. *)
Theorem coverage_id_round_trip (indicator : string) (run interval : option string)
    (coverage_id : string) :
  _get_coverage_id self indicator run interval = Ok coverage_id ->
  exists caps r,
    checked_run self indicator run = Ok (caps, r)
    /\ coverage_id = format_coverage_id indicator r (effective_interval self indicator interval)
    /\ split_coverage_id coverage_id
       = Ok (indicator, r, default "" (effective_interval self indicator interval)).
Proof.
  rewrite get_coverage_id_eq. intros Hid.
  apply bind_Ok in Hid as ([caps r] & Hrun & Hid). simpl in Hid.
  apply bind_Ok in Hid as (v & Hv & Hid). injection Hid as <-.
  exists caps, r. split; [assumption|].
  apply checked_interval_Ok in Hv as [<- Hv]. split; [reflexivity|].
  apply checked_run_Ok in Hrun as (catalog & Hcat & -> & _ & _ & _ & e & He & <-).
  apply list_elem_of_filter in He as [<- He].
  unfold capabilities in Hcat. apply bind_Ok in Hcat as (ids & _ & Hbuild).
  pose proof (build_capabilities_rows _ _ Hbuild) as Hrows.
  rewrite Forall_forall in Hrows.
  destruct (split_coverage_id_shape _ _ _ _ (Hrows e He))
    as (Hind & (stem & Hstem & HcutZ & Hstem3) & _).
  assert (Hclean : match v with Some i => clean_interval i | None => True end).
  { destruct v as [i|]; [|exact I]. destruct Hv as [->|(e' & He' & <-)].
    - exact clean_P1D.
    - apply list_elem_of_filter in He' as [_ He'].
      now destruct (split_coverage_id_shape _ _ _ _ (Hrows e' He')) as (_ & _ & ?). }
  rewrite Hstem. unfold format_coverage_id.
  destruct v as [i|]; simpl.
  - destruct Hclean as (HiZ & Hi3 & Hih & Histrip).
    rewrite !app_assoc.
    rewrite (split_formatted _ stem ("_" +:+ i) Hind HcutZ Hstem3).
    + now rewrite strip_underscore, Histrip.
    + now apply no_triple_underscore.
    + now apply no_Z_underscore.
  - rewrite <- (app_empty_r (cov_indicator e +:+ "___" +:+ stem +:+ "Z")).
    rewrite !app_assoc.
    now rewrite (split_formatted _ stem "" Hind HcutZ Hstem3) by reflexivity.
Qed.

End Resolver.

(** ** The forecast-horizon helpers *)

Section Horizons.
Context {Cell : Type} (self : Forecast Cell).

Lemma get_forecast_horizons_Ok (coverage_ids : list string) (hs : list (list Z)) :
  get_forecast_horizons self coverage_ids = Ok hs ->
  Forall2 (fun c h => get_coverage_description self c ≫= (fun _ => Ok ()) = Ok ()
                      /\ available_horizons self c = h) coverage_ids hs.
Proof.
  intros Hh. apply mapM_Ok_Forall2 in Hh.
  induction Hh as [|c h cs hs' Hc _ IH]; constructor; [|exact IH].
  unfold available_horizons.
  destruct (get_coverage_description self c); [|discriminate].
  injection Hc as <-. now split.
Qed.

(** Filtering by one list after the other keeps what is in all of them. *)
Lemma foldl_filter_all (first : list Z) (others : list (list Z)) :
  foldl (fun common times => filter (fun time => time ∈ times) common) first others
  = filter (fun t => Forall (fun times => t ∈ times) others) first.
Proof.
  revert first. induction others as [|times others IH]; intros first; simpl.
  - induction first as [|x first IHf]; [reflexivity|].
    rewrite filter_cons_True by constructor. now f_equal.
  - rewrite IH, list_filter_filter. apply list_filter_iff.
    intros t. rewrite Forall_cons. tauto.
Qed.

Lemma sorted_Sorted (l : list Z) : Sorted Z.le (sorted l).
Proof. apply (Sorted_merge_sort Z.le). Qed.

Lemma sorted_Permutation (l : list Z) : sorted l ≡ₚ l.
Proof. apply (merge_sort_Permutation Z.le). Qed.

Lemma find_common_eq (coverage_ids : list string) (first : list Z)
    (others : list (list Z)) :
  get_forecast_horizons self coverage_ids = Ok (first :: others) ->
  find_common_forecast_horizons self coverage_ids
  = Ok (sorted (filter (fun t => Forall (fun times => t ∈ times) others) first)).
Proof.
  intros Hh. unfold find_common_forecast_horizons. rewrite Hh. simpl.
  now rewrite foldl_filter_all.
Qed.

Lemma find_common_elem (first : list Z) (others : list (list Z)) (t : Z) :
  t ∈ sorted (filter (fun t => Forall (fun times => t ∈ times) others) first)
  <-> Forall (fun times => t ∈ times) (first :: others).
Proof. rewrite sorted_Permutation, list_elem_of_filter, Forall_cons. tauto. Qed.

(** C7. [find_common_forecast_horizons] keeps, in the order of the
    first list, the horizons found in every other list, and sorts them:
    the result is sorted and holds exactly the horizons common to all the
    coverages. For the horizons [0,1,2,3] and [1,2,4] it is [1,2]. With
    no coverage at all it raises [IndexError]. *)
Theorem find_common_sorted_intersection (coverage_ids : list string)
    (hs : list (list Z)) :
  get_forecast_horizons self coverage_ids = Ok hs ->
  match hs with
  | [] => find_common_forecast_horizons self coverage_ids = Raise IndexError
  | first :: others =>
      let kept := filter (fun t => Forall (fun times => t ∈ times) others) first in
      find_common_forecast_horizons self coverage_ids = Ok (sorted kept)
      /\ Sorted Z.le (sorted kept)
      /\ sorted kept ≡ₚ kept
      /\ (forall t, t ∈ sorted kept <-> Forall (fun times => t ∈ times) hs)
  end
  /\ (hs = [[0; 1; 2; 3]; [1; 2; 4]] ->
      find_common_forecast_horizons self coverage_ids = Ok [1; 2]).
Proof.
  intros Hh. split.
  - destruct hs as [|first others].
    + unfold find_common_forecast_horizons. now rewrite Hh.
    + simpl. split; [now apply find_common_eq|].
      split; [apply sorted_Sorted|]. split; [apply sorted_Permutation|].
      intros t. apply find_common_elem.
  - intros ->. now rewrite (find_common_eq _ _ _ Hh).
Qed.

(** C8. [validate_forecast_horizons] returns, in the order given, the
    coverage ids whose available horizons do not hold every requested
    horizon. For the request [1,2,5] against [0,1,2,3] and [1,2,4] it
    returns both ids. *)
Theorem validate_returns_invalid_sublist (coverage_ids : list string)
    (horizons : list Z) (hs : list (list Z)) :
  get_forecast_horizons self coverage_ids = Ok hs ->
  validate_forecast_horizons self coverage_ids horizons
  = Ok (filter (fun c => ¬ Forall (fun h => h ∈ available_horizons self c) horizons)
               coverage_ids)
  /\ (hs = [[0; 1; 2; 3]; [1; 2; 4]] -> horizons = [1; 2; 5] ->
      validate_forecast_horizons self coverage_ids horizons = Ok coverage_ids).
Proof.
  intros Hh. unfold validate_forecast_horizons. rewrite Hh. simpl.
  apply get_forecast_horizons_Ok in Hh.
  assert (Heq : map fst (filter (fun ct : string * list Z =>
                                   ¬ Forall (fun h => h ∈ ct.2) horizons)
                                (zip coverage_ids hs))
                = filter (fun c => ¬ Forall (fun h => h ∈ available_horizons self c)
                                            horizons) coverage_ids).
  { induction Hh as [|c h cs hs' [_ Hc] _ IH]; [reflexivity|]. simpl.
    rewrite !filter_cons. simpl. rewrite Hc.
    destruct (decide (¬ Forall (fun x => x ∈ h) horizons)); simpl; now rewrite IH. }
  split; [now rewrite Heq|].
  intros -> ->. f_equal.
  inversion Hh as [|a ? ? ? _ Hh']; subst.
  inversion Hh' as [|b ? ? ? _ Hh'']; subst. inversion Hh''; subst.
  reflexivity.
Qed.

End Horizons.

(** ** Frames *)

Section FrameFacts.
Context {Cell : Type} `{EqDecision Cell} `{PyInt Cell}.
Implicit Types left right df : DataFrame Cell.

Lemma length_range_index {A} (l : list A) : length (range_index l) = length l.
Proof. apply length_imap. Qed.

Lemma range_index_lookup {A} (l : list A) (k : nat) :
  range_index l !! k = (fun x => (Z.of_nat k, x)) <$> l !! k.
Proof. unfold range_index. now rewrite list_lookup_imap. Qed.

Lemma filter_none {A} (P : A -> Prop) `{forall x, Decision (P x)} (l : list A) :
  (forall y, y ∈ l -> ¬ P y) -> filter P l = [].
Proof.
  induction l as [|a l IH]; intros Hl; [reflexivity|].
  rewrite filter_cons_False by (apply Hl; constructor).
  apply IH. intros y Hy. apply Hl. now constructor.
Qed.

(** Among rows with distinct keys, one row at most bears a given key. *)
Lemma length_filter_key {A B} `{EqDecision B} (f : A -> B) (l : list A) (k : B) :
  NoDup (map f l) -> k ∈ map f l -> length (filter (fun y => f y = k) l) = 1%nat.
Proof.
  induction l as [|a l IH]; simpl; intros Hnd Hk; [inversion Hk|].
  apply NoDup_cons in Hnd as [Ha Hnd]. rewrite filter_cons.
  destruct (decide (f a = k)) as [<-|Hne]; simpl.
  - f_equal. rewrite filter_none; [reflexivity|].
    intros y Hy Hfy. apply Ha. rewrite <- Hfy. apply elem_of_map. eauto.
  - apply IH; [assumption|]. apply elem_of_cons in Hk as [->|Hk]; [congruence|assumption].
Qed.

Lemma length_flat_map_singletons {A B} (f : A -> list B) (l : list A) :
  Forall (fun a => length (f a) = 1%nat) l -> length (flat_map f l) = length l.
Proof.
  induction 1 as [|a l Ha _ IH]; simpl; [reflexivity|].
  rewrite length_app, Ha, IH. reflexivity.
Qed.

Lemma concat_Ok (dfs : list (DataFrame Cell)) df :
  concat dfs = Ok df ->
  dfs <> [] /\ columns df = union_columns dfs /\ rows df = flat_map rows dfs.
Proof. destruct dfs; [discriminate|]. intros [= <-]. now repeat split. Qed.

Lemma rows_concat (dfs : list (DataFrame Cell)) :
  map snd (flat_map rows dfs) = flat_map (fun t => map snd (rows t)) dfs.
Proof.
  induction dfs as [|d dfs IH]; [reflexivity|]. simpl. now rewrite map_app, IH.
Qed.

Lemma keys_rows (on : list string) df :
  keys on df = map (key_of on) (map snd (rows df)).
Proof. unfold keys. now rewrite map_map. Qed.

Lemma suffixed_id (on others : list string) (suffix c : string) :
  (c ∈ others -> c ∈ on) -> suffixed on others suffix c = c.
Proof. intros Hc. unfold suffixed. rewrite decide_False; [reflexivity | tauto]. Qed.

Lemma reduce_aborts {A} (f : A -> A -> result A) (a b : A) (rest : list A) (e : Exception) :
  f a b = Raise e -> reduce f (a :: b :: rest) = Raise e.
Proof.
  intros Hf. simpl. rewrite Hf. induction rest as [|c rest IH]; [reflexivity|exact IH].
Qed.

End FrameFacts.

(** ** The name of the measurement column *)

Section Naming.
Import PyStr PyStrFacts.

Lemma underscore_free_cons (c : ascii) (t : string) :
  break_on "_" (String c t) = None -> c <> "_"%char /\ break_on "_" t = None.
Proof.
  rewrite break_on_eq, prefix_cons.
  destruct (ascii_dec "_" c) as [<-|Hc]; [now rewrite prefix_nil|].
  destruct (break_on "_" t) as [[? ?]|]; [discriminate|]. intros _. split; congruence.
Qed.

Lemma prefix_other (c d : ascii) (sep s : string) :
  c <> d -> String.prefix (String c sep) (String d s) = false.
Proof. intros Hcd. rewrite prefix_cons. now destruct (ascii_dec c d). Qed.

(** A string without underscore is cut by the first underscore after it. *)
Lemma cut_before_underscore (t : string) : break_on "_" t = None -> cut_before "_" t.
Proof.
  intros Ht x. induction t as [|c t IH].
  - now rewrite app_nil_l, break_on_eq, prefix_refl_app, drop_app.
  - apply underscore_free_cons in Ht as [Hc Ht].
    rewrite app_cons, break_on_eq, prefix_other by congruence.
    now rewrite (IH Ht).
Qed.

Lemma split_intercalate (tokens : list string) :
  tokens <> [] -> Forall (fun t => break_on "_" t = None) tokens ->
  split "_" (intercalate "_" tokens) = tokens.
Proof.
  assert (H1 : "_" <> "") by discriminate.
  intros Hne Htok. induction Htok as [|t tokens Ht Htok IH]; [congruence|].
  destruct tokens as [|t2 tokens].
  - simpl. now rewrite (split_unfold _ _ H1), Ht.
  - change (intercalate "_" (t :: t2 :: tokens))
      with (t +:+ "_" +:+ intercalate "_" (t2 :: tokens)).
    rewrite (split_unfold _ _ H1), (cut_before_underscore t Ht).
    f_equal. now apply IH.
Qed.

Lemma cut2_cons (c : ascii) (s : string) :
  c <> "_"%char -> cut_before "__" s -> cut_before "__" (String c s).
Proof.
  intros Hc Hs x. rewrite app_cons, break_on_eq, prefix_other by congruence.
  now rewrite Hs.
Qed.

Lemma cut2_underscore (s : string) :
  starts_plain s -> cut_before "__" s -> cut_before "__" (String "_" s).
Proof.
  intros Hp Hs x. rewrite app_cons, break_on_eq.
  destruct s as [|d s]; [destruct Hp|]. simpl in Hp.
  rewrite app_cons, prefix_cons.
  destruct (ascii_dec "_" "_"); [|congruence].
  rewrite prefix_other by congruence.
  rewrite <- app_cons. now rewrite Hs.
Qed.

Lemma cut2_token (t s : string) :
  break_on "_" t = None -> cut_before "__" s -> cut_before "__" (t +:+ s).
Proof.
  intros Ht Hs. induction t as [|c t IH]; [exact Hs|].
  apply underscore_free_cons in Ht as [Hc Ht].
  rewrite app_cons. apply cut2_cons; auto.
Qed.

Lemma cut2_plain_token (t : string) : plain_token t -> cut_before "__" t.
Proof.
  intros [Hne Ht]. destruct t as [|c t]; [congruence|]. clear Hne.
  revert c Ht. induction t as [|d t IH]; intros c Ht.
  - apply underscore_free_cons in Ht as [Hc _].
    intros x. rewrite app_cons, break_on_eq, prefix_other by congruence.
    now rewrite app_nil_l, break_on_eq, prefix_refl_app, drop_app.
  - apply underscore_free_cons in Ht as [Hc Ht]. apply cut2_cons; auto.
Qed.

Lemma plain_token_starts (t s : string) : plain_token t -> starts_plain (t +:+ s).
Proof.
  intros [Hne Ht]. destruct t as [|c t]; [congruence|].
  now apply underscore_free_cons in Ht as [Hc _].
Qed.

(** Tokens joined by single underscores end where the first double
    underscore put after them starts. *)
Lemma cut2_intercalate (tokens : list string) :
  tokens <> [] -> Forall plain_token tokens ->
  cut_before "__" (intercalate "_" tokens) /\ starts_plain (intercalate "_" tokens).
Proof.
  intros Hne Htok. induction Htok as [|t tokens Ht Htok IH]; [congruence|].
  destruct tokens as [|t2 tokens].
  - simpl. split; [now apply cut2_plain_token|].
    rewrite <- (app_empty_r t). now apply plain_token_starts.
  - change (intercalate "_" (t :: t2 :: tokens))
      with (t +:+ "_" +:+ intercalate "_" (t2 :: tokens)).
    destruct IH as [IHc IHs]; [discriminate|].
    split; [|now apply plain_token_starts].
    apply cut2_token; [apply Ht|]. rewrite app_cons, app_nil_l.
    now apply cut2_underscore.
Qed.

Lemma no2_cons (c : ascii) (s : string) :
  c <> "_"%char -> break_on "__" s = None -> break_on "__" (String c s) = None.
Proof. intros Hc Hs. now rewrite break_on_eq, prefix_other, Hs by congruence. Qed.

Lemma no2_underscore (s : string) :
  starts_plain s -> break_on "__" s = None -> break_on "__" (String "_" s) = None.
Proof.
  intros Hp Hs. destruct s as [|d s]; [destruct Hp|]. simpl in Hp.
  rewrite break_on_eq, prefix_cons.
  destruct (ascii_dec "_" "_"); [|congruence].
  now rewrite prefix_other, Hs by congruence.
Qed.

Lemma no2_token (t s : string) :
  break_on "_" t = None -> break_on "__" s = None -> break_on "__" (t +:+ s) = None.
Proof.
  intros Ht Hs. induction t as [|c t IH]; [exact Hs|].
  apply underscore_free_cons in Ht as [Hc Ht].
  rewrite app_cons. apply no2_cons; auto.
Qed.

(** Tokens joined by single underscores hold no double underscore. *)
Lemma no2_intercalate (tokens : list string) :
  tokens <> [] -> Forall plain_token tokens ->
  break_on "__" (intercalate "_" tokens) = None.
Proof.
  intros Hne Htok. induction Htok as [|t tokens Ht Htok IH]; [congruence|].
  destruct tokens as [|t2 tokens].
  - simpl. rewrite <- (app_empty_r t). now apply no2_token; [apply Ht|].
  - change (intercalate "_" (t :: t2 :: tokens))
      with (t +:+ "_" +:+ intercalate "_" (t2 :: tokens)).
    apply no2_token; [apply Ht|]. rewrite app_cons, app_nil_l.
    apply no2_underscore; [|now apply IH].
    now apply cut2_intercalate.
Qed.

Lemma mapM_first_char (tokens : list string) :
  Forall (fun t => t <> "") tokens ->
  mapM first_char tokens = Ok (map initial tokens).
Proof.
  induction 1 as [|t tokens Ht _ IH]; [reflexivity|].
  cbn [mapM map]. destruct t as [|c t]; [congruence|]. simpl. now rewrite IH.
Qed.

(** The base name of an [unknown] column: the lowercase initials of the
    tokens before the first double underscore. *)
Lemma base_name_unknown (tokens : list string) (rest : string) :
  tokens <> [] -> Forall plain_token tokens ->
  base_name_of (intercalate "_" tokens +:+ "__" +:+ rest) "unknown"
  = Ok (lower (join (map initial tokens))).
Proof.
  intros Hne Htok. unfold base_name_of. rewrite decide_True by reflexivity.
  assert (H2 : "__" <> "") by discriminate.
  destruct (cut2_intercalate tokens Hne Htok) as [Hcut _].
  rewrite (split_unfold _ _ H2), Hcut. cbn [item lookup list_lookup mbind result_bind].
  rewrite split_intercalate; [|assumption|].
  - rewrite mapM_first_char; [reflexivity|].
    eapply Forall_impl; [exact Htok|]. now intros t [? _].
  - eapply Forall_impl; [exact Htok|]. now intros t [_ ?].
Qed.

Lemma base_name_unknown_whole (tokens : list string) :
  tokens <> [] -> Forall plain_token tokens ->
  base_name_of (intercalate "_" tokens) "unknown"
  = Ok (lower (join (map initial tokens))).
Proof.
  intros Hne Htok. unfold base_name_of. rewrite decide_True by reflexivity.
  assert (H2 : "__" <> "") by discriminate.
  rewrite (split_unfold _ _ H2), (no2_intercalate tokens Hne Htok).
  cbn [item lookup list_lookup mbind result_bind].
  rewrite split_intercalate; [|assumption|].
  - rewrite mapM_first_char; [reflexivity|].
    eapply Forall_impl; [exact Htok|]. now intros t [? _].
  - eapply Forall_impl; [exact Htok|]. now intros t [_ ?].
Qed.

Lemma re_sub_inside (s : string) :
  has_line_feed s = false -> re_sub_digit_rest true s = "".
Proof.
  induction s as [|c s IH]; [reflexivity|]. simpl.
  destruct (Ascii.eqb c newline); [discriminate|]. exact IH.
Qed.

(** On a name of one line, removing the matches of [\d.*] leaves the name
    up to its first digit. *)
Lemma re_sub_one_line (s : string) :
  has_line_feed s = false -> re_sub_digit_rest false s = before_first_digit s.
Proof.
  induction s as [|c s IH]; [reflexivity|]. simpl.
  destruct (Ascii.eqb c newline); [discriminate|]. simpl. intros Hs.
  destruct (is_digit c); [now apply re_sub_inside | now rewrite IH].
Qed.

End Naming.

Section Fetcher.
Import PyStr PyStrFacts.
Context {Cell : Type} `{EqDecision Cell} `{PyInt Cell}.


End Fetcher.

(** ** The assembly of [get_coverage] *)

Section Assembler.
Context {Cell : Type} `{EqDecision Cell} `{PyInt Cell}.
Implicit Type self : Forecast Cell.

(** In the concatenation of blocks of the same length [c], the element
    [j] of the block [i] stands at [i * c + j]. *)
Lemma bind_lookup_block {A B} (f : A -> list B) (c : nat) (l : list A)
    (i j : nat) (x : A) :
  (forall y, length (f y) = c) -> l !! i = Some x -> (j < c)%nat ->
  (l ≫= f) !! (i * c + j)%nat = f x !! j.
Proof.
  intros Hlen. revert i. induction l as [|a l IH]; intros i Hx Hj; [discriminate|].
  change ((a :: l) ≫= f) with (f a ++ (l ≫= f))%list.
  destruct i as [|i]; simpl in Hx.
  - injection Hx as ->. simpl. apply lookup_app_l. now rewrite Hlen.
  - rewrite lookup_app_r by (rewrite Hlen; lia).
    rewrite Hlen. replace (S i * c + j - c)%nat with (i * c + j)%nat by lia.
    now apply IH.
Qed.

Lemma length_bind_block {A B} (f : A -> list B) (c : nat) (l : list A) :
  (forall y, length (f y) = c) -> length (l ≫= f) = (length l * c)%nat.
Proof.
  intros Hlen. induction l as [|a l IH]; [reflexivity|].
  change ((a :: l) ≫= f) with (f a ++ (l ≫= f))%list.
  rewrite length_app, Hlen, IH. simpl. lia.
Qed.

Lemma length_combinations (fs ps hs : list Z) :
  length (combinations fs ps hs) = (length fs * length ps * length hs)%nat.
Proof.
  unfold combinations.
  rewrite (length_bind_block _ (length ps * length hs)); [lia|].
  intros f. rewrite (length_bind_block _ (length hs)); [lia|].
  intros p. rewrite (length_bind_block _ 1); [lia|]. reflexivity.
Qed.

(** The order of the comprehension: the horizon moves slowest, then the
    pressure, and the height moves fastest. *)
Lemma combinations_lookup (fs ps hs : list Z) (i j l : nat) (f p h : Z) :
  fs !! i = Some f -> ps !! j = Some p -> hs !! l = Some h ->
  combinations fs ps hs !! ((i * length ps + j) * length hs + l)%nat = Some (f, p, h).
Proof.
  intros Hf Hp Hh.
  pose proof (lookup_lt_Some _ _ _ Hp) as Hj.
  pose proof (lookup_lt_Some _ _ _ Hh) as Hl.
  assert (Hinner : forall p' : Z,
            length (hs ≫= (fun h' : Z => [(f, p', h')])) = length hs).
  { intros p'. rewrite (length_bind_block _ 1); [lia | reflexivity]. }
  unfold combinations.
  replace ((i * length ps + j) * length hs + l)%nat
    with (i * (length ps * length hs) + (j * length hs + l))%nat by lia.
  rewrite (bind_lookup_block _ (length ps * length hs) fs i _ f); [| |assumption|nia].
  - rewrite (bind_lookup_block _ (length hs) ps j l p); [|exact Hinner|assumption|lia].
    rewrite <- (Nat.mul_1_r l), <- (Nat.add_0_r (l * 1)).
    rewrite (bind_lookup_block _ 1 hs l 0 h); [reflexivity|reflexivity|assumption|lia].
  - intros f'. rewrite (length_bind_block _ (length hs)); [lia|].
    intros p'. rewrite (length_bind_block _ 1); [lia | reflexivity].
Qed.

Lemma unsentinel_sentinel : unsentinel (-1) = None.
Proof. reflexivity. Qed.

Lemma unsentinel_value (v : Z) : v <> -1 -> unsentinel v = Some v.
Proof. intros Hv. unfold unsentinel. now rewrite decide_True. Qed.


End Assembler.

(** ** The combiner *)

Section Combiner.
Context {Cell : Type} `{EqDecision Cell} `{PyInt Cell}.
Implicit Type self : Forecast Cell.

Lemma Sorted_head_le (first : Z) (l : list Z) :
  Sorted Z.le (first :: l) -> forall t, t ∈ first :: l -> first <= t.
Proof.
  intros Hs t Ht. apply Sorted_StronglySorted in Hs; [|intros x y z; lia].
  apply StronglySorted_inv in Hs as [_ Hall].
  apply elem_of_cons in Ht as [->|Ht]; [lia|].
  rewrite Forall_forall in Hall. now apply Hall.
Qed.

(** What [find_common_forecast_horizons] returns, in terms of the
    descriptions of the coverages. *)
Lemma find_common_Ok self (coverage_ids : list string) (common : list Z) :
  find_common_forecast_horizons self coverage_ids = Ok common ->
  Sorted Z.le common
  /\ forall t, t ∈ common <-> Forall (fun c => t ∈ available_horizons self c) coverage_ids.
Proof.
  intros Hc. pose proof Hc as Hc'. unfold find_common_forecast_horizons in Hc'.
  apply bind_Ok in Hc' as (hs & Hhs & Hc').
  destruct hs as [|first others]; [discriminate|].
  rewrite (find_common_eq self _ _ _ Hhs) in Hc. injection Hc as <-.
  split; [apply sorted_Sorted|].
  intros t. rewrite find_common_elem. apply get_forecast_horizons_Ok in Hhs.
  clear -Hhs. induction Hhs as [|c h cs hs' [_ <-] _ IH]; [split; constructor|].
  rewrite !Forall_cons. tauto.
Qed.

(** Once the forecast horizons are set, the loop over the runs leaves
    them as they are. *)
Lemma resolve_run_keeps self (indicator_names : list string) (hs ps : list Z)
    (intervals : option (list string)) (d d' : RunDict) (horizons : list Z)
    (fh' : option (list Z)) (run : string) :
  resolve_run self indicator_names hs ps intervals (d, Some horizons) run = Ok (d', fh') ->
  fh' = Some horizons.
Proof.
  unfold resolve_run. intros Hr.
  apply bind_Ok in Hr as (d1 & _ & Hr). now injection Hr as _ <-.
Qed.

(** C10. In [get_combined_coverage], an empty list of intervals does
    what no list of intervals does: the call is the same, no length is
    checked and every indicator is resolved without interval. An empty
    list of heights with at least one indicator raises the length error
    of the heights, and so does an empty list of pressures for the
    pressures, when the runs are distinct and the heights pass. *)
Theorem empty_lists_policy self (indicator_names runs : list string)
    (heights pressures : option (list Z)) (intervals : option (list string))
    (lat long : Cell * Cell) (forecast_horizons : option (list Z)) :
  get_combined_coverage self indicator_names runs heights pressures (Some [])
                        lat long forecast_horizons
  = get_combined_coverage self indicator_names runs heights pressures None
                          lat long forecast_horizons
  /\ (forall hs ps run d i indicator,
        resolve_indicator self hs ps (Some []) run d (i, indicator)
        = (height_value ← (if decide (hs ≠ []) then Some <$> item hs i else Ok None);
           pressure_value ← (if decide (ps ≠ []) then Some <$> item ps i else Ok None);
           coverage_id ← _get_coverage_id self indicator (Some run) None;
           dict_append d run (coverage_id, height_value, pressure_value)))
  /\ (indicator_names <> [] -> length runs = length (remove_dups runs) ->
      get_combined_coverage self indicator_names runs (Some []) pressures intervals
                            lat long forecast_horizons
      = Raise (ValueError HeightsLengthMismatch))
  /\ (indicator_names <> [] -> length runs = length (remove_dups runs) ->
      match heights with
      | Some hs => length hs = length indicator_names
      | None => True
      end ->
      get_combined_coverage self indicator_names runs heights (Some []) intervals
                            lat long forecast_horizons
      = Raise (ValueError PressuresLengthMismatch)).
Proof.
  assert (Hlen : indicator_names <> [] ->
                 length (@nil Z) ≠ length indicator_names).
  { destruct indicator_names; [congruence | discriminate]. }
  split; [reflexivity|]. split; [reflexivity|]. split.
  - intros Hne Hruns. unfold get_combined_coverage.
    rewrite decide_False by (intros Hc; now apply Hc).
    now rewrite decide_True by auto.
  - intros Hne Hruns Hheights. unfold get_combined_coverage.
    rewrite decide_False by (intros Hc; now apply Hc).
    destruct heights as [hs|].
    + rewrite (decide_False (P := length hs ≠ length indicator_names))
        by (intros Hc; now apply Hc).
      rewrite Ok_bind.
      now rewrite decide_True by auto.
    + rewrite Ok_bind. now rewrite decide_True by auto.
Qed.

End Combiner.

(** ** The claims on the fake service *)

Section Examples.
Import PyStr.

(** C1. With no run given, [_get_coverage_id] takes the run of the
    first row the catalog has for the indicator, not the greatest run:
    for a catalog that lists the run of 1 January before the run of
    2 January, the coverage id resolved for TEMPERATURE bears the run of
    1 January, although the later run is in the catalog and is valid. *)
Theorem default_run_is_first_not_latest :
  _get_coverage_id demo "TEMPERATURE" None None = Ok temperature_day1
  /\ capabilities demo ≫= (fun catalog =>
       Ok (map cov_run (filter (fun e => cov_indicator e = "TEMPERATURE") catalog)))
     = Ok [day1; day2]
  /\ String.ltb day1 day2 = true
  /\ _get_coverage_id demo "TEMPERATURE" (Some day2) None = Ok temperature_day2.
Proof. repeat split; vm_compute; reflexivity. Qed.

Lemma coverage_id_round_trip_witness :
  _get_coverage_id demo "TEMPERATURE" (Some day2) None = Ok temperature_day2
  /\ split_coverage_id temperature_day2 = Ok ("TEMPERATURE", day2, "P1D").
Proof.
  assert (Hid : _get_coverage_id demo "TEMPERATURE" (Some day2) None = Ok temperature_day2)
    by (vm_compute; reflexivity).
  split; [exact Hid|].
  destruct (coverage_id_round_trip demo _ _ _ _ Hid) as (caps & r & Hrun & _ & Hsplit).
  vm_compute in Hrun. injection Hrun as _ <-. exact Hsplit.
Defined.

Lemma interval_policy_witness :
  (wind ∈ INSTANT_INDICATORS demo) /\ ("TEMPERATURE" ∉ INSTANT_INDICATORS demo)
  /\ (forall i, raises (_get_coverage_id demo wind None (Some i)))
  /\ _get_coverage_id demo "TEMPERATURE" None None
     = (cr ← checked_run demo "TEMPERATURE" None;
        Ok (("TEMPERATURE" +:+ "___" +:+ cr.2) +:+ "_P1D")).
Proof.
  assert (Hw : wind ∈ INSTANT_INDICATORS demo) by (vm_compute; constructor).
  assert (Ht : "TEMPERATURE" ∉ INSTANT_INDICATORS demo).
  { intros Hin. vm_compute in Hin. apply list_elem_of_singleton in Hin. discriminate. }
  split; [exact Hw|]. split; [exact Ht|]. split.
  - exact (proj1 (proj1 (interval_policy demo wind None) Hw)).
  - exact (proj1 (proj2 (interval_policy demo "TEMPERATURE" None) Ht)).
Defined.

Lemma find_common_witness :
  get_forecast_horizons demo [temperature_day1; wind_day1] = Ok [[0; 1; 2; 3]; [1; 2; 4]]
  /\ find_common_forecast_horizons demo [temperature_day1; wind_day1] = Ok [1; 2].
Proof.
  assert (Hh : get_forecast_horizons demo [temperature_day1; wind_day1]
               = Ok [[0; 1; 2; 3]; [1; 2; 4]]) by (vm_compute; reflexivity).
  split; [exact Hh|].
  exact (proj2 (find_common_sorted_intersection demo _ _ Hh) eq_refl).
Defined.

Lemma validate_witness :
  get_forecast_horizons demo [temperature_day1; wind_day1] = Ok [[0; 1; 2; 3]; [1; 2; 4]]
  /\ validate_forecast_horizons demo [temperature_day1; wind_day1] [1; 2; 5]
     = Ok [temperature_day1; wind_day1].
Proof.
  assert (Hh : get_forecast_horizons demo [temperature_day1; wind_day1]
               = Ok [[0; 1; 2; 3]; [1; 2; 4]]) by (vm_compute; reflexivity).
  split; [exact Hh|].
  exact (proj2 (validate_returns_invalid_sublist demo _ [1; 2; 5] _ Hh) eq_refl eq_refl).
Defined.

(** The end-to-end example: the fake decoder gives one row with the
    measurement 12.3 under [unknown] at the height 2; [get_coverage] for
    TEMPERATURE returns it under [t_2m], with [run] and
    [forecast_horizon]. *)
Example get_coverage_temperature :
  get_coverage demo (Some "TEMPERATURE") france.1 france.2 None None None None None ""
  = Ok {| columns := ["latitude"; "longitude"; "run"; "forecast_horizon"; "t_2m"];
          rows := [(0, [("latitude", Num 450 1); ("longitude", Num 20 1);
                        ("run", Text day1); ("forecast_horizon", Num 0 0);
                        ("t_2m", Num 123 1)])] |}.
Proof. vm_compute. reflexivity. Qed.



Lemma empty_lists_policy_witness :
  length [day1; day2] = length (remove_dups [day1; day2])
  /\ get_combined_coverage demo ["TEMPERATURE"; wind] [day1; day2] (Some []) None None
                           france.1 france.2 None
     = Raise (ValueError HeightsLengthMismatch)
  /\ get_combined_coverage demo ["TEMPERATURE"; wind] [day1; day2] (Some [2; 10])
                           (Some []) None france.1 france.2 None
     = Raise (ValueError PressuresLengthMismatch).
Proof.
  assert (Hruns : length [day1; day2] = length (remove_dups [day1; day2]))
    by (vm_compute; reflexivity).
  split; [exact Hruns|]. split.
  - refine (proj1 (proj2 (proj2 (empty_lists_policy demo ["TEMPERATURE"; wind] [day1; day2]
                                   None None None france.1 france.2 None))) _ Hruns).
    discriminate.
  - refine (proj2 (proj2 (proj2 (empty_lists_policy demo ["TEMPERATURE"; wind] [day1; day2]
                                   (Some [2; 10]) None None france.1 france.2 None)))
              _ Hruns _); [discriminate | reflexivity].
Defined.

End Examples.

(** * Further properties *)

(** ** [get_coverage] *)

Section CoverageRequests.
Context {Cell : Type} `{EqDecision Cell} `{PyInt Cell}.
Implicit Type self : Forecast Cell.

Lemma mapM_ext {A B} (f g : A -> result B) (l : list A) :
  (forall x, f x = g x) -> mapM f l = mapM g l.
Proof.
  intros Hfg. induction l as [|x l IH]; [reflexivity|].
  cbn [mapM]. now rewrite Hfg, IH.
Qed.

Lemma Forall2_mapM_Ok {A B} (f : A -> result B) (l : list A) (k : list B) :
  Forall2 (fun x y => f x = Ok y) l k -> mapM f l = Ok k.
Proof.
  induction 1 as [|x y l k Hxy _ IH]; [reflexivity|].
  cbn [mapM]. now rewrite Hxy, IH.
Qed.

(** What [_raise_if_invalid_or_fetch_default] lets through: a list that is
    not empty, of available values, or the value [-1] alone when nothing
    is available. *)
Lemma checked_or_default (param_name : string) (inputs : option (list Z))
    (availables l : list Z) :
  _raise_if_invalid_or_fetch_default param_name inputs availables = Ok l ->
  l <> [] /\ Forall (fun v => v ∈ availables \/ (v = -1 /\ availables = [])) l.
Proof.
  unfold _raise_if_invalid_or_fetch_default.
  assert (Hdefault : forall l',
            Ok (match take 1 availables with [] => [-1] | first => first end) = Ok l' ->
            l' <> [] /\ Forall (fun v => v ∈ availables \/ (v = -1 /\ availables = [])) l').
  { intros l' [= <-]. destruct availables as [|a av]; simpl.
    - split; [discriminate|]. constructor; [now right | constructor].
    - split; [discriminate|]. constructor; [left; constructor | constructor]. }
  destruct inputs as [[|x inputs]|]; [now apply Hdefault| |now apply Hdefault].
  destruct (decide (Forall _ (x :: inputs))) as [Hall|]; [|discriminate].
  intros [= <-]. split; [discriminate|].
  eapply Forall_impl; [exact Hall|]. intros v Hv. now left.
Qed.

Lemma elem_of_combinations (fs ps hs : list Z) (f p h : Z) :
  (f, p, h) ∈ combinations fs ps hs <-> f ∈ fs /\ p ∈ ps /\ h ∈ hs.
Proof.
  unfold combinations. rewrite list_elem_of_bind. split.
  - intros (f' & Hin & Hf). apply list_elem_of_bind in Hin as (p' & Hin & Hp).
    apply list_elem_of_bind in Hin as (h' & Hin & Hh).
    apply list_elem_of_singleton in Hin. injection Hin as -> -> ->. auto.
  - intros (Hf & Hp & Hh). exists f. split; [|assumption].
    apply list_elem_of_bind. exists p. split; [|assumption].
    apply list_elem_of_bind. exists h. split; [|assumption]. constructor.
Qed.

(** X1. The fetches of a successful [get_coverage]. There is at least
    one. Each asks for a forecast horizon the description lists, or for
    the horizon [-1] when it lists none; for a pressure it lists, or for
    no pressure; for a height it lists, or for no height. *)
Theorem get_coverage_requests self (indicator : option string) (lat long : Cell * Cell)
    (heights pressures forecast_horizons : option (list Z))
    (run interval : option string) (coverage_id : string) (df : DataFrame Cell) :
  get_coverage self indicator lat long heights pressures forecast_horizons
               run interval coverage_id = Ok df ->
  exists cid axis (requests : list (Z * option Z * option Z)) tables,
    get_coverage_description self cid = Ok axis
    /\ requests <> []
    /\ Forall2 (fun '(f, p, h) t =>
                  _get_data_single_forecast self cid f p h lat long = Ok t)
               requests tables
    /\ Forall (fun '(f, p, h) =>
                 (f ∈ axis_forecast_horizons axis
                  \/ (f = -1 /\ axis_forecast_horizons axis = []))
                 /\ (p = None \/ exists v, p = Some v /\ v ∈ axis_pressures axis)
                 /\ (h = None \/ exists v, h = Some v /\ v ∈ axis_heights axis))
              requests
    /\ map snd (rows df) = flat_map (fun t => map snd (rows t)) tables.
Proof.
  unfold get_coverage. intros Hg.
  destruct (negb _); [discriminate|].
  apply bind_Ok in Hg as (cid & _ & Hg).
  apply bind_Ok in Hg as (axis & Haxis & Hg).
  apply bind_Ok in Hg as (hs & Hhs & Hg).
  apply bind_Ok in Hg as (ps & Hps & Hg).
  apply bind_Ok in Hg as (fs & Hfs & Hg).
  apply bind_Ok in Hg as (tables & Htables & Hg).
  apply fmap_Ok in Hg as (whole & Hwhole & ->).
  apply checked_or_default in Hhs as [Hhs0 Hhs].
  apply checked_or_default in Hps as [Hps0 Hps].
  apply checked_or_default in Hfs as [Hfs0 Hfs].
  rewrite Forall_forall in Hhs, Hps, Hfs.
  apply mapM_Ok_Forall2 in Htables.
  exists cid, axis,
    (map (fun c : Z * Z * Z => (c.1.1, unsentinel c.1.2, unsentinel c.2))
         (combinations fs ps hs)), tables.
  split; [assumption|]. split; [|split; [|split]].
  - destruct fs as [|f fs]; [congruence|]. destruct ps as [|p ps]; [congruence|].
    destruct hs as [|h hs]; [congruence|]. discriminate.
  - clear -Htables. induction Htables as [|[[f p] h] t cs ts Hc _ IH]; constructor; auto.
  - apply Forall_forall. intros [[f p] h] Hin.
    apply elem_of_map in Hin as ([[f' p'] h'] & [= -> -> ->] & Hin).
    apply elem_of_combinations in Hin as (Hf & Hp & Hh).
    split; [now apply Hfs|]. unfold unsentinel. split.
    + destruct (decide (p' ≠ -1)) as [Hne|]; [|now left].
      right. exists p'. split; [reflexivity|].
      destruct (Hps p' Hp) as [?|[? _]]; [assumption | contradiction].
    + destruct (decide (h' ≠ -1)) as [Hne|]; [|now left].
      right. exists h'. split; [reflexivity|].
      destruct (Hhs h' Hh) as [?|[? _]]; [assumption | contradiction].
  - apply concat_Ok in Hwhole as [_ [_ Hrows]].
    unfold reset_index, range_index. cbn [rows]. rewrite Hrows, <- rows_concat.
    generalize (map snd (flat_map rows tables)). intros l.
    change (map snd (imap (fun i x => (Z.of_nat (id i), x)) l) = l).
    generalize (@id nat). induction l as [|x l IH]; intros g; [reflexivity|].
    cbn. f_equal. apply (IH (g ∘ S)).
Qed.

Lemma get_data_single_forecast_ext self self' :
  fetch_grib self = fetch_grib self' -> set_pop self = set_pop self' ->
  forall coverage_id forecast_horizon pressure height lat long,
    _get_data_single_forecast self coverage_id forecast_horizon pressure height lat long
    = _get_data_single_forecast self' coverage_id forecast_horizon pressure height lat long.
Proof.
  intros Hfetch Hpop *. unfold _get_data_single_forecast, pop_unknown_column.
  now rewrite Hfetch, Hpop.
Qed.

(** X2. [get_coverage] for a given coverage id, with no indicator (or
    the empty one), never looks at the catalog nor at the lists of
    indicators: two models with the same description service and the same
    decoder give the same result, whatever their catalogs. The coverage id
    is not checked against the catalog. *)
Theorem get_coverage_by_id_ignores_catalog self self' (indicator : option string)
    (lat long : Cell * Cell) (heights pressures forecast_horizons : option (list Z))
    (run interval : option string) (coverage_id : string) :
  get_coverage_description self = get_coverage_description self' ->
  fetch_grib self = fetch_grib self' ->
  set_pop self = set_pop self' ->
  truthy indicator = false ->
  get_coverage self indicator lat long heights pressures forecast_horizons
               run interval coverage_id
  = get_coverage self' indicator lat long heights pressures forecast_horizons
                 run interval coverage_id.
Proof.
  intros Hdesc Hfetch Hpop Hind. unfold get_coverage. rewrite Hind, Hdesc.
  destruct (negb _); [reflexivity|].
  assert (Hcid : match indicator with
                 | Some (String c i) => _get_coverage_id self (String c i) run interval
                 | _ => Ok coverage_id
                 end = Ok coverage_id) by now destruct indicator as [[|? ?]|].
  assert (Hcid' : match indicator with
                  | Some (String c i) => _get_coverage_id self' (String c i) run interval
                  | _ => Ok coverage_id
                  end = Ok coverage_id) by now destruct indicator as [[|? ?]|].
  rewrite Hcid, Hcid', !Ok_bind.
  destruct (get_coverage_description self' coverage_id) as [axis|]; [|reflexivity].
  rewrite !Ok_bind.
  destruct (_raise_if_invalid_or_fetch_default "heights" _ _) as [hs|]; [|reflexivity].
  rewrite !Ok_bind.
  destruct (_raise_if_invalid_or_fetch_default "pressures" _ _) as [ps|]; [|reflexivity].
  rewrite !Ok_bind.
  destruct (_raise_if_invalid_or_fetch_default "forecast_horizons" _ _) as [fs|];
    [|reflexivity].
  rewrite !Ok_bind. f_equal. apply mapM_ext. intros [[f p] h].
  now apply get_data_single_forecast_ext.
Qed.

End CoverageRequests.

(** ** The catalog and the resolver *)

Section CatalogEdges.
Import PyStr PyStrFacts.

Lemma item_0_split (sep s : string) :
  sep <> "" -> exists p, split sep s !! 0%nat = Some p.
Proof.
  intros Hsep. destruct (split_head sep s Hsep) as (p & rest & tail & -> & _).
  now exists p.
Qed.

(** The run and the interval of a well-formed id are decoded; those of
    any other id raise [IndexError]. *)
Lemma decode_well_formed (coverage_id : string) :
  if well_formed_id coverage_id
  then exists r v, run_of_id coverage_id = Ok r /\ interval_of_id coverage_id = Ok v
  else run_of_id coverage_id = Raise IndexError
       \/ (exists r, run_of_id coverage_id = Ok r)
          /\ interval_of_id coverage_id = Raise IndexError.
Proof.
  assert (H3 : "___" <> "") by discriminate.
  assert (H1 : "Z" <> "") by discriminate.
  unfold well_formed_id, run_of_id, interval_of_id.
  rewrite (split_unfold _ _ H3).
  destruct (break_on "___" coverage_id) as [[a after]|]; [|now left].
  rewrite (split_unfold _ _ H3).
  set (segment := match break_on "___" after with
                  | Some (segment, _) => segment
                  | None => after
                  end).
  assert (Hseg : item (a :: match break_on "___" after with
                            | Some (a0, b) => a0 :: split "___" b
                            | None => [after]
                            end) 1 = Ok segment).
  { subst segment. now destruct (break_on "___" after) as [[? ?]|]. }
  rewrite Hseg, !Ok_bind, (split_unfold _ _ H1).
  destruct (break_on "Z" segment) as [[stem rest]|].
  - destruct (item_0_split "Z" rest H1) as [p Hp].
    exists (stem +:+ "Z"), (strip "_" p). split; [reflexivity|].
    change (item (stem :: split "Z" rest) 1) with (item (split "Z" rest) 0).
    unfold item. now rewrite Hp.
  - right. split; [now exists (segment +:+ "Z") | reflexivity].
Qed.

Lemma mapM_all_Ok {A B} (f : A -> result B) (l : list A) :
  Forall (fun x => exists y, f x = Ok y) l -> exists k, mapM f l = Ok k.
Proof.
  induction 1 as [|x l [y Hy] _ [k IH]]; [now exists []|].
  exists (y :: k). cbn [mapM]. now rewrite Hy, IH.
Qed.

Lemma mapM_first_error {A B} (f : A -> result B) (l : list A) (e : Exception) :
  Forall (fun x => (exists y, f x = Ok y) \/ f x = Raise e) l ->
  Exists (fun x => f x = Raise e) l ->
  mapM f l = Raise e.
Proof.
  induction 1 as [|x l Hx Hl IH]; intros Hex; [inversion Hex|].
  cbn [mapM]. destruct Hx as [[y Hy]|Hx]; [|now rewrite Hx].
  rewrite Hy, Ok_bind. apply Exists_cons in Hex as [Hex|Hex]; [congruence|].
  now rewrite (IH Hex).
Qed.

Lemma zip_catalog_ids (ids indicators runs intervals : list string) :
  length indicators = length ids -> length runs = length ids ->
  length intervals = length ids ->
  map cov_id (zip_catalog ids indicators runs intervals) = ids.
Proof.
  revert indicators runs intervals.
  induction ids as [|i ids IH]; intros [|n ns] [|r rs] [|v vs]; simpl; try easy.
  intros Hn Hr Hv. f_equal. apply IH; congruence.
Qed.

(** The derived columns are all there, or none: they are computed
    exactly on lists of well-formed coverage ids, one row per id, in the
    order of the ids; one id that does not hold ["___"], or holds no [Z]
    in the segment after it, raises [IndexError]. *)
Lemma derived_columns_all_or_nothing (ids : list string) :
  if forallb well_formed_id ids
  then exists catalog, derived_columns ids = Ok catalog /\ map cov_id catalog = ids
  else derived_columns ids = Raise IndexError.
Proof.
  assert (H3 : "___" <> "") by discriminate.
  assert (Hind : exists indicators, mapM indicator_of_id ids = Ok indicators).
  { apply mapM_all_Ok, Forall_forall. intros i _. unfold indicator_of_id.
    destruct (item_0_split "___" i H3) as [p Hp]. exists p. unfold item. now rewrite Hp. }
  destruct Hind as [indicators Hind]. unfold derived_columns. rewrite Hind, Ok_bind.
  destruct (forallb well_formed_id ids) eqn:Hwf.
  - rewrite forallb_forall in Hwf.
    destruct (mapM_all_Ok run_of_id ids) as [runs Hruns].
    { apply Forall_forall. intros i Hi. pose proof (decode_well_formed i) as Hd.
      rewrite (Hwf i (proj1 (list_elem_of_In _ _) Hi)) in Hd.
      destruct Hd as (r & _ & Hr & _). eauto. }
    destruct (mapM_all_Ok interval_of_id ids) as [intervals Hintervals].
    { apply Forall_forall. intros i Hi. pose proof (decode_well_formed i) as Hd.
      rewrite (Hwf i (proj1 (list_elem_of_In _ _) Hi)) in Hd.
      destruct Hd as (_ & v & _ & Hv). eauto. }
    rewrite Hruns, Hintervals, !Ok_bind. eexists. split; [reflexivity|].
    apply mapM_Ok_Forall2, Forall2_length in Hind, Hruns, Hintervals.
    now apply zip_catalog_ids.
  - assert (Hbad : Exists (fun i => well_formed_id i = false) ids).
    { clear -Hwf. induction ids as [|i ids IH]; [discriminate|]. simpl in Hwf.
      destruct (well_formed_id i) eqn:Hi; [right; auto | now left]. }
    destruct (mapM run_of_id ids) as [runs|e] eqn:Hruns.
    + rewrite Ok_bind.
      rewrite (mapM_first_error interval_of_id ids IndexError); [reflexivity| |].
      * apply Forall_forall. intros i _. pose proof (decode_well_formed i) as Hd.
        destruct (well_formed_id i).
        -- destruct Hd as (_ & v & _ & Hv). eauto.
        -- destruct Hd as [_|[_ Hv]]; [|now right].
           unfold interval_of_id, item.
           destruct (split "___" i !! 1%nat) as [seg|]; [|now right].
           rewrite Ok_bind. destruct (split "Z" seg !! 1%nat); [left; eauto | now right].
      * apply mapM_Ok_Forall2 in Hruns. clear -Hbad Hruns.
        induction Hruns as [|i r ids runs Hr _ IH]; [inversion Hbad|].
        apply Exists_cons in Hbad as [Hbad|Hbad]; [|right; auto]. left.
        pose proof (decode_well_formed i) as Hd. rewrite Hbad in Hd.
        destruct Hd as [Hd|[_ Hd]]; [congruence | assumption].
    + assert (e = IndexError) as ->; [|reflexivity].
      clear -Hruns. revert e Hruns. induction ids as [|i ids IH]; intros e; [discriminate|].
      cbn [mapM]. pose proof (decode_well_formed i) as Hd.
      destruct (run_of_id i) as [r|e'] eqn:Hr.
      * rewrite Ok_bind. destruct (mapM run_of_id ids) as [rs|e'']; [discriminate|].
        intros [= <-]. now apply IH.
      * intros [= <-]. destruct (well_formed_id i).
        -- destruct Hd as (? & ? & ? & _). discriminate.
        -- destruct Hd as [Hd|[[? ?] _]]; congruence.
Qed.


End CatalogEdges.

Section ResolverEdges.
Context {Cell : Type} (self : Forecast Cell).

(** X4. The errors of [_get_coverage_id] on the indicator, once the
    catalog is there. An indicator that is not in [INDICATORS] raises the
    unknown-indicator error, whatever the run and the interval. An
    indicator of [INDICATORS] that no row of the catalog bears raises
    [IndexError] when no run is given, and the invalid-run error for any
    given run of the right format (the format error otherwise). *)
Theorem resolver_indicator_errors (indicator : string) (interval : option string)
    (catalog : list CatalogEntry) :
  capabilities self = Ok catalog ->
  (indicator ∉ INDICATORS self ->
     forall run, _get_coverage_id self indicator run interval
                 = Raise (ValueError UnknownIndicator))
  /\ (indicator ∈ INDICATORS self ->
      (forall e, e ∈ catalog -> cov_indicator e <> indicator) ->
      _get_coverage_id self indicator None interval = Raise IndexError
      /\ forall r, _get_coverage_id self indicator (Some r) interval
                   = Raise (ValueError (if strptime_run self r
                                        then InvalidRun else InvalidRunFormat))).
Proof.
  intros Hcat. split.
  - intros Hout run. unfold _get_coverage_id, checked_run.
    rewrite Hcat, Ok_bind. now rewrite decide_True by assumption.
  - intros Hin Hnone.
    assert (Hrows : filter (fun e => cov_indicator e = indicator) catalog = []).
    { apply filter_none. intros e He. now apply Hnone. }
    split; [|intros r]; unfold _get_coverage_id, checked_run;
      rewrite Hcat, Ok_bind, Hrows; rewrite decide_False by (intros Hc; now apply Hc).
    + reflexivity.
    + rewrite Ok_bind. destruct (strptime_run self r); [|reflexivity].
      cbn [negb map unique]. rewrite decide_True; [reflexivity|].
      intros Hr. inversion Hr.
Qed.

End ResolverEdges.

(** ** The forecast-horizon helpers, together *)

Section HorizonsTogether.
Context {Cell : Type} (self : Forecast Cell).

Lemma get_forecast_horizons_eq (coverage_ids : list string) (hs : list (list Z)) :
  get_forecast_horizons self coverage_ids = Ok hs ->
  hs = map (available_horizons self) coverage_ids.
Proof.
  intros Hh. apply get_forecast_horizons_Ok in Hh.
  induction Hh as [|c h cs hs' [_ <-] _ IH]; [reflexivity|]. simpl. now f_equal.
Qed.

Lemma get_forecast_horizons_Permutation (coverage_ids coverage_ids' : list string)
    (hs : list (list Z)) :
  coverage_ids ≡ₚ coverage_ids' ->
  get_forecast_horizons self coverage_ids = Ok hs ->
  exists hs', get_forecast_horizons self coverage_ids' = Ok hs' /\ hs ≡ₚ hs'.
Proof.
  intros Hperm Hh. unfold get_forecast_horizons in *.
  apply mapM_Ok_Forall2 in Hh.
  destruct (Permutation_Forall2 Hperm Hh) as (hs' & Hhs' & Hall).
  exists hs'. split; [|assumption]. now apply Forall2_mapM_Ok.
Qed.

(** X5. When no coverage lists a forecast horizon twice, the common
    forecast horizons do not depend on the order of the coverage ids: the
    result is the sorted list, without repeat, of the horizons all the
    coverages list. *)
Theorem find_common_order_independent (coverage_ids coverage_ids' : list string)
    (hs : list (list Z)) :
  get_forecast_horizons self coverage_ids = Ok hs ->
  Forall NoDup hs ->
  coverage_ids ≡ₚ coverage_ids' ->
  find_common_forecast_horizons self coverage_ids'
  = find_common_forecast_horizons self coverage_ids
  /\ forall common, find_common_forecast_horizons self coverage_ids = Ok common ->
                    NoDup common.
Proof.
  intros Hh Hnd Hperm.
  destruct (get_forecast_horizons_Permutation _ _ _ Hperm Hh) as (hs' & Hh' & Hhs).
  assert (Hnd' : Forall NoDup hs') by now rewrite <- Hhs.
  assert (Hres : forall (first : list Z) (others : list (list Z)),
            NoDup first ->
            NoDup (sorted (filter (fun t => Forall (fun times => t ∈ times) others) first))).
  { intros first others Hf. rewrite sorted_Permutation. now apply NoDup_filter. }
  split.
  - destruct hs as [|first others].
    + apply Permutation_nil_l in Hhs as <-. unfold find_common_forecast_horizons.
      now rewrite Hh, Hh'.
    + destruct hs' as [|first' others'].
      { symmetry in Hhs. now apply Permutation_nil_cons in Hhs. }
      rewrite (find_common_eq self _ _ _ Hh), (find_common_eq self _ _ _ Hh').
      f_equal. apply (Sorted_unique_strong Z.le).
      * intros x1 x2 _ _. lia.
      * apply sorted_Sorted.
      * apply sorted_Sorted.
      * apply NoDup_Permutation.
        -- apply Hres. now apply Forall_cons in Hnd' as [? _].
        -- apply Hres. now apply Forall_cons in Hnd as [? _].
        -- intros t. rewrite !find_common_elem. now rewrite Hhs.
  - intros common Hc. destruct hs as [|first others].
    + unfold find_common_forecast_horizons in Hc. now rewrite Hh in Hc.
    + rewrite (find_common_eq self _ _ _ Hh) in Hc. injection Hc as <-.
      apply Hres. now apply Forall_cons in Hnd as [? _].
Qed.

Lemma validate_nil_iff (coverage_ids : list string) (hs : list (list Z))
    (horizons : list Z) :
  get_forecast_horizons self coverage_ids = Ok hs ->
  validate_forecast_horizons self coverage_ids horizons = Ok []
  <-> Forall (fun c => Forall (fun h => h ∈ available_horizons self c) horizons)
             coverage_ids.
Proof.
  intros Hhs. pose proof (get_forecast_horizons_eq _ _ Hhs) as Heq.
  unfold validate_forecast_horizons. rewrite Hhs, Ok_bind, Heq. clear.
  assert (Hvalid : map fst (filter (fun ct : string * list Z =>
                                      ¬ Forall (fun h => h ∈ ct.2) horizons)
                                   (zip coverage_ids
                                        (map (available_horizons self) coverage_ids))) = []
                   <-> Forall (fun c => Forall (fun h => h ∈ available_horizons self c)
                                               horizons) coverage_ids).
  { induction coverage_ids as [|c cs IH]; simpl.
    - split; [constructor | reflexivity].
    - rewrite filter_cons. simpl.
      destruct (decide (¬ Forall (fun h => h ∈ available_horizons self c) horizons))
        as [Hno|Hyes]; simpl.
      + split; [discriminate|]. intros Hall. apply Forall_cons in Hall as [? _].
        contradiction.
      + rewrite IH, Forall_cons. apply dec_stable in Hyes. tauto. }
  rewrite <- Hvalid. split; [now intros [= ->] | now intros ->].
Qed.

(** X6. The two helpers agree: when the coverage ids have the common
    forecast horizons [common], a list of horizons is valid for all of
    them ([validate_forecast_horizons] returns no coverage id) exactly
    when all its horizons are in [common]. *)
Theorem validate_iff_common (coverage_ids : list string) (common horizons : list Z) :
  find_common_forecast_horizons self coverage_ids = Ok common ->
  validate_forecast_horizons self coverage_ids horizons = Ok []
  <-> Forall (fun h => h ∈ common) horizons.
Proof.
  intros Hc. pose proof Hc as Hc'. unfold find_common_forecast_horizons in Hc'.
  apply bind_Ok in Hc' as (hs & Hhs & Hc').
  destruct hs as [|first others]; [discriminate|]. clear Hc'.
  rewrite (find_common_eq self _ _ _ Hhs) in Hc. injection Hc as <-.
  pose proof (get_forecast_horizons_eq _ _ Hhs) as Heq.
  rewrite (validate_nil_iff _ _ _ Hhs).
  split.
  - intros Hnil. apply Forall_forall. intros h Hh. apply find_common_elem.
    rewrite Heq, Forall_forall. intros times Htimes.
    apply elem_of_map in Htimes as (c & -> & Hc).
    rewrite Forall_forall in Hnil. specialize (Hnil c Hc).
    rewrite Forall_forall in Hnil. now apply Hnil.
  - intros Hall.
    apply Forall_forall. intros c Hc. apply Forall_forall. intros h Hh.
    rewrite Forall_forall in Hall. specialize (Hall h Hh).
    apply find_common_elem in Hall. rewrite Heq, Forall_forall in Hall.
    apply Hall, elem_of_map. eauto.
Qed.

End HorizonsTogether.

(** ** [get_combined_coverage] on degenerate inputs *)

Section CombinerEdges.
Context {Cell : Type} `{EqDecision Cell} `{PyInt Cell}.

Lemma length_remove_dups_le {A} `{EqDecision A} (l : list A) :
  (length (remove_dups l) <= length l)%nat.
Proof.
  induction l as [|x l IH]; simpl; [lia|].
  destruct (decide_rel elem_of x l); simpl; lia.
Qed.

Lemma length_remove_dups_NoDup {A} `{EqDecision A} (l : list A) :
  length l = length (remove_dups l) <-> NoDup l.
Proof.
  induction l as [|x l IH]; simpl.
  - split; [constructor | reflexivity].
  - rewrite NoDup_cons. pose proof (length_remove_dups_le l).
    destruct (decide_rel elem_of x l); simpl.
    + split; [lia | tauto].
    + rewrite <- IH. split; [intros [= ?]; tauto | intros [_ ->]; reflexivity].
Qed.

Lemma resolve_no_indicator (self : Forecast Cell) (heights pressures : list Z)
    (intervals : option (list string)) (horizons : list Z) (runs : list string)
    (d : RunDict) :
  Forall (fun kv => kv.2 = []) d ->
  exists d', foldlM (resolve_run self [] heights pressures intervals) (d, Some horizons) runs
             = Ok (d', Some horizons)
             /\ Forall (fun kv => kv.2 = []) d'
             /\ (runs <> [] -> d' <> []).
Proof.
  revert d. induction runs as [|run runs IH]; intros d Hd.
  - exists d. split; [reflexivity|]. split; [assumption | congruence].
  - assert (Hd' : Forall (fun kv : string * list Target => kv.2 = [])
                         (dict_setdefault d run)).
    { unfold dict_setdefault. destruct (dict_get d run); [assumption|].
      apply Forall_app. split; [assumption|]. now constructor. }
    assert (Hne : dict_setdefault d run <> []).
    { unfold dict_setdefault. destruct (dict_get d run) eqn:Hget.
      - destruct d; [discriminate | congruence].
      - now destruct d. }
    destruct (IH _ Hd') as (d' & Hfold & Hnil & Hkeep).
    exists d'. split; [|split; [assumption|]].
    + cbn [foldlM resolve_run enumerate imap]. now rewrite !Ok_bind.
    + intros _. destruct runs as [|run' runs]; [|apply Hkeep; congruence].
      cbn [foldlM] in Hfold. injection Hfold as <-. assumption.
Qed.

(** X7. [get_combined_coverage] on degenerate inputs. A run given twice
    raises the duplicate-run error, before any other check and whatever
    the other arguments. With no run at all, and lists of the right
    lengths, it raises the error of [pd.concat] on an empty list. With
    distinct runs, at least one, and no indicator name, it raises
    [IndexError] when no forecast horizon is given, and [TypeError] (the
    reduction of an empty list) when forecast horizons are given. *)
Theorem combined_coverage_degenerate_inputs (self : Forecast Cell)
    (indicator_names runs : list string) (heights pressures : option (list Z))
    (intervals : option (list string)) (lat long : Cell * Cell)
    (forecast_horizons : option (list Z)) :
  (¬ NoDup runs ->
     get_combined_coverage self indicator_names runs heights pressures intervals
                           lat long forecast_horizons
     = Raise (ValueError DuplicateRun))
  /\ (match heights with Some hs => length hs = length indicator_names | None => True end ->
      match pressures with Some ps => length ps = length indicator_names | None => True end ->
      default [] intervals = [] \/ length (default [] intervals) = length indicator_names ->
      get_combined_coverage self indicator_names [] heights pressures intervals
                            lat long forecast_horizons
      = Raise (ValueError NoObjectsToConcatenate))
  /\ (NoDup runs -> runs <> [] ->
      default [] heights = [] -> default [] pressures = [] -> default [] intervals = [] ->
      get_combined_coverage self [] runs heights pressures intervals lat long None
      = Raise IndexError
      /\ forall horizons,
           get_combined_coverage self [] runs heights pressures intervals
                                 lat long (Some horizons)
           = Raise TypeError).
Proof.
  assert (Hint : forall names : list string,
            default [] intervals = [] \/ length (default [] intervals) = length names ->
            nonempty intervals
            && bool_decide (length (default [] intervals) ≠ length names) = false).
  { intros names [Hnil| Hlen].
    - destruct intervals as [[|]|]; try discriminate; reflexivity.
    - rewrite bool_decide_eq_false_2 by (intros Hc; now apply Hc).
      apply andb_false_r. }
  split; [|split].
  - intros Hdup. unfold get_combined_coverage.
    rewrite decide_True; [reflexivity|].
    intros Hlen. now apply Hdup, length_remove_dups_NoDup.
  - intros Hh Hp Hi. unfold get_combined_coverage.
    rewrite decide_False by (intros Hc; now apply Hc).
    destruct heights as [hs|];
      [rewrite (decide_False (P := length hs ≠ length indicator_names))
         by (intros Hc; now apply Hc)|];
      (destruct pressures as [ps|];
       [rewrite (decide_False (P := length ps ≠ length indicator_names))
          by (intros Hc; now apply Hc)|]);
      rewrite !Ok_bind, (Hint _ Hi); cbn [foldlM]; rewrite Ok_bind;
      destruct forecast_horizons; reflexivity.
  - intros Hnd Hne Hh Hp Hi.
    assert (Hrest : forall fh,
              get_combined_coverage self [] runs heights pressures intervals lat long fh
              = ('(coverage_ids_by_run, forecast_horizons) ←
                   foldlM (resolve_run self [] [] [] intervals) ([], fh) runs;
                 _ ← match forecast_horizons with
                     | Some horizons =>
                         let coverage_ids :=
                           run_coverage ← map snd coverage_ids_by_run;
                           map (fun t => t.1.1) run_coverage in
                         invalid_coverage_ids ←
                           validate_forecast_horizons self coverage_ids horizons;
                         match invalid_coverage_ids with
                         | [] => Ok ()
                         | _ => Raise (ValueError
                                         (InvalidForecastHorizons horizons
                                            invalid_coverage_ids))
                         end
                     | None => Ok ()
                     end;
                 coverages_by_run ←
                   mapM (combine_run self lat long forecast_horizons) coverage_ids_by_run;
                 final_df ← concat (map snd coverages_by_run);
                 Ok (reset_index final_df))).
    { intros fh. unfold get_combined_coverage.
      rewrite decide_False
        by (intros Hc; apply Hc; now apply length_remove_dups_NoDup).
      rewrite (Hint [] (or_introl Hi)).
      destruct heights as [hs|], pressures as [ps|]; simpl in Hh, Hp; subst;
        try rewrite !(decide_False (P := length (@nil Z) ≠ length (@nil string)))
          by (intros Hc; now apply Hc);
        reflexivity. }
    split; [|intros horizons]; rewrite Hrest.
    + destruct runs as [|run runs]; [congruence|].
      cbn [foldlM resolve_run]. unfold dict_setdefault.
      cbn [dict_get app enumerate imap foldlM]. rewrite Ok_bind. cbn [dict_get].
      rewrite decide_True by reflexivity. reflexivity.
    + destruct (resolve_no_indicator self [] [] intervals horizons runs [])
        as (d & Hfold & Hnil & Hkeep); [constructor|].
      specialize (Hkeep Hne). unfold RunDict, Target in *. rewrite Hfold, Ok_bind.
      assert (Hids : (run_coverage ← map snd d;
                      map (fun t : string * option Z * option Z => t.1.1) run_coverage)
                     = []).
      { clear Hkeep Hfold. induction Hnil as [|[k v] d' Hv _ IH]; [reflexivity|].
        simpl in Hv. subst v. exact IH. }
      cbv zeta. rewrite Hids.
      destruct d as [|[run targets] d]; [congruence|].
      apply Forall_cons in Hnil as [Htargets _]. simpl in Htargets. subst targets.
      reflexivity.
Qed.

End CombinerEdges.

(** ** What a combined coverage is made of *)

Section CombinerStructure.
Context {Cell : Type} `{EqDecision Cell} `{PyInt Cell}.

Lemma dict_get_absent {V} (d : list (string * V)) (k : string) :
  k ∉ map fst d -> dict_get d k = Raise KeyError.
Proof.
  induction d as [|[k' v] d IH]; [reflexivity|]. simpl. intros Hk.
  apply not_elem_of_cons in Hk as [Hne Hk].
  rewrite decide_False by congruence. now apply IH.
Qed.

Lemma dict_append_last (d0 : RunDict) (k : string) (acc : list Target) (t : Target) :
  k ∉ map fst d0 ->
  dict_append (d0 ++ [(k, acc)])%list k t = Ok (d0 ++ [(k, (acc ++ [t])%list)])%list.
Proof.
  induction d0 as [|[k' v] d0 IH]; simpl; intros Hk.
  - now rewrite decide_True.
  - apply not_elem_of_cons in Hk as [Hne Hk].
    rewrite decide_False by congruence. now rewrite IH.
Qed.

Lemma resolve_indicators_Ok (self : Forecast Cell) (heights pressures : list Z)
    (intervals : option (list string)) (run : string) (entries : list (nat * string))
    (d0 : RunDict) (acc : list Target) (d : RunDict) :
  run ∉ map fst d0 ->
  foldlM (resolve_indicator self heights pressures intervals run)
         (d0 ++ [(run, acc)])%list entries = Ok d ->
  exists targets,
    d = (d0 ++ [(run, (acc ++ targets)%list)])%list
    /\ Forall2 (resolved self heights pressures (default [] intervals) run) entries targets.
Proof.
  intros Hrun. revert acc. induction entries as [|[i indicator] entries IH]; intros acc Hd.
  - injection Hd as <-. exists []. rewrite app_nil_r. split; [reflexivity | constructor].
  - cbn [foldlM] in Hd. apply bind_Ok in Hd as (d1 & Hstep & Hd).
    unfold resolve_indicator in Hstep.
    apply bind_Ok in Hstep as (h & Hh & Hstep).
    apply bind_Ok in Hstep as (p & Hp & Hstep).
    apply bind_Ok in Hstep as (iv & Hiv & Hstep).
    apply bind_Ok in Hstep as (cid & Hcid & Hstep).
    rewrite dict_append_last in Hstep by assumption. injection Hstep as <-.
    apply IH in Hd as (targets & -> & Hall).
    exists ((cid, h, p) :: targets). rewrite <- app_assoc. split; [reflexivity|].
    constructor; [|exact Hall]. unfold resolved. cbn [fst snd].
    assert (Hlookup : forall (A : Type) (l : list A) (cond : bool) (v : option A),
              (cond = false -> l = []) ->
              (if cond then Some <$> item l i else Ok None) = Ok v -> v = l !! i).
    { intros A l cond v Hcond Hv. destruct cond.
      - apply fmap_Ok in Hv as (a & Ha & ->). apply item_Ok in Ha. now rewrite Ha.
      - injection Hv as <-. now rewrite Hcond. }
    split; [|split].
    + rewrite <- (Hlookup _ (default [] intervals) (nonempty intervals) iv); [exact Hcid| |exact Hiv].
      now destruct intervals as [[|]|].
    + apply (Hlookup _ heights (bool_decide (heights ≠ [])) h).
      * intros Hc. apply bool_decide_eq_false in Hc. now apply dec_stable in Hc.
      * rewrite <- Hh. now destruct (decide (heights ≠ [])); 
          [rewrite bool_decide_eq_true_2 | rewrite bool_decide_eq_false_2].
    + apply (Hlookup _ pressures (bool_decide (pressures ≠ [])) p).
      * intros Hc. apply bool_decide_eq_false in Hc. now apply dec_stable in Hc.
      * rewrite <- Hp. now destruct (decide (pressures ≠ []));
          [rewrite bool_decide_eq_true_2 | rewrite bool_decide_eq_false_2].
Qed.

Lemma resolve_runs_Ok (self : Forecast Cell) (indicator_names : list string)
    (heights pressures : list Z) (intervals : option (list string)) (horizons : list Z)
    (runs : list string) (d0 d : RunDict) (forecast_horizons : option (list Z)) :
  NoDup runs -> (forall run, run ∈ runs -> run ∉ map fst d0) ->
  foldlM (resolve_run self indicator_names heights pressures intervals)
         (d0, Some horizons) runs = Ok (d, forecast_horizons) ->
  forecast_horizons = Some horizons
  /\ exists targets : list (list Target),
       d = (d0 ++ zip runs targets)%list
       /\ Forall2 (fun run run_targets =>
                     Forall2 (resolved self heights pressures (default [] intervals) run)
                             (enumerate indicator_names) run_targets)
                  runs targets.
Proof.
  intros Hnd. revert d0. induction Hnd as [|run runs Hrun Hnd IH]; intros d0 Hfresh Hd.
  - injection Hd as <- <-. split; [reflexivity|]. exists []. rewrite app_nil_r.
    split; [reflexivity | constructor].
  - cbn [foldlM] in Hd. apply bind_Ok in Hd as ([d1 fh] & Hstep & Hd).
    unfold resolve_run in Hstep.
    apply bind_Ok in Hstep as (d1' & Hinner & Hstep). injection Hstep as <- <-.
    assert (Hd0 : run ∉ map fst d0) by (apply Hfresh; constructor).
    unfold dict_setdefault in Hinner. rewrite (dict_get_absent _ _ Hd0) in Hinner.
    apply (resolve_indicators_Ok _ _ _ _ _ _ _ [] _ Hd0) in Hinner
      as (run_targets & -> & Hresolved).
    apply IH in Hd as (-> & targets & -> & Hall).
    + split; [reflexivity|]. exists (run_targets :: targets).
      rewrite <- app_assoc. split; [reflexivity|]. now constructor.
    + intros run' Hrun'. rewrite map_app, elem_of_app. cbn [map fst].
      intros [Hin|Hin].
      * revert Hin. apply Hfresh. now constructor.
      * apply list_elem_of_singleton in Hin. congruence.
Qed.

Lemma combine_runs_Ok (self : Forecast Cell) (lat long : Cell * Cell)
    (forecast_horizons : option (list Z)) (d : RunDict)
    (coverages_by_run : list (string * DataFrame Cell)) :
  mapM (combine_run self lat long forecast_horizons) d = Ok coverages_by_run ->
  exists tables : list (list (DataFrame Cell)),
    Forall2 (fun run_targets run_tables =>
               Forall2 (fun t table => fetch_target self lat long forecast_horizons t
                                       = Ok table) run_targets run_tables)
            (map snd d) tables
    /\ Forall2 (fun run_tables merged => reduce merge_on_keys run_tables = Ok merged)
               tables (map snd coverages_by_run).
Proof.
  intros Hmap. apply mapM_Ok_Forall2 in Hmap.
  induction Hmap as [|[run run_targets] [run' merged] d cbr Hone _ (tables & Hf & Hm)].
  - exists []. split; constructor.
  - unfold combine_run in Hone.
    apply bind_Ok in Hone as (run_tables & Hfetch & Hone).
    apply bind_Ok in Hone as (merged' & Hreduce & [= <- <-]).
    exists (run_tables :: tables). split; constructor; try assumption.
    now apply mapM_Ok_Forall2.
Qed.

Lemma combined_coverage_made_of (self : Forecast Cell)
    (indicator_names runs : list string) (heights pressures : option (list Z))
    (intervals : option (list string)) (lat long : Cell * Cell) (horizons : list Z)
    (df : DataFrame Cell) :
  get_combined_coverage self indicator_names runs heights pressures intervals
                        lat long (Some horizons) = Ok df ->
  made_of self indicator_names runs heights pressures intervals lat long horizons df.
Proof.
  intros Hdf. unfold made_of. unfold get_combined_coverage in Hdf.
  destruct (decide (length runs ≠ length (remove_dups runs))) as [|Hnd]; [discriminate|].
  apply dec_stable, length_remove_dups_NoDup in Hnd. split; [exact Hnd|].
  apply bind_Ok in Hdf as (hs & Hhs & Hdf).
  assert (hs = default [] heights) as ->.
  { destruct heights as [l|]; simpl in *; [|congruence].
    destruct (decide (length l ≠ length indicator_names)); congruence. }
  apply bind_Ok in Hdf as (ps & Hps & Hdf).
  assert (ps = default [] pressures) as ->.
  { destruct pressures as [l|]; simpl in *; [|congruence].
    destruct (decide (length l ≠ length indicator_names)); congruence. }
  destruct (nonempty intervals
            && bool_decide (length (default [] intervals) ≠ length indicator_names));
    [discriminate|].
  apply bind_Ok in Hdf as ([d fh] & Hfold & Hdf).
  apply resolve_runs_Ok in Hfold as (-> & targets & -> & Hresolved);
    [|assumption|intros run _ Hc; inversion Hc].
  rewrite app_nil_l in Hdf.
  assert (Hsnd : map snd (zip runs targets) = targets).
  { apply snd_zip. apply Forall2_length in Hresolved. lia. }
  apply bind_Ok in Hdf as (u & Hvalid & Hdf).
  apply bind_Ok in Hvalid as (invalid & Hinvalid & Hnone).
  destruct invalid; [|discriminate]. cbv zeta in Hinvalid.
  unfold RunDict, Target in *. rewrite Hsnd in Hinvalid.
  assert (Havailable : Forall (Forall (fun t : string * option Z * option Z =>
                                 Forall (fun h => h ∈ available_horizons self t.1.1)
                                        horizons)) targets).
  { pose proof Hinvalid as Hh. unfold validate_forecast_horizons in Hh.
    apply bind_Ok in Hh as (hss & Hhss & _).
    apply (validate_nil_iff self _ _ _ Hhss) in Hinvalid. clear -Hinvalid.
    induction targets as [|ts targets IH]; [constructor|].
    cbn [mbind list_bind] in Hinvalid. apply Forall_app in Hinvalid as [Hts Hrest].
    constructor; [|now apply IH].
    now apply Forall_map in Hts. }
  apply bind_Ok in Hdf as (cbr & Hcombine & Hdf).
  apply combine_runs_Ok in Hcombine as (tables & Hfetch & Hreduce).
  unfold RunDict, Target in *. rewrite Hsnd in Hfetch.
  apply bind_Ok in Hdf as (final & Hconcat & [= <-]).
  apply concat_Ok in Hconcat as (_ & Hcols & Hrows).
  exists targets, tables, (map snd cbr).
  do 4 (split; [assumption|]). split; [exact Hcols|].
  unfold reset_index. cbn [rows]. now rewrite Hrows, rows_concat.
Qed.

(** X8. What a successful [get_combined_coverage] with given forecast
    horizons is made of. The runs are distinct. For every run, in the
    order of [runs], and every indicator name, in the order of
    [indicator_names], the coverage id is resolved for that run with the
    interval at the position of the indicator; the given horizons are all
    available for it; its table is fetched with the height and the
    pressure at the position of the indicator, and the given horizons.
    The tables of a run are joined from left to right, and the rows of
    the result are the rows of the joined tables, run after run, indexed
    0, 1, 2, ... *)
Theorem combined_coverage_structure (self : Forecast Cell)
    (indicator_names runs : list string) (heights pressures : option (list Z))
    (intervals : option (list string)) (lat long : Cell * Cell) (horizons : list Z)
    (df : DataFrame Cell) :
  get_combined_coverage self indicator_names runs heights pressures intervals
                        lat long (Some horizons) = Ok df ->
  NoDup runs
  /\ exists (targets : list (list Target)) (tables : list (list (DataFrame Cell)))
            (merged : list (DataFrame Cell)),
       Forall2 (fun run run_targets =>
                  Forall2 (resolved self (default [] heights) (default [] pressures)
                                    (default [] intervals) run)
                          (enumerate indicator_names) run_targets)
               runs targets
       /\ Forall (Forall (fun t : Target =>
                            Forall (fun h => h ∈ available_horizons self t.1.1) horizons))
                 targets
       /\ Forall2 (fun run_targets run_tables =>
                     Forall2 (fun t table =>
                                fetch_target self lat long (Some horizons) t = Ok table)
                             run_targets run_tables)
                  targets tables
       /\ Forall2 (fun run_tables m => reduce merge_on_keys run_tables = Ok m) tables merged
       /\ columns df = union_columns merged
       /\ rows df = range_index (flat_map (fun m => map snd (rows m)) merged).
Proof. apply combined_coverage_made_of. Qed.

Lemma resolve_runs_keep (self : Forecast Cell) (indicator_names : list string)
    (hs ps : list Z) (intervals : option (list string)) (horizons : list Z)
    (runs : list string) (d d' : RunDict) (fh : option (list Z)) :
  foldlM (resolve_run self indicator_names hs ps intervals) (d, Some horizons) runs
  = Ok (d', fh) ->
  fh = Some horizons.
Proof.
  revert d. induction runs as [|run runs IH]; intros d Hd.
  - now injection Hd as _ <-.
  - cbn [foldlM] in Hd. apply bind_Ok in Hd as ([d1 fh1] & Hstep & Hd).
    apply resolve_run_keeps in Hstep as ->. now apply IH in Hd.
Qed.

(** C2. [get_combined_coverage] without forecast horizons. Let the
    coverage ids of the first run resolve and have common forecast
    horizons, sorted as [common], of which [first] is the head. The loop
    leaves the first run with the horizons [[first]], and every later run
    keeps them: nothing is computed from the later runs. The call does
    what the call with the single horizon [first] does, the same result
    or the same error: when it returns, the result is made of the tables
    of all the runs fetched for [first]; and when [first] is not
    available for a coverage of some run, it raises the error of the
    invalid forecast horizons for [[first]]. [common] holds exactly the
    horizons available for every coverage id of the first run, and
    [first] is the smallest of them. *)
Theorem default_horizon_from_first_run (self : Forecast Cell)
    (indicator_names : list string)
    (run : string) (runs : list string) (heights pressures : option (list Z))
    (intervals : option (list string)) (lat long : Cell * Cell)
    (d1 : RunDict) (targets : list Target) (common : list Z) (first : Z) :
  foldlM (resolve_indicator self (default [] heights) (default [] pressures) intervals run)
         [(run, [])] (enumerate indicator_names) = Ok d1 ->
  dict_get d1 run = Ok targets ->
  find_common_forecast_horizons self (map (fun t => t.1.1) targets) = Ok common ->
  common !! 0%nat = Some first ->
  resolve_run self indicator_names (default [] heights) (default [] pressures) intervals
              ([], None) run
  = Ok (d1, Some [first])
  /\ (forall later d d' fh,
        foldlM (resolve_run self indicator_names (default [] heights) (default [] pressures)
                            intervals)
               (d, Some [first]) later = Ok (d', fh) ->
        fh = Some [first])
  /\ get_combined_coverage self indicator_names (run :: runs) heights pressures intervals
                           lat long None
     = get_combined_coverage self indicator_names (run :: runs) heights pressures intervals
                             lat long (Some [first])
  /\ (forall df,
        get_combined_coverage self indicator_names (run :: runs) heights pressures
                              intervals lat long None = Ok df ->
        made_of self indicator_names (run :: runs) heights pressures intervals
                lat long [first] df)
  /\ (forall d invalid,
        NoDup (run :: runs) ->
        match heights with Some hs => length hs = length indicator_names | None => True end ->
        match pressures with Some ps => length ps = length indicator_names | None => True end ->
        default [] intervals = [] \/ length (default [] intervals) = length indicator_names ->
        foldlM (resolve_run self indicator_names (default [] heights) (default [] pressures)
                            intervals)
               (d1, Some [first]) runs = Ok (d, Some [first]) ->
        validate_forecast_horizons self
          (run_coverage ← map snd d; map (fun t => t.1.1) run_coverage) [first]
        = Ok invalid ->
        invalid <> [] ->
        get_combined_coverage self indicator_names (run :: runs) heights pressures
                              intervals lat long None
        = Raise (ValueError (InvalidForecastHorizons [first] invalid)))
  /\ Sorted Z.le common
  /\ (forall t, t ∈ common <->
                Forall (fun c => t ∈ available_horizons self c)
                       (map (fun t => t.1.1) targets))
  /\ (forall t, t ∈ common -> first <= t).
Proof.
  intros Hd1 Htargets Hcommon Hfirst.
  destruct (find_common_Ok self _ _ Hcommon) as [Hsorted Hin].
  assert (Hstep : resolve_run self indicator_names (default [] heights)
                              (default [] pressures) intervals ([], None) run
                  = Ok (d1, Some [first])).
  { unfold resolve_run, dict_setdefault. cbn [dict_get app].
    unfold Target, RunDict in *.
    rewrite Hd1, !Ok_bind, Htargets, Ok_bind, Hcommon, Ok_bind.
    unfold item. now rewrite Hfirst. }
  assert (Hgiven : resolve_run self indicator_names (default [] heights)
                               (default [] pressures) intervals ([], Some [first]) run
                   = Ok (d1, Some [first])).
  { unfold resolve_run, dict_setdefault. cbn [dict_get app].
    unfold Target, RunDict in *. now rewrite Hd1, !Ok_bind. }
  assert (Heq : forall hs ps,
            hs = default [] heights -> ps = default [] pressures ->
            resolve_run self indicator_names hs ps intervals ([], None) run
            = resolve_run self indicator_names hs ps intervals ([], Some [first]) run).
  { intros hs ps -> ->. now rewrite Hstep, Hgiven. }
  assert (Hsame : get_combined_coverage self indicator_names (run :: runs) heights
                                        pressures intervals lat long None
                  = get_combined_coverage self indicator_names (run :: runs) heights
                                          pressures intervals lat long (Some [first])).
  { unfold get_combined_coverage.
    destruct (decide (length (run :: runs) ≠ length (remove_dups (run :: runs))));
      [reflexivity|].
    destruct heights as [hs|];
      [destruct (decide (length hs ≠ length indicator_names)); [reflexivity|]|];
      rewrite Ok_bind;
      (destruct pressures as [ps|];
       [destruct (decide (length ps ≠ length indicator_names)); [reflexivity|]|];
       rewrite Ok_bind;
       (destruct (nonempty intervals && _); [reflexivity|];
        cbn [foldlM]; now rewrite Heq)). }
  split; [exact Hstep|]. split; [intros later d d' fh; apply resolve_runs_keep|].
  split; [exact Hsame|]. split; [|split; [|split; [exact Hsorted|split; [exact Hin|]]]].
  - intros df Hdf. rewrite Hsame in Hdf. now apply combined_coverage_made_of.
  - intros d invalid Hnd Hh Hp Hi Hfold Hinvalid Hne.
    unfold get_combined_coverage.
    rewrite decide_False
      by (intros Hc; apply Hc; now apply length_remove_dups_NoDup).
    assert (Hint : nonempty intervals
                   && bool_decide (length (default [] intervals) ≠ length indicator_names)
                   = false).
    { destruct Hi as [Hnil|Hlen].
      - destruct intervals as [[|]|]; try discriminate; reflexivity.
      - rewrite bool_decide_eq_false_2 by (intros Hc; now apply Hc).
        apply andb_false_r. }
    assert (Hrest : forall hs ps,
              hs = default [] heights -> ps = default [] pressures ->
              foldlM (resolve_run self indicator_names hs ps intervals) ([], None)
                     (run :: runs)
              = Ok (d, Some [first])).
    { intros hs ps -> ->. cbn [foldlM]. now rewrite Hstep, Ok_bind. }
    destruct heights as [hs|];
      [rewrite (decide_False (P := length hs ≠ length indicator_names))
         by (intros Hc; now apply Hc)|];
      (destruct pressures as [ps|];
       [rewrite (decide_False (P := length ps ≠ length indicator_names))
          by (intros Hc; now apply Hc)|]);
      rewrite !Ok_bind, Hint; unfold Target, RunDict in *;
      rewrite Hrest by reflexivity; rewrite Ok_bind; cbv zeta;
      rewrite Hinvalid, Ok_bind; (destruct invalid; [congruence | reflexivity]).
  - destruct common as [|c common]; [discriminate|]. injection Hfirst as ->.
    now apply Sorted_head_le.
Qed.

(** X9. [get_combined_coverage] without forecast horizons, when the
    coverages of the first run share none. With distinct runs and lists of
    the right lengths, when the coverage ids of the first run resolve but
    no forecast horizon is available for all of them, the call raises
    [IndexError]: nothing is fetched, and the other runs are not looked
    at. *)
Theorem combined_coverage_no_common_horizon (self : Forecast Cell)
    (indicator_names : list string) (run : string) (runs : list string)
    (heights pressures : option (list Z)) (intervals : option (list string))
    (lat long : Cell * Cell) (d1 : RunDict) (targets : list Target) :
  NoDup (run :: runs) ->
  match heights with Some hs => length hs = length indicator_names | None => True end ->
  match pressures with Some ps => length ps = length indicator_names | None => True end ->
  default [] intervals = [] \/ length (default [] intervals) = length indicator_names ->
  foldlM (resolve_indicator self (default [] heights) (default [] pressures) intervals run)
         [(run, [])] (enumerate indicator_names) = Ok d1 ->
  dict_get d1 run = Ok targets ->
  find_common_forecast_horizons self (map (fun t => t.1.1) targets) = Ok [] ->
  get_combined_coverage self indicator_names (run :: runs) heights pressures intervals
                        lat long None
  = Raise IndexError
  /\ forall t, ¬ Forall (fun c => t ∈ available_horizons self c)
                        (map (fun t => t.1.1) targets).
Proof.
  intros Hnd Hh Hp Hi Hd1 Htargets Hcommon. split.
  - unfold get_combined_coverage.
    rewrite decide_False
      by (intros Hc; apply Hc; now apply length_remove_dups_NoDup).
    assert (Hint : nonempty intervals
                   && bool_decide (length (default [] intervals) ≠ length indicator_names)
                   = false).
    { destruct Hi as [Hnil|Hlen].
      - destruct intervals as [[|]|]; try discriminate; reflexivity.
      - rewrite bool_decide_eq_false_2 by (intros Hc; now apply Hc).
        apply andb_false_r. }
    assert (Hstep : forall hs ps,
              hs = default [] heights -> ps = default [] pressures ->
              resolve_run self indicator_names hs ps intervals ([], None) run
              = Raise IndexError).
    { intros hs ps -> ->. unfold resolve_run, dict_setdefault.
      cbn [dict_get app].
      unfold Target, RunDict in *.
      now rewrite Hd1, !Ok_bind, Htargets, Ok_bind, Hcommon, Ok_bind. }
    destruct heights as [hs|];
      [rewrite (decide_False (P := length hs ≠ length indicator_names))
         by (intros Hc; now apply Hc)|];
      (destruct pressures as [ps|];
       [rewrite (decide_False (P := length ps ≠ length indicator_names))
          by (intros Hc; now apply Hc)|]);
      rewrite !Ok_bind, Hint; cbn [foldlM]; now rewrite Hstep.
  - intros t Ht. destruct (find_common_Ok self _ _ Hcommon) as [_ Hin].
    apply Hin in Ht. inversion Ht.
Qed.

End CombinerStructure.

(** ** The keys of joined tables *)

Section JoinKeys.
Context {Cell : Type} `{EqDecision Cell} `{PyInt Cell}.

(** No key label ends with a suffix of the join. *)
Lemma suffix_not_key (c' suffix c : string) :
  c ∈ join_keys -> suffix = "_x" \/ suffix = "_y" -> c' +:+ suffix <> c.
Proof.
  intros Hc Hs Heq. unfold join_keys in Hc.
  repeat (apply elem_of_cons in Hc as [->|Hc]); [| | | |inversion Hc];
    destruct Hs as [-> | ->];
    repeat (destruct c' as [|? c'];
            [rewrite PyStrFacts.app_nil_l in Heq; discriminate|];
            rewrite PyStrFacts.app_cons in Heq;
            first [discriminate | injection Heq as _ Heq]).
Qed.

Lemma suffixed_key (others : list string) (suffix c' c : string) :
  c ∈ join_keys -> suffix = "_x" \/ suffix = "_y" ->
  suffixed join_keys others suffix c' = c <-> c' = c.
Proof.
  intros Hc Hs. unfold suffixed.
  destruct (decide ((c' ∉ join_keys) /\ (c' ∈ others))) as [[Hout _]|Hno].
  - split; [intros Heq; now apply suffix_not_key in Heq | intros ->; contradiction].
  - reflexivity.
Qed.

Lemma cell_app (r r' : Row Cell) (c : string) :
  cell (r ++ r')%list c = match cell r c with Some v => Some v | None => cell r' c end.
Proof.
  induction r as [|[c' v] r IH]; [reflexivity|]. simpl.
  now destruct (decide (c' = c)).
Qed.

Lemma cell_relabel (f : string -> string) (r : Row Cell) (c : string) :
  (forall c', f c' = c <-> c' = c) ->
  cell (map (fun cv => (f cv.1, cv.2)) r) c = cell r c.
Proof.
  intros Hf. induction r as [|[c' v] r IH]; [reflexivity|]. simpl.
  destruct (decide (c' = c)) as [Heq|Hne].
  - now rewrite decide_True by exact (proj2 (Hf c') Heq).
  - rewrite decide_False; [exact IH|]. intros Heq. exact (Hne (proj1 (Hf c') Heq)).
Qed.

Lemma cell_no_label (r : Row Cell) (c : string) :
  Forall (fun cv => cv.1 <> c) r -> cell r c = None.
Proof.
  induction 1 as [|[c' v] r Hne _ IH]; [reflexivity|]. simpl.
  now rewrite decide_False.
Qed.

(** A joined row has the key of its left row. *)
Lemma key_of_join_rows (lcols rcols : list string) (l r : Row Cell) :
  key_of join_keys (join_rows join_keys lcols rcols l r) = key_of join_keys l.
Proof.
  unfold key_of. apply Forall_fmap_ext, Forall_forall. intros c Hc.
  unfold join_rows. rewrite cell_app, cell_relabel.
  - destruct (cell l c); [reflexivity|]. apply cell_no_label.
    apply Forall_forall. intros [c' v] Hin. apply elem_of_map in Hin as ([c'' v'] & [= -> ->] & Hin).
    apply list_elem_of_filter in Hin as [Hout _]. cbn [fst] in *.
    intros Heq. apply suffixed_key in Heq; [|assumption|now right]. congruence.
  - intros c'. apply suffixed_key; [assumption | now left].
Qed.

Lemma keys_flat_map (on : list string) (lcols rcols : list string)
    (ls rs : list (Row Cell)) :
  on = join_keys -> NoDup (map (key_of on) rs) ->
  map (key_of on)
      (flat_map (fun l => map (join_rows on lcols rcols l)
                              (filter (fun r => key_of on r = key_of on l) rs)) ls)
  = filter (fun k => k ∈ map (key_of on) rs) (map (key_of on) ls).
Proof.
  intros Hon Hr. induction ls as [|l ls IH]; [reflexivity|].
  cbn [flat_map map]. rewrite map_app, IH, filter_cons, map_map. clear IH.
  destruct (decide (key_of on l ∈ map (key_of on) rs)) as [Hin|Hout].
  - pose proof (length_filter_key _ _ _ Hr Hin) as Hlen.
    destruct (filter (fun r => key_of on r = key_of on l) rs) as [|r [|]];
      try discriminate.
    cbn [map app]. subst on. now rewrite key_of_join_rows.
  - rewrite filter_none; [reflexivity|].
    intros r Hr' Heq. apply Hout. rewrite <- Heq. apply elem_of_map. eauto.
Qed.

Lemma keys_merge (left right df : DataFrame Cell) :
  merge_on_keys left right = Ok df ->
  NoDup (keys join_keys left)
  /\ NoDup (keys join_keys right)
  /\ Forall (fun c => c ∈ columns df) join_keys
  /\ keys join_keys df
     = filter (fun k => k ∈ keys join_keys right) (keys join_keys left).
Proof.
  unfold merge_on_keys, merge_one_to_one.
  destruct (decide (Forall (fun c => (c ∈ columns left) /\ (c ∈ columns right)) join_keys))
    as [Hcols|]; [|discriminate].
  destruct (decide (NoDup (keys join_keys left) /\ NoDup (keys join_keys right)))
    as [[Hl Hr]|]; [|discriminate].
  cbv zeta. destruct (decide (_ /\ _)) as [_|]; [|discriminate].
  intros Hdf. split; [exact Hl|]. split; [exact Hr|].
  assert (Hsnd : forall (A : Type) (l : list A),
            map snd (imap (fun i x => (Z.of_nat i, x)) l) = l).
  { intros A l. apply list_eq. intros i.
    rewrite list_lookup_fmap, list_lookup_imap. now destruct (l !! i). }
  rewrite keys_rows in Hr. injection Hdf as <-. split.
  - cbn [columns]. apply Forall_forall. intros c Hc.
    rewrite Forall_forall in Hcols. destruct (Hcols c Hc) as [Hcl _].
    apply elem_of_app. left. apply elem_of_map. exists c. split; [|exact Hcl].
    symmetry. now apply suffixed_key; [|left|].
  - rewrite !keys_rows. unfold range_index. cbn [rows]. rewrite Hsnd.
    exact (keys_flat_map join_keys _ _ _ _ eq_refl Hr).
Qed.

Lemma foldl_raise {A} (f : A -> A -> result A) (e : Exception) (l : list A) :
  foldl (fun acc y => a ← acc; f a y) (Raise e) l = Raise e.
Proof. induction l as [|y l IH]; [reflexivity | exact IH]. Qed.

(** Labels that are not renamed make no duplicate. *)
Lemma suffix_duplicates_same (labels : list string) : suffix_duplicates labels labels = [].
Proof.
  unfold suffix_duplicates. rewrite filter_none; [reflexivity|].
  intros [c [d d']] Hin. cbn [fst snd]. intros [-> Hd'].
  assert (Hsame : forall (flags : list bool) (ls : list string) c b b',
            (c, (b, b')) ∈ zip ls (zip flags flags) -> b = b').
  { clear. induction flags as [|f flags IH]; intros [|l ls] c b b' Hin;
      try (now inversion Hin).
    cbn [zip zip_with] in Hin. apply elem_of_cons in Hin as [[= _ -> ->]|Hin];
      [reflexivity | now apply (IH ls c)]. }
  apply Hsame in Hin. congruence.
Qed.

(** The join of two tables that share the key columns only. *)
Lemma merge_disjoint (left right df : DataFrame Cell) :
  disjoint_measures left right ->
  merge_on_keys left right = Ok df <->
  Forall (fun c => c ∈ columns left /\ c ∈ columns right) join_keys
  /\ NoDup (keys join_keys left) /\ NoDup (keys join_keys right)
  /\ df = {| columns := (columns left
                         ++ filter (fun c => c ∉ join_keys) (columns right))%list;
             rows :=
               range_index
                 (flat_map
                    (fun l => map (join_rows join_keys (columns left) (columns right) l)
                                  (filter (fun r => key_of join_keys r = key_of join_keys l)
                                          (map snd (rows right))))
                    (map snd (rows left))) |}.
Proof.
  intros Hdisj.
  assert (Hleft : map (suffixed join_keys (columns right) "_x") (columns left)
                  = columns left).
  { rewrite <- (map_id (columns left)) at 2. apply map_ext_in.
    intros c Hc. apply suffixed_id. intros Hc'. apply Hdisj; [|assumption].
    now apply list_elem_of_In. }
  assert (Hright : map (suffixed join_keys (columns left) "_y")
                       (filter (fun c => c ∉ join_keys) (columns right))
                   = filter (fun c => c ∉ join_keys) (columns right)).
  { rewrite <- (map_id (filter _ (columns right))) at 2. apply map_ext_in.
    intros c Hc. apply list_elem_of_In, list_elem_of_filter in Hc as [_ Hc].
    apply suffixed_id. intros Hc'. now apply Hdisj. }
  unfold merge_on_keys, merge_one_to_one. cbv zeta. rewrite Hleft, Hright.
  rewrite !suffix_duplicates_same.
  rewrite (decide_True (P := [] = [] /\ [] = [])) by (split; reflexivity).
  destruct (decide (Forall (fun c => (c ∈ columns left) /\ (c ∈ columns right)) join_keys))
    as [Hcols|Hcols]; [|split; [discriminate | tauto]].
  destruct (decide (NoDup (keys join_keys left) /\ NoDup (keys join_keys right)))
    as [[Hl Hr]|Hnd]; [|split; [discriminate | tauto]].
  split; [intros [= <-]; auto | intros (_ & _ & _ & ->); reflexivity].
Qed.

Lemma length_keys (t : DataFrame Cell) :
  length (keys join_keys t) = length (rows t).
Proof. unfold keys. apply length_map. Qed.

Lemma filter_all {A} (P : A -> Prop) `{forall x, Decision (P x)} (l : list A) :
  Forall P l -> filter P l = l.
Proof.
  induction 1 as [|x l Hx _ IH]; [reflexivity|].
  rewrite filter_cons_True by assumption. now f_equal.
Qed.

(** The reduction of tables with the same keys and measurement columns
    of their own. *)
Lemma foldl_merge_same_keys (others : list (DataFrame Cell)) :
  forall acc : DataFrame Cell,
    Forall (fun c => c ∈ columns acc) join_keys ->
    NoDup (keys join_keys acc) ->
    Forall (fun t => Forall (fun c => c ∈ columns t) join_keys
                     /\ NoDup (keys join_keys t)
                     /\ (forall k, k ∈ keys join_keys t <-> k ∈ keys join_keys acc)
                     /\ disjoint_measures acc t) others ->
    ForallOrdPairs disjoint_measures others ->
    exists df,
      foldl (fun a y => a ← a; merge_on_keys a y) (Ok acc) others = Ok df
      /\ keys join_keys df = keys join_keys acc
      /\ columns df
         = (columns acc
            ++ flat_map (fun t => filter (fun c => c ∉ join_keys) (columns t)) others)%list.
Proof.
  induction others as [|t ts IH]; intros acc Hcols Hnd Hall Hpairs.
  - exists acc. cbn [foldl flat_map]. now rewrite app_nil_r.
  - apply Forall_cons in Hall as [(Htcols & Htnd & Htkeys & Htdisj) Hall].
    inversion Hpairs as [|? ? Hfirst Hrest]; subst.
    set (m := {| columns := (columns acc
                             ++ filter (fun c => c ∉ join_keys) (columns t))%list;
                 rows := range_index
                           (flat_map
                              (fun l => map (join_rows join_keys (columns acc) (columns t) l)
                                            (filter (fun r => key_of join_keys r
                                                              = key_of join_keys l)
                                                    (map snd (rows t))))
                              (map snd (rows acc))) |}).
    assert (Hm : merge_on_keys acc t = Ok m).
    { apply merge_disjoint; [exact Htdisj|].
      split; [|split; [exact Hnd | split; [exact Htnd | reflexivity]]].
      apply Forall_forall. intros c Hc. rewrite Forall_forall in Hcols, Htcols. auto. }
    destruct (keys_merge _ _ _ Hm) as (_ & _ & Hmcols & Hmkeys).
    assert (Hkeys : keys join_keys m = keys join_keys acc).
    { rewrite Hmkeys. apply filter_all, Forall_forall. intros k Hk. now apply Htkeys. }
    destruct (IH m) as (df & Hdf & Hdfkeys & Hdfcols).
    + exact Hmcols.
    + now rewrite Hkeys.
    + rewrite Forall_forall in Hall, Hfirst. apply Forall_forall. intros t' Ht'.
      destruct (Hall t' Ht') as (H1 & H2 & H3 & H4).
      split; [exact H1|]. split; [exact H2|]. split; [now rewrite Hkeys|].
      intros c Hc Hc'. cbn [columns m] in Hc. apply elem_of_app in Hc as [Hc|Hc].
      * now apply (H4 c).
      * apply list_elem_of_filter in Hc as [_ Hc]. now apply (Hfirst t' Ht' c).
    + exact Hrest.
    + exists df. cbn [foldl]. rewrite Ok_bind, Hm. split; [exact Hdf|].
      split; [now rewrite Hdfkeys|]. rewrite Hdfcols. cbn [columns m flat_map].
      now rewrite <- app_assoc.
Qed.

(** The reduction aborts on a table with a key twice. *)
Lemma foldl_merge_aborts (others : list (DataFrame Cell)) :
  forall acc : DataFrame Cell,
    Forall (fun c => c ∈ columns acc) join_keys ->
    Forall (fun t => Forall (fun c => c ∈ columns t) join_keys) others ->
    (¬ NoDup (keys join_keys acc) /\ others <> [])
    \/ Exists (fun t => ¬ NoDup (keys join_keys t)) others ->
    foldl (fun a y => a ← a; merge_on_keys a y) (Ok acc) others = Raise MergeError.
Proof.
  induction others as [|t ts IH]; intros acc Hcols Hall Hdup.
  - destruct Hdup as [[_ Hne]|Hex]; [congruence | inversion Hex].
  - apply Forall_cons in Hall as [Htcols Hall]. cbn [foldl]. rewrite Ok_bind.
    destruct (merge_on_keys acc t) as [m|e] eqn:Hm.
    + destruct (keys_merge _ _ _ Hm) as (Hl & Hr & Hmcols & _).
      apply IH; [exact Hmcols | exact Hall|]. right.
      destruct Hdup as [[Hacc _]|Hex]; [contradiction|].
      apply Exists_cons in Hex as [Ht|Hex]; [contradiction | exact Hex].
    + assert (e = MergeError) as ->; [|apply foldl_raise].
      revert Hm. unfold merge_on_keys, merge_one_to_one.
      rewrite decide_True.
      * destruct (decide (NoDup _ /\ NoDup _)); [|now intros [= <-]].
        cbv zeta. destruct (decide (_ /\ _)); [discriminate | now intros [= <-]].
      * apply Forall_forall. intros c Hc. rewrite Forall_forall in Hcols, Htcols. auto.
Qed.


(** X10. The keys of the tables of a run, joined. When the reduction of
    the tables succeeds, the keys (latitude, longitude, run, forecast
    horizon) of the joined table are the keys of the first table that all
    the other tables have too, in the order of the first table: a row of
    the first table whose key lacks in another table is dropped, and no
    row is added. With two tables or more, no key occurs twice in the
    first table nor in the joined table. *)
Theorem joined_keys (first : DataFrame Cell) (others : list (DataFrame Cell))
    (joined : DataFrame Cell) :
  reduce merge_on_keys (first :: others) = Ok joined ->
  keys join_keys joined
  = filter (fun k => Forall (fun t => k ∈ keys join_keys t) others) (keys join_keys first)
  /\ (length (rows joined) <= length (rows first))%nat
  /\ (others <> [] ->
      NoDup (keys join_keys first) /\ NoDup (keys join_keys joined)
      /\ Forall (fun c => c ∈ columns joined) join_keys).
Proof.
  intros Hreduce. cbn [reduce] in Hreduce.
  assert (Hkeys : keys join_keys joined
                  = filter (fun k => Forall (fun t => k ∈ keys join_keys t) others)
                           (keys join_keys first)
                  /\ (Forall (fun c => c ∈ columns first) join_keys ->
                      Forall (fun c => c ∈ columns joined) join_keys)
                  /\ (others <> [] ->
                      NoDup (keys join_keys first)
                      /\ Forall (fun c => c ∈ columns joined) join_keys)).
  { revert first Hreduce. induction others as [|t ts IH]; intros first Hreduce.
    - injection Hreduce as <-. split; [|split; [tauto | congruence]].
      induction (keys join_keys first) as [|k ks IHk]; [reflexivity|].
      rewrite filter_cons_True by constructor. now f_equal.
    - cbn [foldl] in Hreduce. rewrite Ok_bind in Hreduce.
      destruct (merge_on_keys first t) as [m|e] eqn:Hm;
        [|now rewrite foldl_raise in Hreduce].
      apply keys_merge in Hm as (Hl & _ & Hc & Hk).
      apply IH in Hreduce as (Hjoined & Hkeep & _). split.
      + rewrite Hjoined, Hk, list_filter_filter. apply list_filter_iff.
        intros k. rewrite Forall_cons. tauto.
      + split; [intros _; now apply Hkeep|]. intros _. split; [exact Hl|].
        now apply Hkeep. }
  destruct Hkeys as (Hkeys & _ & Hmore). split; [exact Hkeys|]. split.
  - rewrite <- (length_map (fun ir => key_of join_keys ir.2) (rows joined)).
    rewrite <- (length_map (fun ir => key_of join_keys ir.2) (rows first)).
    fold (keys join_keys joined). fold (keys join_keys first).
    rewrite Hkeys. apply length_filter.
  - intros Hne. destruct (Hmore Hne) as [Hnd Hcols].
    split; [exact Hnd|]. split; [|exact Hcols].
    rewrite Hkeys. now apply NoDup_filter.
Qed.

End JoinKeys.

(** ** The table of one forecast *)

Section SingleForecast.
Context {Cell : Type} `{EqDecision Cell} `{PyInt Cell}.

Ltac in_labels := repeat constructor.
Ltac not_in_labels :=
  let Hc := fresh "Hc" in
  intros Hc; repeat (apply elem_of_cons in Hc as [Hc|Hc]; [discriminate|]); inversion Hc.

Lemma cell_filter_other (cols : list string) (r : list (string * Cell)) (c : string) :
  c ∉ cols -> cell (filter (fun cv : string * Cell => cv.1 ∉ cols) r) c = cell r c.
Proof.
  intros Hc. induction r as [|[c' v] r IH]; [reflexivity|].
  rewrite filter_cons. cbn [fst cell].
  destruct (decide (c' ∉ cols)) as [Hin|Hout]; cbn [cell]; rewrite IH.
  - reflexivity.
  - rewrite decide_False; [reflexivity|]. intros ->. contradiction.
Qed.

Lemma cell_relabel_on (f : string -> string) (r : list (string * Cell)) (c c0 : string) :
  Forall (fun cv => f cv.1 = c <-> cv.1 = c0) r ->
  cell (map (fun cv => (f cv.1, cv.2)) r) c = cell r c0.
Proof.
  induction 1 as [|[c' v] r Hf _ IH]; [reflexivity|]. cbn [map cell fst snd] in *.
  destruct (decide (c' = c0)) as [Heq|Hne].
  - now rewrite decide_True by exact (proj2 Hf Heq).
  - rewrite decide_False; [exact IH|]. intros Heq. exact (Hne (proj1 Hf Heq)).
Qed.

Lemma rename_time_step (c : string) :
  rename_label [("time", "run"); ("step", "forecast_horizon")] c
  = if decide (c = "time") then "run"
    else if decide (c = "step") then "forecast_horizon" else c.
Proof. reflexivity. Qed.

Lemma rename_one (old new c : string) :
  rename_label [(old, new)] c = if decide (c = old) then new else c.
Proof. reflexivity. Qed.

Lemma pop_unknown_Ok (self : Forecast Cell) (known cols : list string) (c : string) :
  (forall several, several <> [] -> set_pop self several ∈ several) ->
  pop_unknown_column self known cols = Ok c -> c ∈ cols /\ c ∉ known.
Proof.
  intros Hpop Hc. unfold pop_unknown_column in Hc.
  assert (Hin : c ∈ remove_dups (filter (fun c => c ∉ known) cols)).
  { destruct (remove_dups (filter (fun c => c ∉ known) cols)) as [|a [|b rest]].
    - discriminate.
    - injection Hc as <-. constructor.
    - injection Hc as <-. now apply Hpop. }
  apply elem_of_remove_dups, list_elem_of_filter in Hin. tauto.
Qed.

(** The labels of the decoded table that cannot be the measurement. *)
Lemma unknown_column_raw (raw : list string) (c : string) :
  c ∈ map (rename_label [("time", "run"); ("step", "forecast_horizon")])
          (filter (fun c => c ∉ ["surface"; "valid_time"]) raw) ->
  c ∉ known_columns ->
  c ∈ raw /\ (c ∉ ["surface"; "valid_time"]) /\ c <> "time" /\ c <> "step".
Proof.
  intros Hc Hknown. apply elem_of_map in Hc as (c0 & -> & Hc0).
  apply list_elem_of_filter in Hc0 as [Hout Hc0]. rewrite rename_time_step in *.
  destruct (decide (c0 = "time")) as [->|Htime].
  { exfalso. apply Hknown. unfold known_columns. in_labels. }
  destruct (decide (c0 = "step")) as [->|Hstep].
  { exfalso. apply Hknown. unfold known_columns. in_labels. }
  auto.
Qed.

Lemma cell_prepared (c : string) (r : list (string * Cell)) :
  untouched c ->
  cell (map (fun cv => (rename_label [("time", "run"); ("step", "forecast_horizon")] cv.1,
                        cv.2))
            (filter (fun cv => cv.1 ∉ ["surface"; "valid_time"]) r)) c
  = cell r c.
Proof.
  intros (H1 & H2 & H3 & H4 & H5). rewrite cell_relabel_on with (c0 := c).
  - now apply cell_filter_other.
  - apply Forall_forall. intros [c' v] _. cbn [fst]. rewrite rename_time_step.
    destruct (decide (c' = "time")) as [->|]; [split; congruence|].
    destruct (decide (c' = "step")) as [->|]; [split; congruence|]. reflexivity.
Qed.

Lemma column_prepared (c : string) (raw : DataFrame Cell) :
  untouched c -> c ∈ columns (prepared raw) <-> c ∈ columns raw.
Proof.
  intros (H1 & H2 & H3 & H4 & H5). cbn [prepared columns rename_columns drop_columns].
  rewrite elem_of_map. split.
  - intros (c0 & Hc0 & Hin0). apply list_elem_of_filter in Hin0 as [_ Hin0].
    rewrite rename_time_step in Hc0.
    destruct (decide (c0 = "time")); [congruence|].
    destruct (decide (c0 = "step")); congruence.
  - intros Hc. exists c. rewrite rename_time_step.
    rewrite !decide_False by assumption. split; [reflexivity|].
    now apply list_elem_of_filter.
Qed.

Lemma level_of_prepared (c : string) (raw : DataFrame Cell) :
  untouched c -> level_of (prepared raw) c = level_of raw c.
Proof.
  intros Hc. unfold level_of, iloc0. cbn [prepared rows rename_columns drop_columns].
  destruct (rows raw) as [|[ix r] rest]; [reflexivity|]. cbn [map fst snd].
  now rewrite cell_prepared.
Qed.

Lemma untouched_level (c : string) :
  c = "heightAboveGround" \/ c = "isobaricInhPa" -> untouched c.
Proof. intros [-> | ->]; repeat split; try discriminate; not_in_labels. Qed.

Lemma suffix_of_prepared (raw : DataFrame Cell) : suffix_of (prepared raw) = suffix_of raw.
Proof.
  unfold suffix_of. rewrite !level_of_prepared by (apply untouched_level; auto).
  pose proof (column_prepared "heightAboveGround" raw (untouched_level _ (or_introl eq_refl)))
    as Hh.
  pose proof (column_prepared "isobaricInhPa" raw (untouched_level _ (or_intror eq_refl)))
    as Hp.
  destruct (decide ("heightAboveGround" ∈ columns raw)) as [Hin|Hout].
  - now rewrite decide_True by now apply Hh.
  - rewrite decide_False by now rewrite Hh.
    destruct (decide ("isobaricInhPa" ∈ columns raw)) as [Hin'|Hout'].
    + now rewrite decide_True by now apply Hp.
    + now rewrite decide_False by now rewrite Hp.
Qed.

(** X11. The table [_get_data_single_forecast] returns, when the element
    taken out of a set is an element of it. The raster is asked for the
    forecast horizon in seconds, 3600 times the horizon in hours. The
    table has the rows of the decoded table, with the same index. A
    column of the decoded table that is no key, no level, not [surface],
    [valid_time], [time] or [step], is the measurement: it is named as the
    naming rule says from the decoded table, and the new name is a column
    of the result unless it is one of the four columns dropped at the end;
    in a row where no other label is the new name, the value under the
    new name is the decoded value. The level columns [isobaricInhPa],
    [heightAboveGround], [meanSea] and [potentialVorticity] are never in
    the result, and the four key columns are, when the decoded table has
    [latitude], [longitude], [time] and [step]. *)
Theorem single_forecast_table (self : Forecast Cell) (coverage_id : string)
    (forecast_horizon : Z) (pressure height : option Z) (lat long : Cell * Cell)
    (df : DataFrame Cell) :
  (forall several, several <> [] -> set_pop self several ∈ several) ->
  _get_data_single_forecast self coverage_id forecast_horizon pressure height lat long
  = Ok df ->
  exists (raw : DataFrame Cell) (indicator_column name : string),
    fetch_grib self coverage_id height pressure (forecast_horizon * 3600) lat long = Ok raw
    /\ map fst (rows df) = map fst (rows raw)
    /\ indicator_column ∈ columns raw
    /\ (indicator_column
        ∉ (known_columns ++ ["surface"; "valid_time"; "time"; "step"])%list)
    /\ new_indicator_column coverage_id indicator_column raw = Ok name
    /\ (name ∉ ["isobaricInhPa"; "heightAboveGround"; "meanSea"; "potentialVorticity"] ->
        name ∈ columns df
        /\ forall (i : nat) (ix : Z) (row : Row Cell),
             rows raw !! i = Some (ix, row) ->
             name <> "run" -> name <> "forecast_horizon" ->
             Forall (fun cv => cv.1 = indicator_column \/ cv.1 <> name) row ->
             exists row', rows df !! i = Some (ix, row')
                          /\ cell row' name = cell row indicator_column)
    /\ Forall (fun c => c ∉ columns df)
              ["isobaricInhPa"; "heightAboveGround"; "meanSea"; "potentialVorticity"]
    /\ (Forall (fun c => c ∈ columns raw) ["latitude"; "longitude"; "time"; "step"] ->
        Forall (fun c => c ∈ columns df) join_keys).
Proof.
  intros Hpop Hdf. unfold Row in *. unfold _get_data_single_forecast in Hdf.
  apply bind_Ok in Hdf as (raw & Hraw & Hdf). cbv zeta in Hdf.
  apply bind_Ok in Hdf as (ic & Hic & Hdf).
  apply bind_Ok in Hdf as (name & Hname & [= <-]).
  apply (pop_unknown_Ok _ _ _ _ Hpop) in Hic as [Hic Hknown].
  cbn [columns rename_columns drop_columns] in Hic.
  destruct (unknown_column_raw _ _ Hic Hknown) as (Hin & Hout & Htime & Hstep).
  exists raw, ic, name. split; [exact Hraw|]. split.
  { cbn [rows rename_columns drop_columns]. rewrite !map_map. now apply map_ext. }
  split; [exact Hin|]. split.
  { rewrite elem_of_app. intros [Hc|Hc]; [contradiction|].
    repeat (apply elem_of_cons in Hc as [->|Hc]);
      [apply Hout; in_labels | apply Hout; in_labels | congruence | congruence
      | inversion Hc]. }
  assert (Hname' : new_indicator_column coverage_id ic raw = Ok name).
  { revert Hname. unfold new_indicator_column.
    change (rename_columns [("time", "run"); ("step", "forecast_horizon")]
                           (drop_columns ["surface"; "valid_time"] raw))
      with (prepared raw).
    now rewrite suffix_of_prepared. }
  split; [exact Hname'|].
  split; [|split].
  - intros Hdropped. split.
    + cbn [columns rename_columns drop_columns].
      apply list_elem_of_filter. split; [exact Hdropped|].
      apply elem_of_map. exists ic. rewrite rename_one.
      now rewrite decide_True.
    + intros i ix row Hrow Hrun Hfh Hother.
      cbn [rows rename_columns drop_columns]. rewrite !map_map, list_lookup_fmap.
      unfold Row in *. rewrite Hrow.
      cbn [fmap option_fmap option_map fst snd]. eexists. split; [reflexivity|].
      rewrite cell_filter_other by exact Hdropped.
      rewrite cell_relabel_on with (c0 := ic).
      * apply cell_prepared. repeat split; try assumption;
          intros ->; apply Hknown; unfold known_columns; in_labels.
      * apply Forall_forall. intros [c v] Hc. cbn [fst]. rewrite rename_one.
        apply elem_of_map in Hc as ([c0 v0] & [= -> ->] & Hc0).
        apply list_elem_of_filter in Hc0 as [_ Hc0]. cbn [fst].
        rewrite Forall_forall in Hother. specialize (Hother _ Hc0). cbn [fst] in Hother.
        assert (Hkey : forall c, c ∈ known_columns -> c <> name ->
                         (if decide (c = ic) then name else c) = name <-> c = ic).
        { intros c Hc' Hne. rewrite decide_False by (intros ->; contradiction).
          split; [congruence | intros ->; contradiction]. }
        destruct (decide (c0 = "time")) as [->|].
        { apply Hkey; [unfold known_columns; in_labels | congruence]. }
        destruct (decide (c0 = "step")) as [->|].
        { apply Hkey; [unfold known_columns; in_labels | congruence]. }
        destruct (decide (c0 = ic)) as [->|Hne]; [tauto|].
        destruct Hother as [->|Hother]; [congruence|]. split; congruence.
  - apply Forall_forall. intros c Hc Hin'.
    cbn [columns drop_columns] in Hin'. apply list_elem_of_filter in Hin' as [Hno _].
    contradiction.
  - intros Hkeys.
    assert (Hkey : forall c0 c, c0 ∈ columns raw ->
                     c = rename_label [("time", "run"); ("step", "forecast_horizon")] c0 ->
                     c ∈ join_keys -> c0 ∉ ["surface"; "valid_time"] ->
                     c ∈ columns (drop_columns ["isobaricInhPa"; "heightAboveGround"; "meanSea";
                                                "potentialVorticity"]
                                    (rename_columns [(ic, name)]
                                       (rename_columns [("time", "run");
                                                        ("step", "forecast_horizon")]
                                          (drop_columns ["surface"; "valid_time"] raw))))).
    { intros c0 c Hc0 Hc Hjoin Hno. cbn [columns rename_columns drop_columns].
      apply list_elem_of_filter. split.
      - unfold join_keys in Hjoin.
        repeat (apply elem_of_cons in Hjoin as [->|Hjoin]); [..|inversion Hjoin];
          not_in_labels.
      - apply elem_of_map. exists c. rewrite rename_one. split.
        + rewrite decide_False; [reflexivity|]. intros ->. apply Hknown.
          unfold known_columns, join_keys in *.
          repeat (apply elem_of_cons in Hjoin as [->|Hjoin]); [..|inversion Hjoin];
            in_labels.
        + apply elem_of_map. exists c0. split; [exact Hc|].
          now apply list_elem_of_filter. }
    apply Forall_cons in Hkeys as [Hlat Hkeys].
    apply Forall_cons in Hkeys as [Hlong Hkeys].
    apply Forall_cons in Hkeys as [Ht Hkeys].
    apply Forall_cons in Hkeys as [Hs _].
    unfold join_keys at 1.
    repeat constructor.
    + apply (Hkey "latitude"); [assumption|reflexivity|unfold join_keys; in_labels|not_in_labels].
    + apply (Hkey "longitude"); [assumption|reflexivity|unfold join_keys; in_labels|not_in_labels].
    + apply (Hkey "time"); [assumption|reflexivity|unfold join_keys; in_labels|not_in_labels].
    + apply (Hkey "step"); [assumption|reflexivity|unfold join_keys; in_labels|not_in_labels].
Qed.

Lemma mapM_raise_only {A B} (f : A -> result B) (l : list A) (e0 e : Exception) :
  (forall x e', f x = Raise e' -> e' = e0) -> mapM f l = Raise e -> e = e0.
Proof.
  intros Hf. induction l as [|x l IH]; [discriminate|]. cbn [mapM].
  destruct (f x) as [y|e'] eqn:Hx.
  - rewrite Ok_bind. destruct (mapM f l) as [k|e'']; [discriminate|].
    intros [= <-]. now apply IH.
  - intros [= <-]. now apply (Hf x).
Qed.

Lemma base_name_raise (coverage_id indicator_column : string) (e : Exception) :
  base_name_of coverage_id indicator_column = Raise e -> e = IndexError.
Proof.
  unfold base_name_of. destruct (decide (indicator_column = "unknown")); [|discriminate].
  unfold item. destruct (PyStr.split "__" coverage_id !! 0%nat) as [head|];
    [|now intros [= <-]].
  rewrite Ok_bind.
  destruct (mapM first_char (PyStr.split "_" head)) as [initials|e'] eqn:Hm;
    [discriminate|].
  intros [= <-]. apply (mapM_raise_only first_char _ IndexError _) in Hm; [exact Hm|].
  intros [|c word] e''; [now intros [= <-] | discriminate].
Qed.

(** X12. The errors of [_get_data_single_forecast] on a decoded table.
    When every column of the decoded table is a key, a level, [surface],
    [valid_time], [time] or [step], there is no measurement column and the
    call raises [KeyError]. When the decoded table has no row and has a
    level column, the call returns no table: it raises [KeyError] or
    [IndexError]. *)
Theorem single_forecast_errors (self : Forecast Cell) (coverage_id : string)
    (forecast_horizon : Z) (pressure height : option Z) (lat long : Cell * Cell)
    (raw : DataFrame Cell) :
  fetch_grib self coverage_id height pressure (forecast_horizon * 3600) lat long = Ok raw ->
  (Forall (fun c => c ∈ (known_columns ++ ["surface"; "valid_time"; "time"; "step"])%list)
          (columns raw) ->
   _get_data_single_forecast self coverage_id forecast_horizon pressure height lat long
   = Raise KeyError)
  /\ (rows raw = [] ->
      "heightAboveGround" ∈ columns raw \/ "isobaricInhPa" ∈ columns raw ->
      _get_data_single_forecast self coverage_id forecast_horizon pressure height lat long
      = Raise KeyError
      \/ _get_data_single_forecast self coverage_id forecast_horizon pressure height lat long
         = Raise IndexError).
Proof.
  intros Hraw. unfold _get_data_single_forecast. rewrite Hraw, Ok_bind. cbv zeta.
  change (rename_columns [("time", "run"); ("step", "forecast_horizon")]
                         (drop_columns ["surface"; "valid_time"] raw))
    with (prepared raw).
  split.
  - intros Hall. unfold pop_unknown_column. rewrite filter_none; [reflexivity|].
    intros c Hc Hknown. cbn [prepared columns rename_columns drop_columns] in Hc.
    destruct (unknown_column_raw _ _ Hc Hknown) as (Hin & Hout & Htime & Hstep).
    rewrite Forall_forall in Hall. specialize (Hall c Hin).
    apply elem_of_app in Hall as [Hc'|Hc']; [contradiction|].
    repeat (apply elem_of_cons in Hc' as [->|Hc']);
      [apply Hout; in_labels | apply Hout; in_labels | congruence | congruence
      | inversion Hc'].
  - intros Hrows Hlevel.
    destruct (pop_unknown_column self known_columns (columns (prepared raw)))
      as [ic|e] eqn:Hpop.
    + right. rewrite Ok_bind. unfold new_indicator_column.
      destruct (base_name_of coverage_id ic) as [base|e] eqn:Hbase.
      * rewrite Ok_bind, suffix_of_prepared. unfold suffix_of, level_of, iloc0.
        rewrite Hrows.
        destruct (decide ("heightAboveGround" ∈ columns raw)); [reflexivity|].
        destruct (decide ("isobaricInhPa" ∈ columns raw)); [reflexivity|]. tauto.
      * now apply base_name_raise in Hbase as ->.
    + left. unfold pop_unknown_column in Hpop.
      destruct (remove_dups (filter (fun c => c ∉ known_columns) (columns (prepared raw))))
        as [|a [|b rest]]; try discriminate. now injection Hpop as <-.
Qed.

End SingleForecast.

(** ** The axes of a description *)

Section DescriptionFacts.
Import Description.
Variable int : string -> result Z.
Variable hours : Z -> Z.
Variable grid_axis_of : string -> result (list GridAxis).

Lemma filter_first {A} (P : A -> Prop) `{forall x, Decision (P x)}
    (before : list A) (x : A) (after : list A) :
  Forall (fun y => ¬ P y) before -> P x ->
  filter P (before ++ x :: after)%list = x :: filter P after.
Proof.
  intros Hbefore Hx. rewrite filter_app, filter_cons_True by assumption.
  rewrite filter_none; [reflexivity|]. now apply Forall_forall.
Qed.

(** X13. [_get_available_feature] reads one axis. When no axis of the
    grid spans the feature, the result is the empty list, and [int] is
    not called. Otherwise the coefficients of the first axis that spans
    the feature are split at the spaces and converted; the axes after it
    are not looked at. An axis with empty coefficients does not give the
    empty list: it gives what [int] gives on the empty string, an error. *)
Theorem available_feature_first_axis (grid_axis : list GridAxis) (feature_name : string) :
  (Forall (fun ax => gridAxesSpanned ax <> feature_name) grid_axis ->
   _get_available_feature int grid_axis feature_name = Ok [])
  /\ (forall before ax after,
        grid_axis = (before ++ ax :: after)%list ->
        Forall (fun ax' => gridAxesSpanned ax' <> feature_name) before ->
        gridAxesSpanned ax = feature_name ->
        _get_available_feature int grid_axis feature_name
        = mapM int (PyStr.split " " (coefficients ax))
        /\ (forall e, coefficients ax = "" -> int "" = Raise e ->
                      _get_available_feature int grid_axis feature_name = Raise e)).
Proof.
  split.
  - intros Hnone. unfold _get_available_feature.
    rewrite filter_none; [reflexivity|]. now apply Forall_forall.
  - intros before ax after -> Hbefore Hax.
    assert (Hfirst : _get_available_feature int (before ++ ax :: after) feature_name
                     = mapM int (PyStr.split " " (coefficients ax))).
    { unfold _get_available_feature. now rewrite filter_first. }
    split; [exact Hfirst|]. intros e Hempty Hint. rewrite Hfirst, Hempty.
    cbn. now rewrite Hint.
Qed.

Lemma quot_3600 (time : Z) :
  (Z.quot time 3600 * 3600 = time <-> Z.rem time 3600 = 0)
  /\ Z.abs (time - Z.quot time 3600 * 3600) < 3600
  /\ Z.abs (Z.quot time 3600 * 3600) <= Z.abs time.
Proof.
  pose proof (Z.quot_rem' time 3600) as Hqr.
  pose proof (Z.rem_bound_abs time 3600 ltac:(lia)) as Hbound.
  pose proof (Z.rem_sign_nz time 3600 ltac:(lia)) as Hsign.
  assert (Hs : Z.rem time 3600 = 0 \/ Z.sgn (Z.rem time 3600) = Z.sgn time)
    by (destruct (decide (Z.rem time 3600 = 0)); [now left | right; now apply Hsign]).
  lia.
Qed.

(** X14. Hours and seconds. With an [int(time / 3600)] that truncates,
    every forecast horizon of a description is the quotient by 3600 of a
    time the service lists; the time [_get_data_single_forecast] asks
    the service for this horizon, 3600 times the horizon, is that listed
    time exactly when it is a whole number of hours, and is else less
    than an hour away from it, toward zero. When all the listed times are
    whole numbers of hours, the time asked for a listed horizon is a
    listed time. *)
Theorem horizon_asks_listed_time (coverage_id : string) (grid_axis : list GridAxis)
    (times : list Z) (axis : AxisDescription) :
  truncates hours ->
  grid_axis_of coverage_id = Ok grid_axis ->
  _get_available_feature int grid_axis "time" = Ok times ->
  Forall (fun time => Z.abs time < 2 ^ 50) times ->
  get_coverage_description int hours grid_axis_of coverage_id = Ok axis ->
  axis_forecast_horizons axis = map (fun time => Z.quot time 3600) times
  /\ (forall h, h ∈ axis_forecast_horizons axis ->
        exists time, time ∈ times /\ h = Z.quot time 3600
                     /\ (h * 3600 = time <-> Z.rem time 3600 = 0)
                     /\ Z.abs (time - h * 3600) < 3600
                     /\ Z.abs (h * 3600) <= Z.abs time)
  /\ (Forall (fun time => Z.rem time 3600 = 0) times ->
      forall h, h ∈ axis_forecast_horizons axis -> h * 3600 ∈ times).
Proof.
  intros Hhours Hgrid Htimes Hsmall Haxis.
  unfold get_coverage_description in Haxis. rewrite Hgrid, Ok_bind, Htimes, Ok_bind in Haxis.
  apply bind_Ok in Haxis as (heights & _ & Haxis).
  apply bind_Ok in Haxis as (pressures & _ & [= <-]). cbn [axis_forecast_horizons].
  assert (Hmap : map hours times = map (fun time => Z.quot time 3600) times).
  { apply Forall_fmap_ext. eapply Forall_impl; [exact Hsmall|].
    intros t Ht. now apply Hhours. }
  rewrite Hmap. split; [reflexivity|]. split.
  - intros h Hh. apply elem_of_map in Hh as (time & -> & Hin).
    exists time. pose proof (quot_3600 time). tauto.
  - intros Hwhole h Hh. apply elem_of_map in Hh as (time & -> & Hin).
    rewrite Forall_forall in Hwhole.
    now rewrite (proj2 (proj1 (quot_3600 time)) (Hwhole _ Hin)).
Qed.

End DescriptionFacts.

(** ** The retries of the client *)

Section ClientFacts.
Import Client.

Lemma add_events_nil (w : World) : add_events [] w = w.
Proof. destruct w. unfold add_events. cbn. now rewrite app_nil_r. Qed.

Lemma add_events_app (es es' : list Event) (w : World) :
  add_events es' (add_events es w) = add_events (es ++ es') w.
Proof. unfold add_events. cbn. now rewrite app_assoc. Qed.

Lemma gateway_errors_cons (resp : Response) (responses : list Response) :
  gateway_errors (resp :: responses)
  = (if decide (gateway_error resp) then 1 else 0) + gateway_errors responses.
Proof.
  unfold gateway_errors. rewrite filter_cons.
  destruct (decide (gateway_error resp)); cbn [length]; lia.
Qed.

Lemma gateway_errors_nonneg (responses : list Response) : 0 <= gateway_errors responses.
Proof. unfold gateway_errors. lia. Qed.

Lemma passed_over_status (resp : Response) :
  passed_over resp ->
  status_code resp <> OK /\ status_code resp <> UNAUTHORIZED
  /\ status_code resp <> FORBIDDEN /\ status_code resp <> BAD_REQUEST
  /\ status_code resp <> NOT_FOUND.
Proof.
  intros [Hun|Hgw].
  - unfold unhandled in Hun. repeat split; intros Heq; apply Hun; rewrite Heq;
      repeat constructor.
  - unfold gateway_error, BAD_GATEWAY, UNAVAILABLE, GATEWAY_TIMEOUT in Hgw.
    unfold OK, UNAUTHORIZED, FORBIDDEN, BAD_REQUEST, NOT_FOUND. lia.
Qed.

(** One turn of the loop on a response it passes over. *)
Lemma get_loop_passed_over (url : string) (max_retries attempt : Z) (resp : Response)
    (responses : list Response) (w : World) :
  attempt < max_retries -> passed_over resp ->
  get_loop url max_retries attempt (resp :: responses) w
  = get_loop url max_retries
             (attempt + (if decide (gateway_error resp) then 1 else 0)) responses
             (add_events (trace url (session_headers (client w)) [resp]) w).
Proof.
  intros Hattempt Hpass.
  destruct (passed_over_status resp Hpass) as (H200 & H401 & H403 & H400 & H404).
  cbn [get_loop]. rewrite decide_True by assumption.
  unfold bind at 1, read at 1. unfold bind at 1, record at 1.
  rewrite decide_False by assumption.
  unfold bind at 1, _is_token_expired. rewrite decide_False by assumption.
  unfold ret at 1. rewrite !(decide_False (P := status_code resp = _)) by assumption.
  unfold trace. cbn [flat_map]. rewrite app_nil_r.
  fold (gateway_error resp).
  destruct (decide (gateway_error resp)) as [Hgw|Hgw].
  - unfold bind at 1, record at 1. unfold add_events. cbn [client token_responses events].
    now rewrite <- app_assoc.
  - rewrite Z.add_0_r. reflexivity.
Qed.

Lemma trace_cons (url : string) (headers : list (string * string)) (resp : Response)
    (responses : list Response) :
  trace url headers (resp :: responses)
  = (trace url headers [resp] ++ trace url headers responses)%list.
Proof. unfold trace. cbn [flat_map]. now rewrite app_nil_r. Qed.

(** The loop on a run of responses it passes over, within the retries. *)
Lemma get_loop_passes (url : string) (max_retries : Z) (before rest : list Response) :
  Forall passed_over before ->
  forall (attempt : Z) (w : World),
    attempt + gateway_errors before < max_retries ->
    get_loop url max_retries attempt (before ++ rest)%list w
    = get_loop url max_retries (attempt + gateway_errors before) rest
               (add_events (trace url (session_headers (client w)) before) w).
Proof.
  induction 1 as [|resp before Hresp _ IH]; intros attempt w Hattempt.
  - cbn [app]. unfold gateway_errors, trace. cbn.
    now rewrite Z.add_0_r, add_events_nil.
  - rewrite gateway_errors_cons in *. pose proof (gateway_errors_nonneg before).
    cbn [app]. rewrite get_loop_passed_over; [|destruct (decide _); lia|assumption].
    rewrite IH by lia. rewrite add_events_app, Z.add_assoc.
    now rewrite (trace_cons _ _ resp before).
Qed.

Lemma slept_app (es es' : list Event) : slept (es ++ es') = slept es + slept es'.
Proof.
  induction es as [|e es IH]; [reflexivity|]. cbn [app]. unfold slept in *. cbn [foldr].
  destruct e; rewrite IH; lia.
Qed.

Lemma slept_trace (url : string) (headers : list (string * string))
    (responses : list Response) :
  slept (trace url headers responses) = RETRY_DELAY_SEC * gateway_errors responses.
Proof.
  induction responses as [|resp responses IH].
  - reflexivity.
  - rewrite trace_cons, slept_app, IH, gateway_errors_cons. unfold trace. cbn [flat_map].
    destruct (decide (gateway_error resp)); cbn; unfold RETRY_DELAY_SEC; lia.
Qed.

Lemma gateway_errors_app (before after : list Response) :
  gateway_errors (before ++ after) = gateway_errors before + gateway_errors after.
Proof. unfold gateway_errors. rewrite filter_app, length_app. lia. Qed.

Lemma trace_app (url : string) (headers : list (string * string))
    (before after : list Response) :
  trace url headers (before ++ after)
  = (trace url headers before ++ trace url headers after)%list.
Proof. unfold trace. apply flat_map_app. Qed.

Lemma trace_unhandled (url : string) (headers : list (string * string))
    (responses : list Response) :
  Forall unhandled responses ->
  trace url headers responses = map (fun _ => Get url headers) responses
  /\ gateway_errors responses = 0.
Proof.
  induction 1 as [|resp responses Hresp _ [IHt IHg]]; [now split|].
  assert (Hgw : ¬ gateway_error resp).
  { intros Hgw. apply Hresp. destruct Hgw as [->| [->| ->]]; repeat constructor. }
  rewrite trace_cons, gateway_errors_cons, IHt, IHg. unfold trace. cbn [flat_map map].
  rewrite !(decide_False (P := gateway_error resp)) by assumption. now split.
Qed.

(** X15. The response that settles a [get]. The loop passes over the
    responses with a status it has no branch for and, within the
    retries, over those with status 502, 503 or 504. The first response
    after them with status 200 is returned; with status 403 or 400 it
    raises [GenericMeteofranceApiError] with the body of the response;
    with status 404, [MissingDataError] with the body. The responses
    after it are not asked for. *)
Theorem get_decisive_response (path : string) (max_retries : Z)
    (before : list Response) (resp : Response) (after : list Response) (w : World) :
  Forall passed_over before ->
  gateway_errors before < max_retries ->
  let url := API_BASE_URL +:+ path in
  let headers := session_headers (client w) in
  let w' := add_events (trace url headers before ++ [Get url headers]) w in
  (status_code resp = OK ->
   get path max_retries (before ++ resp :: after) w = (Returned resp, w'))
  /\ (status_code resp = FORBIDDEN \/ status_code resp = BAD_REQUEST ->
      get path max_retries (before ++ resp :: after) w
      = (Raised (GenericMeteofranceApiError (text resp)), w'))
  /\ (status_code resp = NOT_FOUND ->
      get path max_retries (before ++ resp :: after) w
      = (Raised (MissingDataError (text resp)), w')).
Proof.
  intros Hbefore Hretries url headers w'. unfold get. fold url.
  rewrite (get_loop_passes _ _ _ _ Hbefore) by lia. fold headers.
  assert (Hw' : w' = add_events [Get url headers] (add_events (trace url headers before) w))
    by now rewrite add_events_app.
  rewrite Hw'. clear Hw' w'. cbn [get_loop]. rewrite decide_True by lia.
  unfold bind at 1, read at 1. unfold bind at 1, record at 1.
  cbn [client add_events token_responses events]. fold headers.
  split; [|split].
  - intros Hstatus. rewrite decide_True by assumption. reflexivity.
  - intros Hstatus. rewrite decide_False by (unfold OK, FORBIDDEN, BAD_REQUEST in *; lia).
    unfold bind at 1, _is_token_expired.
    rewrite decide_False by (unfold UNAUTHORIZED, FORBIDDEN, BAD_REQUEST in *; lia).
    unfold ret at 1.
    destruct Hstatus as [Hstatus|Hstatus].
    + now rewrite decide_True by assumption.
    + rewrite decide_False by (unfold FORBIDDEN, BAD_REQUEST in *; lia).
      now rewrite decide_True by assumption.
  - intros Hstatus. rewrite decide_False by (unfold OK, NOT_FOUND in *; lia).
    unfold bind at 1, _is_token_expired.
    rewrite decide_False by (unfold UNAUTHORIZED, NOT_FOUND in *; lia).
    unfold ret at 1.
    rewrite decide_False by (unfold FORBIDDEN, NOT_FOUND in *; lia).
    rewrite decide_False by (unfold BAD_REQUEST, NOT_FOUND in *; lia).
    now rewrite decide_True by assumption.
Qed.

(** X16. The retries of [get]. With [max_retries] zero or negative, no
    request is made and the call raises the error of the retries, with
    0 in its message. Otherwise the response with status 502, 503 or 504
    that is the [max_retries]-th of them, when no response before it
    settles the call, is the last one asked for: the call raises the
    error of the retries with [max_retries] in its message, after it has
    slept 5 seconds for each of these responses, the last one too. *)
Theorem get_gives_up (path : string) (max_retries : Z) (responses : list Response)
    (w : World) :
  let url := API_BASE_URL +:+ path in
  let headers := session_headers (client w) in
  (max_retries <= 0 ->
   get path max_retries responses w
   = (Raised (GenericMeteofranceApiError (retries_message 0)), w))
  /\ (forall before resp after,
        responses = (before ++ resp :: after)%list ->
        Forall passed_over before -> gateway_error resp ->
        gateway_errors before = max_retries - 1 ->
        get path max_retries responses w
        = (Raised (GenericMeteofranceApiError (retries_message max_retries)),
           add_events (trace url headers (before ++ [resp])) w)
        /\ slept (trace url headers (before ++ [resp])) = 5 * max_retries).
Proof.
  intros url headers. split.
  - intros Hmax. unfold get. destruct responses; cbn [get_loop];
      now rewrite decide_False by lia.
  - intros before resp after -> Hbefore Hresp Hcount. split.
    + unfold get. fold url.
      rewrite (get_loop_passes _ _ _ _ Hbefore) by lia. fold headers.
      rewrite get_loop_passed_over; [|lia|now right].
      rewrite decide_True by assumption. rewrite add_events_app.
      cbn [client add_events]. fold headers. rewrite <- trace_app.
      replace (0 + gateway_errors before + 1) with max_retries by lia.
      destruct after; cbn [get_loop]; now rewrite decide_False by lia.
    + rewrite slept_trace, gateway_errors_app, gateway_errors_cons.
      rewrite decide_True by assumption. unfold RETRY_DELAY_SEC, gateway_errors at 2.
      cbn. lia.
Qed.

(** X17. [get] on statuses it has no branch for, such as 500 or 429.
    As long as the service answers with such statuses, the call neither
    returns nor raises, however many responses there are: it asks again
    at once, without sleeping, and counts no retry. *)
Theorem get_goes_on_unhandled (path : string) (max_retries : Z)
    (responses : list Response) (w : World) :
  0 < max_retries ->
  Forall unhandled responses ->
  get path max_retries responses w
  = (Pending,
     add_events (map (fun _ => Get (API_BASE_URL +:+ path) (session_headers (client w)))
                     responses) w).
Proof.
  intros Hmax Hall. destruct (trace_unhandled (API_BASE_URL +:+ path)
                                (session_headers (client w)) responses Hall) as [Ht Hg].
  unfold get. rewrite <- (app_nil_r responses) at 1.
  rewrite get_loop_passes; [|eapply Forall_impl; [exact Hall|]; intros r Hr; now left|lia].
  rewrite Ht, Hg. cbn [get_loop]. now rewrite decide_True by lia.
Qed.

(** X18. [get] on the response of an expired token (status 401, a JSON
    content type, the code 900901). The client is marked as having an
    expired token, and stays so. Without application id, the call raises
    [ValueError] after this one request. With an application id, a new
    token is asked of the token service with the header [Basic] and the
    application id; when the answer holds an access token, the client
    keeps it, sets the header of the session again ([apikey] when it has
    an API key, else [Authorization] with [Bearer] and the new token) and
    the loop goes on with the next response, the attempts uncounted. *)
Theorem get_refreshes_expired_token (url : string) (max_retries attempt : Z)
    (resp : Response) (rest : list Response) (w : World) :
  attempt < max_retries ->
  expired resp ->
  let c := client w in
  let headers := session_headers c in
  (_application_id c = None ->
   get_loop url max_retries attempt (resp :: rest) w
   = (Raised (ValueError "The 'application_id' is unknown, can't get a new token"),
      {| client := set_token_expired c; token_responses := token_responses w;
         events := (events w ++ [Get url headers])%list |}))
  /\ (forall application_id answer answers members token,
        _application_id c = Some application_id ->
        token_responses w = answer :: answers ->
        json answer = Some members -> lookup members "access_token" = Some token ->
        get_loop url max_retries attempt (resp :: rest) w
        = get_loop url max_retries attempt rest
            {| client :=
                 match _api_key c with
                 | Some api_key =>
                     update_headers "apikey" api_key
                       (set_token (Some token) (set_token_expired c))
                 | None =>
                     update_headers "Authorization" ("Bearer " +:+ token)
                       (set_token (Some token) (set_token_expired c))
                 end;
               token_responses := answers;
               events := (events w ++ [Get url headers;
                                       Post TOKEN_URL ("Basic " +:+ application_id)])%list |}).
Proof.
  intros Hattempt (Hstatus & (value & Hct & Hjson) & (codes & Hcodes & Hcode)) c headers.
  assert (Hstart : get_loop url max_retries attempt (resp :: rest) w
                   = (token <- _get_token;
                      self <- read;
                      _ <- write (set_token (Some token) self);
                      _ <- _connect;
                      get_loop url max_retries attempt rest)
                       {| client := set_token_expired c;
                          token_responses := token_responses w;
                          events := (events w ++ [Get url headers])%list |}).
  { cbn [get_loop]. rewrite decide_True by assumption.
    unfold bind at 1, read at 1. unfold bind at 1, record at 1.
    rewrite decide_False by (rewrite Hstatus; discriminate).
    unfold bind at 1, _is_token_expired.
    rewrite decide_True by assumption. rewrite Hct, Hjson.
    unfold bind at 1, json_member. rewrite Hcodes, Hcode. unfold ret at 1.
    rewrite decide_True by reflexivity.
    unfold bind at 1, read at 1. unfold bind at 1, write at 1. unfold ret at 1.
    reflexivity. }
  split.
  - intros Hid. rewrite Hstart. unfold bind at 1, _get_token.
    unfold bind at 1, read at 1. cbn [client set_token_expired _token_expired _token
                                       _application_id].
    fold c. rewrite Hid. reflexivity.
  - intros application_id answer answers members token Hid Hanswers Hmembers Htoken.
    rewrite Hstart. unfold bind at 1, _get_token.
    unfold bind at 1, read at 1. cbn [client set_token_expired _token_expired _token
                                       _application_id].
    fold c. rewrite Hid.
    rewrite bool_decide_eq_false_2 by discriminate. cbn [andb].
    unfold bind at 1, record at 1. unfold bind at 1, post_token.
    cbn [token_responses]. rewrite Hanswers.
    unfold json_member. rewrite Hmembers, Htoken. unfold ret at 1.
    unfold bind at 1, read at 1. unfold bind at 1, write at 1.
    unfold bind at 1, _connect. unfold bind at 1, read at 1.
    cbn [client token_responses events set_token set_token_expired _token _api_key
         _application_id _token_expired session_headers].
    fold c. rewrite (bool_decide_eq_false_2 (Some token = None)) by discriminate.
    rewrite andb_false_r. unfold bind at 1, ret at 1. unfold bind at 1, read at 1.
    cbn [client _api_key str default]. fold c. rewrite <- app_assoc. cbn [app].
    change (_api_key (set_token (Some token) (set_token_expired c))) with (_api_key c).
    destruct (_api_key c) as [api_key|]; reflexivity.
Qed.

(** X19. [get] on a response with status 401 that is not the response
    of an expired token. Without [Content-Type] header the call raises
    [KeyError]. With a JSON content type, a body that is not JSON raises
    the error of the JSON decoder, and a body without [code] raises
    [KeyError]. With another content type, or with another code than
    900901, the response is passed over: the loop asks again at once,
    without sleeping and without counting a retry, and neither the client
    nor its token changes. *)
Theorem get_on_unauthorized (url : string) (max_retries attempt : Z)
    (resp : Response) (rest : list Response) (w : World) :
  attempt < max_retries ->
  status_code resp = UNAUTHORIZED ->
  let w' := add_events [Get url (session_headers (client w))] w in
  (content_type resp = None ->
   get_loop url max_retries attempt (resp :: rest) w = (Raised (KeyError "content-type"), w'))
  /\ (forall value,
        content_type resp = Some value -> contains "application/json" value = false ->
        get_loop url max_retries attempt (resp :: rest) w
        = get_loop url max_retries attempt rest w')
  /\ (forall value,
        content_type resp = Some value -> contains "application/json" value = true ->
        (json resp = None ->
         get_loop url max_retries attempt (resp :: rest) w = (Raised JSONDecodeError, w'))
        /\ (forall members,
              json resp = Some members -> lookup members "code" = None ->
              get_loop url max_retries attempt (resp :: rest) w
              = (Raised (KeyError "code"), w'))
        /\ (forall members code,
              json resp = Some members -> lookup members "code" = Some code ->
              code <> INVALID_JWT_ERROR_CODE ->
              get_loop url max_retries attempt (resp :: rest) w
              = get_loop url max_retries attempt rest w')).
Proof.
  intros Hattempt Hstatus w'.
  assert (Hstart : get_loop url max_retries attempt (resp :: rest) w
                   = (expired <- _is_token_expired resp;
                      if expired : bool then
                        token <- _get_token;
                        self <- read;
                        _ <- write (set_token (Some token) self);
                        _ <- _connect;
                        get_loop url max_retries attempt rest
                      else get_loop url max_retries attempt rest) w').
  { cbn [get_loop]. rewrite decide_True by assumption.
    unfold bind at 1, read at 1. unfold bind at 1, record at 1.
    rewrite decide_False by (rewrite Hstatus; discriminate).
    assert (Hno : forall code, code <> UNAUTHORIZED -> ¬ status_code resp = code)
      by (intros code Hcode; rewrite Hstatus; congruence).
    rewrite !(decide_False (P := status_code resp = _)) by (apply Hno; discriminate).
    rewrite (decide_False (P := _ \/ _))
      by (unfold BAD_GATEWAY, UNAVAILABLE, GATEWAY_TIMEOUT, UNAUTHORIZED in *; lia).
    reflexivity. }
  rewrite Hstart. unfold bind at 1, _is_token_expired.
  rewrite decide_True by assumption.
  split; [|split].
  - intros ->. reflexivity.
  - intros value -> ->. reflexivity.
  - intros value -> ->. unfold bind at 1, json_member. split; [|split].
    + intros ->. reflexivity.
    + intros members -> Hcode. now rewrite Hcode.
    + intros members code -> Hcode Hother.
      rewrite Hcode. unfold bind, ret. cbn beta iota.
      now rewrite decide_False by assumption.
Qed.

(** X20. The credentials of a new client. With an API key, the session
    gets the header [apikey] and nothing else: a token given too is kept
    but not sent, and the token service is not asked. Without API key
    and with a token, the session gets [Authorization] with [Bearer] and
    the token, and the token service is not asked. With an application id
    only, the token service is asked once, and its access token is kept
    and sent. With none of the three, [ValueError]. *)
Theorem init_credentials (token api_key application_id : option string) (w : World) :
  let fields headers tok :=
    {| _token := tok; _api_key := api_key; _application_id := application_id;
       _token_expired := false; session_headers := headers |} in
  (forall key, api_key = Some key ->
     init token api_key application_id w
     = (Returned tt, {| client := fields [("apikey", key)] token;
                        token_responses := token_responses w; events := events w |}))
  /\ (forall tok, api_key = None -> token = Some tok ->
      init token api_key application_id w
      = (Returned tt, {| client := fields [("Authorization", "Bearer " +:+ tok)] token;
                         token_responses := token_responses w; events := events w |}))
  /\ (forall id answer answers members tok,
        api_key = None -> token = None -> application_id = Some id ->
        token_responses w = answer :: answers ->
        json answer = Some members -> lookup members "access_token" = Some tok ->
        init token api_key application_id w
        = (Returned tt,
           {| client := fields [("Authorization", "Bearer " +:+ tok)] (Some tok);
              token_responses := answers;
              events := (events w ++ [Post TOKEN_URL ("Basic " +:+ id)])%list |}))
  /\ (api_key = None -> token = None -> application_id = None ->
      init token api_key application_id w
      = (Raised (ValueError "api_key or token or application_id must be provided"),
         {| client := fields [] None;
            token_responses := token_responses w; events := events w |})).
Proof.
  intros fields. unfold fields. repeat split.
  - intros key ->. reflexivity.
  - intros tok -> ->. reflexivity.
  - intros id answer answers members tok -> -> -> Hanswers Hmembers Htok.
    destruct w as [c0 answers0 events0]. cbn [token_responses] in Hanswers. subst answers0.
    unfold init, bind, write, _connect, bind, read, _get_token, bind, read, record,
      post_token, json_member.
    cbn [client token_responses events _token _api_key _application_id _token_expired].
    rewrite !(bool_decide_eq_true_2 (None = None)) by reflexivity.
    rewrite !bool_decide_eq_false_2 by discriminate.
    cbn [andb client token_responses events _token _api_key _application_id
         _token_expired].
    rewrite Hmembers, Htok. reflexivity.
  - intros -> -> ->. reflexivity.
Qed.

End ClientFacts.

(** ** The further properties on the fake service *)

Section FurtherExamples.

Ltac not_listed :=
  let Hc := fresh "Hc" in
  intros Hc; repeat (apply elem_of_cons in Hc as [Hc|Hc]; [discriminate|]); inversion Hc.

Lemma get_coverage_requests_witness :
  exists df tables,
    get_coverage demo (Some "TEMPERATURE") france.1 france.2
                 (Some [2; 10]) None (Some [0; 1]) None None "" = Ok df
    /\ tables <> []
    /\ map snd (rows df) = flat_map (fun t => map snd (rows t)) tables.
Proof.
  eexists.
  match goal with
  | |- exists tables, ?g = Ok ?d /\ _ =>
      assert (Hg : g = Ok d) by (vm_compute; reflexivity)
  end.
  destruct (get_coverage_requests demo _ _ _ _ _ _ _ _ _ _ Hg)
    as (cid & axis & requests & tables & _ & Hne & Hfetch & _ & Hrows).
  exists tables. split; [exact Hg|]. split; [|exact Hrows].
  intros ->. apply Forall2_nil_inv_r in Hfetch. contradiction.
Defined.

Lemma get_coverage_by_id_witness :
  get_coverage demo None france.1 france.2 None None None None None temperature_day1
  = get_coverage demo_offline None france.1 france.2 None None None None None
                 temperature_day1.
Proof.
  apply (get_coverage_by_id_ignores_catalog demo demo_offline None); reflexivity.
Defined.

Lemma resolver_indicator_errors_witness :
  _get_coverage_id demo_partial "RAIN" None None = Raise (ValueError UnknownIndicator)
  /\ _get_coverage_id demo_partial wind None None = Raise IndexError
  /\ _get_coverage_id demo_partial wind (Some day1) None = Raise (ValueError InvalidRun).
Proof.
  assert (Hcat : capabilities demo_partial
                 = Ok [ {| cov_id := temperature_day1; cov_indicator := "TEMPERATURE";
                           cov_run := day1; cov_interval := "P1D" |};
                        {| cov_id := temperature_day2; cov_indicator := "TEMPERATURE";
                           cov_run := day2; cov_interval := "P1D" |} ])
    by (vm_compute; reflexivity).
  split.
  - apply (proj1 (resolver_indicator_errors demo_partial "RAIN" None _ Hcat)).
    vm_compute. not_listed.
  - destruct (proj2 (resolver_indicator_errors demo_partial wind None _ Hcat))
      as [Hnone Hrun].
    + vm_compute. repeat constructor.
    + intros e He. repeat (apply elem_of_cons in He as [->|He]; [discriminate|]).
      inversion He.
    + split; [exact Hnone | exact (Hrun day1)].
Defined.

Lemma find_common_order_witness :
  find_common_forecast_horizons demo [wind_day1; temperature_day1]
  = find_common_forecast_horizons demo [temperature_day1; wind_day1].
Proof.
  apply (find_common_order_independent demo [temperature_day1; wind_day1]
           [wind_day1; temperature_day1] [[0; 1; 2; 3]; [1; 2; 4]]).
  - vm_compute. reflexivity.
  - repeat constructor; not_listed.
  - apply Permutation_swap.
Defined.

Lemma validate_iff_common_witness :
  validate_forecast_horizons demo [temperature_day1; wind_day1] [2; 1] = Ok [].
Proof.
  apply (validate_iff_common demo [temperature_day1; wind_day1] [1; 2] [2; 1]).
  - vm_compute. reflexivity.
  - repeat constructor.
Defined.

Lemma combined_coverage_degenerate_witness :
  get_combined_coverage demo ["TEMPERATURE"] [day1; day1] None None None
                        france.1 france.2 None
  = Raise (ValueError DuplicateRun)
  /\ get_combined_coverage demo ["TEMPERATURE"] [] (Some [2]) None None
                           france.1 france.2 None
     = Raise (ValueError NoObjectsToConcatenate)
  /\ get_combined_coverage demo [] [day1; day2] None None None france.1 france.2 None
     = Raise IndexError
  /\ get_combined_coverage demo [] [day1; day2] None None None france.1 france.2 (Some [1])
     = Raise TypeError.
Proof.
  split; [|split].
  - apply (proj1 (combined_coverage_degenerate_inputs demo ["TEMPERATURE"] [day1; day1]
                    None None None france.1 france.2 None)).
    intros Hnd. apply NoDup_cons in Hnd as [Hin _]. apply Hin. constructor.
  - apply (proj1 (proj2 (combined_coverage_degenerate_inputs demo ["TEMPERATURE"] []
                           (Some [2]) None None france.1 france.2 None)));
      [reflexivity | exact I | now left].
  - destruct (proj2 (proj2 (combined_coverage_degenerate_inputs demo [] [day1; day2]
                              None None None france.1 france.2 None)))
      as [Hnone Hsome]; try reflexivity.
    + repeat constructor; not_listed.
    + discriminate.
    + split; [exact Hnone | exact (Hsome [1])].
Defined.

Lemma combined_coverage_structure_witness :
  exists df merged,
    get_combined_coverage demo ["TEMPERATURE"; wind] [day1; day2] None None None
                          france.1 france.2 (Some [1]) = Ok df
    /\ length merged = 2%nat
    /\ rows df = range_index (flat_map (fun m => map snd (rows m)) merged).
Proof.
  eexists.
  match goal with
  | |- exists merged, ?g = Ok ?d /\ _ =>
      assert (Hg : g = Ok d) by (vm_compute; reflexivity)
  end.
  destruct (combined_coverage_structure demo _ _ _ _ _ _ _ _ _ Hg)
    as (_ & targets & tables & merged & Hresolved & _ & Hfetch & Hreduce & _ & Hrows).
  exists merged. split; [exact Hg|]. split; [|exact Hrows].
  apply Forall2_length in Hresolved, Hfetch, Hreduce. cbn [length] in Hresolved. lia.
Defined.

Lemma default_horizon_witness :
  find_common_forecast_horizons demo [temperature_day1; wind_day1] = Ok [1; 2]
  /\ resolve_run demo ["TEMPERATURE"; wind] [] [] None ([], None) day1
     = Ok ([(day1, [(temperature_day1, None, None); (wind_day1, None, None)])], Some [1])
  /\ (exists df,
        get_combined_coverage demo ["TEMPERATURE"; wind] [day1; day2] None None None
                              france.1 france.2 None = Ok df
        /\ made_of demo ["TEMPERATURE"; wind] [day1; day2] None None None
                   france.1 france.2 [1] df)
  /\ get_combined_coverage demo_shifted ["TEMPERATURE"; wind] [day1; day2] None None None
                           france.1 france.2 None
     = Raise (ValueError (InvalidForecastHorizons [1] [wind_day2])).
Proof.
  destruct (default_horizon_from_first_run demo ["TEMPERATURE"; wind] day1 [day2]
              None None None france.1 france.2
              [(day1, [(temperature_day1, None, None); (wind_day1, None, None)])]
              [(temperature_day1, None, None); (wind_day1, None, None)]
              [1; 2] 1)
    as (Hstep & _ & _ & Hmade & _); [vm_compute; reflexivity ..|].
  destruct (default_horizon_from_first_run demo_shifted ["TEMPERATURE"; wind] day1 [day2]
              None None None france.1 france.2
              [(day1, [(temperature_day1, None, None); (wind_day1, None, None)])]
              [(temperature_day1, None, None); (wind_day1, None, None)]
              [1; 2] 1)
    as (_ & _ & _ & _ & Hinvalid & _); [vm_compute; reflexivity ..|].
  split; [vm_compute; reflexivity|]. split; [exact Hstep|]. split.
  - eexists. split; [vm_compute; reflexivity|].
    apply Hmade. vm_compute. reflexivity.
  - apply (Hinvalid
             [(day1, [(temperature_day1, None, None); (wind_day1, None, None)]);
              (day2, [(temperature_day2, None, None); (wind_day2, None, None)])]
             [wind_day2]); try (vm_compute; reflexivity); try exact I.
    + repeat constructor; not_listed.
    + now left.
    + discriminate.
Defined.

Lemma no_common_horizon_witness :
  get_combined_coverage demo_disjoint ["TEMPERATURE"; wind] [day1] None None None
                        france.1 france.2 None
  = Raise IndexError.
Proof.
  refine (proj1 (combined_coverage_no_common_horizon demo_disjoint ["TEMPERATURE"; wind]
                   day1 [] None None None france.1 france.2
                   [(day1, [(temperature_day1, None, None); (wind_day1, None, None)])]
                   [(temperature_day1, None, None); (wind_day1, None, None)]
                   _ I I (or_introl eq_refl) _ _ _)).
  - repeat constructor. intros Hc. inversion Hc.
  - vm_compute. reflexivity.
  - vm_compute. reflexivity.
  - vm_compute. reflexivity.
Defined.


Lemma joined_keys_witness :
  exists joined,
    reduce merge_on_keys [temperature_table; wind_table] = Ok joined
    /\ keys join_keys joined = keys join_keys temperature_table
    /\ NoDup (keys join_keys joined).
Proof.
  eexists.
  match goal with
  | |- ?g = Ok ?d /\ _ => assert (Hg : g = Ok d) by (vm_compute; reflexivity)
  end.
  destruct (joined_keys temperature_table [wind_table] _ Hg) as (Hkeys & _ & Hmore).
  split; [exact Hg|]. split.
  - rewrite Hkeys. vm_compute. reflexivity.
  - now apply Hmore.
Defined.

Lemma single_forecast_table_witness :
  exists df,
    _get_data_single_forecast demo temperature_day1 1 None (Some 2) france.1 france.2
    = Ok df
    /\ Forall (fun c => c ∈ columns df) join_keys
    /\ "heightAboveGround" ∉ columns df.
Proof.
  eexists.
  match goal with
  | |- ?g = Ok ?d /\ _ => assert (Hg : g = Ok d) by (vm_compute; reflexivity)
  end.
  assert (Hpop : forall several : list string,
            several <> [] -> set_pop demo several ∈ several).
  { intros [|c several] Hne; [congruence|]. constructor. }
  destruct (single_forecast_table demo _ _ _ _ _ _ _ Hpop Hg)
    as (raw & ic & name & Hraw & _ & _ & _ & _ & _ & Hdropped & Hkeys).
  split; [exact Hg|]. split.
  - apply Hkeys. vm_compute in Hraw. injection Hraw as <-. repeat constructor.
  - apply Forall_cons in Hdropped as [_ Hdropped].
    now apply Forall_cons in Hdropped as [Hheight _].
Defined.

Lemma single_forecast_errors_witness :
  _get_data_single_forecast demo_bare temperature_day1 1 None (Some 2) france.1 france.2
  = Raise KeyError.
Proof.
  apply (proj1 (single_forecast_errors demo_bare temperature_day1 1 None (Some 2)
                  france.1 france.2 bare_table eq_refl)).
  repeat constructor.
Defined.

Lemma available_feature_witness :
  Description._get_available_feature plain_int demo_grid "pressure" = Ok []
  /\ Description._get_available_feature plain_int demo_grid "time" = Ok [0; 3600; 7200].
Proof.
  destruct (available_feature_first_axis plain_int demo_grid "pressure") as [Hnone _].
  destruct (available_feature_first_axis plain_int demo_grid "time") as [_ Hfirst].
  split.
  - apply Hnone. repeat constructor; discriminate.
  - destruct (Hfirst [] _ _ eq_refl) as [Heq _]; [constructor | reflexivity|].
    rewrite Heq. vm_compute. reflexivity.
Defined.

Lemma horizon_asks_listed_time_witness :
  Description.get_coverage_description plain_int (fun time => Z.quot time 3600)
    (fun _ => Ok demo_grid) temperature_day1
  = Ok {| axis_forecast_horizons := [0; 1; 2]; axis_heights := [2; 10];
          axis_pressures := [] |}
  /\ 2 * 3600 ∈ [0; 3600; 7200].
Proof.
  assert (Haxis : Description.get_coverage_description plain_int (fun time => Z.quot time 3600)
                    (fun _ => Ok demo_grid) temperature_day1
                  = Ok {| axis_forecast_horizons := [0; 1; 2]; axis_heights := [2; 10];
                          axis_pressures := [] |})
    by (vm_compute; reflexivity).
  split; [exact Haxis|].
  refine (proj2 (proj2 (horizon_asks_listed_time plain_int (fun time => Z.quot time 3600)
                          (fun _ => Ok demo_grid) temperature_day1 demo_grid
                          [0; 3600; 7200] _ _ eq_refl _ _ Haxis)) _ 2 _).
  - intros time _. reflexivity.
  - vm_compute. reflexivity.
  - repeat constructor.
  - repeat constructor.
  - repeat constructor.
Defined.

Lemma get_decisive_response_witness :
  fst (Client.get "arome" 5 [answer 500 ""; answer 503 ""; answer 200 "ok"; answer 404 ""]
         key_client)
  = Client.Returned (answer 200 "ok")
  /\ fst (Client.get "arome" 5 [answer 429 ""; answer 404 "no data"; answer 200 "ok"]
            key_client)
     = Client.Raised (Client.MissingDataError "no data").
Proof.
  assert (H500 : Client.passed_over (answer 500 "")) by (left; not_listed).
  assert (H429 : Client.passed_over (answer 429 "")) by (left; not_listed).
  assert (H503 : Client.passed_over (answer 503 ""))
    by (right; right; left; reflexivity).
  split.
  - pose proof (proj1 (get_decisive_response "arome" 5 [answer 500 ""; answer 503 ""]
                         (answer 200 "ok") [answer 404 ""] key_client
                         ltac:(repeat (apply Forall_cons_2; [assumption|]); apply Forall_nil_2)
                         ltac:(vm_compute; reflexivity))
                      eq_refl) as Hget.
    cbn [app] in Hget. now rewrite Hget.
  - pose proof (proj2 (proj2 (get_decisive_response "arome" 5 [answer 429 ""]
                                (answer 404 "no data") [answer 200 "ok"] key_client
                                ltac:(repeat (apply Forall_cons_2; [assumption|]); apply Forall_nil_2)
                                ltac:(vm_compute; reflexivity)))
                      eq_refl) as Hget.
    cbn [app] in Hget. now rewrite Hget.
Defined.

Lemma get_gives_up_witness :
  fst (Client.get "arome" 2 [answer 503 ""; answer 500 ""; answer 502 ""; answer 200 "ok"]
         key_client)
  = Client.Raised
      (Client.GenericMeteofranceApiError
         "Failed to get a successful response from API after 2 retries")
  /\ Client.get "arome" 0 [answer 200 "ok"] key_client
     = (Client.Raised
          (Client.GenericMeteofranceApiError
             "Failed to get a successful response from API after 0 retries"),
        key_client).
Proof.
  assert (H500 : Client.passed_over (answer 500 "")) by (left; not_listed).
  assert (H503 : Client.passed_over (answer 503 ""))
    by (right; right; left; reflexivity).
  split.
  - destruct (proj2 (get_gives_up "arome" 2
                       [answer 503 ""; answer 500 ""; answer 502 ""; answer 200 "ok"]
                       key_client)
                    [answer 503 ""; answer 500 ""] (answer 502 "") [answer 200 "ok"])
      as [Hget _].
    + reflexivity.
    + repeat (apply Forall_cons_2; [assumption|]); apply Forall_nil_2.
    + left. reflexivity.
    + vm_compute. reflexivity.
    + rewrite Hget. reflexivity.
  - apply (proj1 (get_gives_up "arome" 0 [answer 200 "ok"] key_client)). lia.
Defined.

Lemma get_goes_on_unhandled_witness :
  fst (Client.get "arome" 5 [answer 500 ""; answer 429 ""; answer 500 ""] key_client)
  = Client.Pending.
Proof.
  rewrite (get_goes_on_unhandled "arome" 5 [answer 500 ""; answer 429 ""; answer 500 ""]
             key_client); [reflexivity | lia |].
  repeat constructor; not_listed.
Defined.

Lemma get_refreshes_expired_token_witness :
  Client.get "arome" 5 [expired_answer; answer 200 "ok"] id_client
  = (Client.Returned (answer 200 "ok"),
     {| Client.client :=
          {| Client._token := Some "fresh"; Client._api_key := None;
             Client._application_id := Some "app"; Client._token_expired := true;
             Client.session_headers := [("Authorization", "Bearer fresh")] |};
        Client.token_responses := [];
        Client.events :=
          [Client.Get "https://public-api.meteofrance.fr/public/arome"
                      [("Authorization", "Bearer stale")];
           Client.Post "https://portail-api.meteofrance.fr/token" "Basic app";
           Client.Get "https://public-api.meteofrance.fr/public/arome"
                      [("Authorization", "Bearer fresh")]] |}).
Proof.
  assert (Hexpired : Client.expired expired_answer).
  { split; [reflexivity|]. split.
    - eexists. split; [reflexivity | vm_compute; reflexivity].
    - eexists. split; reflexivity. }
  unfold Client.get.
  rewrite (proj2 (get_refreshes_expired_token _ 5 0 expired_answer [answer 200 "ok"]
                    id_client ltac:(lia) Hexpired)
                 "app" token_answer [] [("access_token", "fresh")] "fresh"
                 eq_refl eq_refl eq_refl eq_refl).
  vm_compute. reflexivity.
Defined.

Lemma get_on_unauthorized_witness :
  Client.get "arome" 5 [answer 401 "who are you"] key_client
  = (Client.Raised (Client.KeyError "content-type"),
     Client.add_events
       [Client.Get "https://public-api.meteofrance.fr/public/arome" [("apikey", "key")]]
       key_client).
Proof.
  apply (proj1 (get_on_unauthorized (Client.API_BASE_URL +:+ "arome") 5 0
                  (answer 401 "who are you") [] key_client ltac:(lia) eq_refl)).
  reflexivity.
Defined.

Lemma init_credentials_witness :
  fst (Client.init (Some "stale") (Some "key") (Some "app") id_client)
  = Client.Returned tt
  /\ fst (Client.init None None None id_client)
     = Client.Raised (Client.ValueError "api_key or token or application_id must be provided").
Proof.
  split.
  - rewrite (proj1 (init_credentials (Some "stale") (Some "key") (Some "app") id_client)
                   "key" eq_refl).
    reflexivity.
  - rewrite (proj2 (proj2 (proj2 (init_credentials None None None id_client)))
                   eq_refl eq_refl eq_refl).
    reflexivity.
Defined.

End FurtherExamples.
